(** * f1tv-dl: download queue, stream-plan builder and token manager

    A shallow embedding of three parts of the repository:
    - [DownloadQueue] (class DownloadQueue: constructor, addDownload, start,
      stop, pause, resume, processQueue, processTask, handleTaskError,
      finishQueue, getStatus, clearHistory);
    - [StreamPlan] (the ffmpeg argument vector assembled by
      DownloadQueue.downloadVideo);
    - [TokenManager] (lib/token-manager.js).

    JavaScript numbers that hold counts, timestamps and millisecond
    configuration values are integers ([Z]); sleep durations are rationals
    ([Q]) because the code halves and scales them.  [x || d] is modelled
    with JavaScript truthiness: [undefined], [0] and the empty string all
    select the default. *)

From Stdlib Require Import ZArith QArith Qminmax Qpower List String Bool Lia.
From Stdlib Require Import DecimalString.
From stdpp Require Import base list.

Local Open Scope Z_scope.

(** ** JavaScript truthiness *)

Module Js.

(** [x || d] where [x] is a number or undefined. *)
Definition or_num (x : option Z) (d : Z) : Z :=
    match x with
    | Some v => if v =? 0 then d else v
    | None => d
    end.

(** [x || d] where [x] is a string or undefined. *)
Definition or_str (x : option string) (d : string) : string :=
    match x with
    | Some EmptyString => d
    | Some s => s
    | None => d
    end.

(** Truthiness of a value that is a non-null string, or null/undefined. *)
Definition truthy_str (x : option string) : bool :=
    match x with
    | Some EmptyString => false
    | Some _ => true
    | None => false
    end.

(** Truthiness of a value that is a number, or null/undefined. *)
Definition truthy_num (x : option Z) : bool :=
    match x with
    | Some v => negb (v =? 0)
    | None => false
    end.

End Js.

(** ** The download queue *)

Module DownloadQueue.

(** A task is referred to by its position in the store of task objects;
    the collections of the queue hold such references, so that a change
    to a task (attempts, status, error) is seen through every collection
    that holds it.  The source gives each task an id string made of the
    clock and a random suffix and compares tasks by that id; the model
    takes these ids to be pairwise distinct. *)
Abbreviation ref := nat.

Module Options.
Record t := mk {
  maxConcurrent : option Z;
  delay : option Z;
  retryAttempts : option Z;
  retryDelay : option Z;
  rateLimitBackoff : option Z }.
Definition empty : t := mk None None None None None.
End Options.

Module Config.
(** The argument of addDownload. *)
Record t := mk {
  url : string;
  channel : option string;
  outputDirectory : option string;
  audioStream : option string;
  videoSize : option string;
  format : option string;
  internationalAudio : option string;
  itsoffset : option string }.
End Config.

Module Task.
Inductive lifecycle := Queued | Downloading | Completed | Failed.

(** The wall-clock fields (addedAt, startedAt, completedAt) and the
    progress record, which only the ffmpeg callbacks write, are left
    out. *)
Record t := mk {
  url : string;
  channel : option string;
  outputDirectory : option string;
  audioStream : string;
  videoSize : string;
  format : string;
  internationalAudio : option string;
  itsoffset : string;
  attempts : Z;
  status : lifecycle;
  error : option string }.

Definition with_attempts (n : Z) (k : t) : t :=
  mk (url k) (channel k) (outputDirectory k) (audioStream k) (videoSize k)
     (format k) (internationalAudio k) (itsoffset k) n (status k) (error k).
Definition with_status (s : lifecycle) (k : t) : t :=
  mk (url k) (channel k) (outputDirectory k) (audioStream k) (videoSize k)
     (format k) (internationalAudio k) (itsoffset k) (attempts k) s (error k).
Definition with_error (e : option string) (k : t) : t :=
  mk (url k) (channel k) (outputDirectory k) (audioStream k) (videoSize k)
     (format k) (internationalAudio k) (itsoffset k) (attempts k) (status k) e.

End Task.

Module Stats.
Record t := mk {
  totalQueued : Z;
  completed : Z;
  failed : Z;
  bytesDownloaded : Z;
  averageSpeed : Z }.
End Stats.

(** A thrown error: its message and, when it carries an HTTP response,
    the status of that response. *)
Record error := mkError {
    message : string;
    response_status : option Z }.

Inductive event :=
  | taskAdded (t : ref)
  | queueStarted
  | queueStopped
  | queuePaused
  | queueResumed
  | taskStarted (t : ref)
  | taskCompleted (t : ref)
  | taskFailed (t : ref)
  | queueCompleted (completed failed total : Z).

(** The fields of the object, then the store of task objects and the
    log of emitted events. *)
Record t := mk {
    maxConcurrent : Z;
    delayBetweenDownloads : Z;
    retryAttempts : Z;
    retryDelay : Z;
    rateLimitBackoff : Z;
    queue : list ref;
    active : list ref;
    completed : list ref;
    failed : list ref;
    isRunning : bool;
    isPaused : bool;
    stats : Stats.t;
    store : list Task.t;
    emitted : list event }.

Definition with_queue (v : list ref) (q : t) : t :=
    mk (maxConcurrent q) (delayBetweenDownloads q) (retryAttempts q) (retryDelay q)
       (rateLimitBackoff q) v (active q) (completed q) (failed q)
       (isRunning q) (isPaused q) (stats q) (store q) (emitted q).
Definition with_active (v : list ref) (q : t) : t :=
    mk (maxConcurrent q) (delayBetweenDownloads q) (retryAttempts q) (retryDelay q)
       (rateLimitBackoff q) (queue q) v (completed q) (failed q)
       (isRunning q) (isPaused q) (stats q) (store q) (emitted q).
Definition with_completed (v : list ref) (q : t) : t :=
    mk (maxConcurrent q) (delayBetweenDownloads q) (retryAttempts q) (retryDelay q)
       (rateLimitBackoff q) (queue q) (active q) v (failed q)
       (isRunning q) (isPaused q) (stats q) (store q) (emitted q).
Definition with_failed (v : list ref) (q : t) : t :=
    mk (maxConcurrent q) (delayBetweenDownloads q) (retryAttempts q) (retryDelay q)
       (rateLimitBackoff q) (queue q) (active q) (completed q) v
       (isRunning q) (isPaused q) (stats q) (store q) (emitted q).
Definition with_isRunning (v : bool) (q : t) : t :=
    mk (maxConcurrent q) (delayBetweenDownloads q) (retryAttempts q) (retryDelay q)
       (rateLimitBackoff q) (queue q) (active q) (completed q) (failed q)
       v (isPaused q) (stats q) (store q) (emitted q).
Definition with_isPaused (v : bool) (q : t) : t :=
    mk (maxConcurrent q) (delayBetweenDownloads q) (retryAttempts q) (retryDelay q)
       (rateLimitBackoff q) (queue q) (active q) (completed q) (failed q)
       (isRunning q) v (stats q) (store q) (emitted q).
Definition with_stats (v : Stats.t) (q : t) : t :=
    mk (maxConcurrent q) (delayBetweenDownloads q) (retryAttempts q) (retryDelay q)
       (rateLimitBackoff q) (queue q) (active q) (completed q) (failed q)
       (isRunning q) (isPaused q) v (store q) (emitted q).
Definition with_store (v : list Task.t) (q : t) : t :=
    mk (maxConcurrent q) (delayBetweenDownloads q) (retryAttempts q) (retryDelay q)
       (rateLimitBackoff q) (queue q) (active q) (completed q) (failed q)
       (isRunning q) (isPaused q) (stats q) v (emitted q).

(** this.emit(e): listeners are outside the model and are taken not to
    call back into the queue. *)
Definition emit (e : event) (q : t) : t :=
    mk (maxConcurrent q) (delayBetweenDownloads q) (retryAttempts q) (retryDelay q)
       (rateLimitBackoff q) (queue q) (active q) (completed q) (failed q)
       (isRunning q) (isPaused q) (stats q) (store q) (emitted q ++ [e]).

(** A write to a field of the task object behind [r]. *)
Definition update_task (r : ref) (f : Task.t -> Task.t) (q : t) : t :=
    with_store (alter f r (store q)) q.

Definition attempts_of (q : t) (r : ref) : Z :=
    match store q !! r with
    | Some k => Task.attempts k
    | None => 0
    end.

(** constructor(options = {}) *)
Definition new (o : Options.t) : t :=
    {| maxConcurrent := Z.min (Js.or_num (Options.maxConcurrent o) 1) 3;
       delayBetweenDownloads := Js.or_num (Options.delay o) 30 * 1000;
       retryAttempts := Js.or_num (Options.retryAttempts o) 3;
       retryDelay := Js.or_num (Options.retryDelay o) 5000;
       rateLimitBackoff := Js.or_num (Options.rateLimitBackoff o) 60000;
       queue := [];
       active := [];
       completed := [];
       failed := [];
       isRunning := false;
       isPaused := false;
       stats := Stats.mk 0 0 0 0 0;
       store := [];
       emitted := [] |}.


(** *** Suspended executions

    The queue runs on one event loop: a piece of code runs without
    interruption from one [await] to the next.  A suspended execution of
    processQueue or processTask is recorded with the point at which it
    waits; sleeps carry their duration in milliseconds. *)
Inductive thread :=
| InScheduler (ms : Q)
  (* processQueue, in one of its three [await this.sleep(ms)] *)
| InDownload (r : ref)
  (* processTask, awaiting getContentInfo, getTokenizedUrl or downloadVideo *)
| InBackoff (r : ref) (e : error) (ms : Q)
  (* handleTaskError, in [await this.sleep(this.rateLimitBackoff)] *)
| InRetrySleep (r : ref) (ms : Q)
  (* handleTaskError, in [await this.sleep(retryDelay)] *)
| InErrorHandled (r : ref)
  (* processTask, at [await this.handleTaskError(task, error)] once
     handleTaskError has returned; the finally block has not run yet *)
| InCooldown (r : ref) (ms : Q).
  (* the finally block of processTask, in
     [await this.sleep(this.delayBetweenDownloads)] *)

Record system := mkSystem {
  this : t;
  threads : list thread }.

(** finishQueue(): the summary is logged and queueCompleted is emitted. *)
Definition finishQueue (q : t) : t :=
  let q := with_isRunning false q in
  emit (queueCompleted (Stats.completed (stats q)) (Stats.failed (stats q))
                       (Stats.totalQueued (stats q))) q.

(** processTask(task), from its entry up to [await getContentInfo(task.url)]. *)
Definition processTask_begin (r : ref) (q : t) : t :=
  let q := update_task r (Task.with_status Task.Downloading) q in
  let q := update_task r (fun k => Task.with_attempts (Task.attempts k + 1) k) q in
  emit (taskStarted r) q.

(** processTask(task), the end of the try block. *)
Definition processTask_success (r : ref) (q : t) : t :=
  let q := update_task r (Task.with_status Task.Completed) q in
  let q := with_completed (completed q ++ [r]) q in
  let q := with_stats
             (Stats.mk (Stats.totalQueued (stats q)) (Stats.completed (stats q) + 1)
                       (Stats.failed (stats q)) (Stats.bytesDownloaded (stats q))
                       (Stats.averageSpeed (stats q))) q in
  emit (taskCompleted r) q.

(** this.active.findIndex(t => t.id === task.id) *)
Fixpoint findIndex (r : ref) (l : list ref) : option nat :=
  match l with
  | [] => None
  | x :: l' => if Nat.eqb x r then Some O else S <$> findIndex r l'
  end.

(** processTask(task), the finally block. *)
Definition processTask_finally (r : ref) (q : t) : t * list thread :=
  let q := match findIndex r (active q) with
           | Some index => with_active (delete index (active q)) q
           | None => q
           end in
  if (Z.of_nat (length (active q)) =? 0) && (0 <? Z.of_nat (length (queue q)))
  then (q, [InCooldown r (inject_Z (delayBetweenDownloads q))])
  else (q, []).

(** error.response && error.response.status === 429 *)
Definition rate_limited (e : error) : bool :=
  match response_status e with
  | Some s => s =? 429
  | None => false
  end.

(** handleTaskError, from "Retry logic for other errors" on: either the
    sleep before the retry is started, or the retries are exhausted and
    the task fails. *)
Definition handleTaskError_retry (r : ref) (q : t) : t * list thread :=
  if attempts_of q r <? retryAttempts q then
    let retryDelay := (inject_Z (retryDelay q) * Qpower 2 (attempts_of q r - 1))%Q in
    (q, [InRetrySleep r retryDelay])
  else
    let q := update_task r (Task.with_status Task.Failed) q in
    let q := with_failed (failed q ++ [r]) q in
    let q := with_stats
               (Stats.mk (Stats.totalQueued (stats q)) (Stats.completed (stats q))
                         (Stats.failed (stats q) + 1) (Stats.bytesDownloaded (stats q))
                         (Stats.averageSpeed (stats q))) q in
    (emit (taskFailed r) q, [InErrorHandled r]).

(** handleTaskError(task, error), from its entry to its first await or
    to its return. *)
Definition handleTaskError (r : ref) (e : error) (q : t) : t * list thread :=
  let q := update_task r (Task.with_error (Some (message e))) q in
  if rate_limited e
  then (q, [InBackoff r e (inject_Z (rateLimitBackoff q))])
  else handleTaskError_retry r q.

(** handleTaskError, resumed after the rate-limit sleep. *)
Definition handleTaskError_after_backoff (r : ref) (q : t) : t * list thread :=
  if attempts_of q r <? retryAttempts q
  then (with_queue (r :: queue q) q, [InErrorHandled r])
  else handleTaskError_retry r q.

(** handleTaskError, resumed after the retry sleep. *)
Definition handleTaskError_after_retry_sleep (r : ref) (q : t) : t * list thread :=
  (with_queue (r :: queue q) q, [InErrorHandled r]).

(** processQueue(): the while loop, run until it suspends in a sleep or
    leaves the loop.  The result is the new state and the executions that
    are suspended at that point: the started tasks and, unless the loop
    was left, the scheduler itself.  The loop goes round again without
    suspending only after it has taken a task off the queue, so a fuel of
    one more than the queue length is never used up
    ([processQueue_loop_fuel]). *)
Fixpoint processQueue_loop (fuel : nat) (q : t) : option (t * list thread) :=
  match fuel with
  | O => None
  | S fuel =>
    if negb (isRunning q) then Some (finishQueue q, [])
    else if isPaused q then Some (q, [InScheduler 1000])
    else if (Z.of_nat (length (active q)) <? maxConcurrent q)
            && (0 <? Z.of_nat (length (queue q))) then
      match queue q with
      | [] => Some (q, [InScheduler 1000]) (* shift() of an empty queue: excluded by the test *)
      | task :: rest =>
        let q := with_queue rest q in
        let q := with_active (active q ++ [task]) q in
        let q := processTask_begin task q in
        if (0 <? Z.of_nat (length (queue q))) && (1 <? maxConcurrent q) then
          Some (q, [InDownload task;
                    InScheduler (Qmin (inject_Z (delayBetweenDownloads q) / 2) 10000)])
        else
          match processQueue_loop fuel q with
          | Some (q', ths) => Some (q', InDownload task :: ths)
          | None => None
          end
      end
    else if (Z.of_nat (length (active q)) =? 0) && (Z.of_nat (length (queue q)) =? 0)
    then Some (finishQueue q, [])
    else Some (q, [InScheduler 1000])
  end.

Definition processQueue (q : t) : t * list thread :=
  match processQueue_loop (S (length (queue q))) q with
  | Some res => res
  | None => (q, [])
  end.

(** The pass of the loop that starts a task, as one function: [task] leaves the head of
    the queue for the active list and processTask runs up to its first
    await. *)
Definition launch (task : ref) (rest : list ref) (q : t) : t :=
  processTask_begin task (with_active (active q ++ [task]) (with_queue rest q)).

Definition run_processQueue (s : system) : system :=
  let '(q, ths) := processQueue (this s) in
  mkSystem q (threads s ++ ths).

(** start() *)
Definition start (s : system) : system :=
  if isRunning (this s) then s
  else
    let q := with_isRunning true (this s) in
    let q := with_isPaused false q in
    let q := emit queueStarted q in
    run_processQueue (mkSystem q (threads s)).

(** stop() *)
Definition stop (q : t) : t :=
  emit queueStopped (with_isRunning false q).

(** pause() *)
Definition pause (q : t) : t :=
  emit queuePaused (with_isPaused true q).

(** resume() *)
Definition resume (s : system) : system :=
  let q := with_isPaused false (this s) in
  let q := emit queueResumed q in
  run_processQueue (mkSystem q (threads s)).

(** clearHistory() *)
Definition clearHistory (q : t) : t :=
  let q := with_completed [] q in
  with_failed [] q.

Module Status.
Record t := mk {
  isRunning : bool;
  isPaused : bool;
  queueLength : Z;
  activeDownloads : Z;
  completedDownloads : Z;
  failedDownloads : Z;
  stats : Stats.t;
  maxConcurrent : Z;
  delayBetweenDownloads : Z }.
End Status.

(** getStatus() *)
Definition getStatus (q : t) : Status.t :=
  {| Status.isRunning := isRunning q;
     Status.isPaused := isPaused q;
     Status.queueLength := Z.of_nat (length (queue q));
     Status.activeDownloads := Z.of_nat (length (active q));
     Status.completedDownloads := Z.of_nat (length (completed q));
     Status.failedDownloads := Z.of_nat (length (failed q));
     Status.stats := stats q;
     Status.maxConcurrent := maxConcurrent q;
     Status.delayBetweenDownloads := delayBetweenDownloads q |}.

(** The task object built at the head of addDownload. *)
Definition new_task (c : Config.t) : Task.t :=
  {| Task.url := Config.url c;
     Task.channel := Config.channel c;
     Task.outputDirectory := Config.outputDirectory c;
     Task.audioStream := Js.or_str (Config.audioStream c) "eng";
     Task.videoSize := Js.or_str (Config.videoSize c) "best";
     Task.format := Js.or_str (Config.format c) "mp4";
     Task.internationalAudio := Config.internationalAudio c;
     Task.itsoffset := Js.or_str (Config.itsoffset c) "-00:00:04.750";
     Task.attempts := 0;
     Task.status := Task.Queued;
     Task.error := None |}.

(** this.queue.push(task); this.stats.totalQueued++;
    this.emit('taskAdded', task), for a task object that becomes the
    next entry of the store. *)
Definition enqueue (task : Task.t) (q : t) : t :=
  let r := length (store q) in
  let q := with_store (store q ++ [task]) q in
  let q := with_queue (queue q ++ [r]) q in
  let q := with_stats
             (Stats.mk (Stats.totalQueued (stats q) + 1) (Stats.completed (stats q))
                       (Stats.failed (stats q)) (Stats.bytesDownloaded (stats q))
                       (Stats.averageSpeed (stats q))) q in
  emit (taskAdded r) q.

Section Validator.

(** isF1tvUrl of lib/f1tv-validator, which is not part of the sources at
    hand. *)
Variable isF1tvUrl : string -> bool.

(** addDownload(downloadConfig): the new state and the task id, or the
    thrown message. *)
Definition addDownload (c : Config.t) (s : system) : system * ref + string :=
  let task := new_task c in
  if negb (isF1tvUrl (Task.url task))
  then inr ("Invalid F1TV URL: " ++ Task.url task)%string
  else
    let r := length (store (this s)) in
    let q := enqueue task (this s) in
    let s := mkSystem q (threads s) in
    inl (if isRunning q then s else start s, r).

(** *** The transitions of the system

    A client call, or the resumption of the suspended execution at
    position [i]: a timer fires ([Fired], which also stands for the
    settling of handleTaskError's promise), or the download chain of a
    task settles ([Resolved], [Rejected e]). *)
Inductive answer := Fired | Resolved | Rejected (e : error).

Inductive label :=
| CallAddDownload (c : Config.t)
| CallStart
| CallStop
| CallPause
| CallResume
| CallClearHistory
| Continue (i : nat) (a : answer).

Definition continue (th : thread) (a : answer) (q : t) : option (t * list thread) :=
  match th, a with
  | InScheduler _, Fired => Some (processQueue q)
  | InDownload r, Resolved => Some (processTask_finally r (processTask_success r q))
  | InDownload r, Rejected e => Some (handleTaskError r e q)
  | InBackoff r _ _, Fired => Some (handleTaskError_after_backoff r q)
  | InRetrySleep r _, Fired => Some (handleTaskError_after_retry_sleep r q)
  | InErrorHandled r, Fired => Some (processTask_finally r q)
  | InCooldown _ _, Fired => Some (q, [])
  | _, _ => None
  end.

Definition step (s : system) (l : label) : option system :=
  match l with
  | CallAddDownload c =>
    match addDownload c s with
    | inl (s', _) => Some s'
    | inr _ => Some s
    end
  | CallStart => Some (start s)
  | CallStop => Some (mkSystem (stop (this s)) (threads s))
  | CallPause => Some (mkSystem (pause (this s)) (threads s))
  | CallResume => Some (resume s)
  | CallClearHistory => Some (mkSystem (clearHistory (this s)) (threads s))
  | Continue i a =>
    match threads s !! i with
    | Some th =>
      match continue th a (this s) with
      | Some (q, ths) => Some (mkSystem q (delete i (threads s) ++ ths))
      | None => None
      end
    | None => None
    end
  end.

Fixpoint run (s : system) (ls : list label) : option system :=
  match ls with
  | [] => Some s
  | l :: ls' =>
    match step s l with
    | Some s' => run s' ls'
    | None => None
    end
  end.

(** The states the queue built by [new DownloadQueue(o)] can be in between
    two uninterrupted pieces of code. *)
Definition reachable (o : Options.t) (s : system) : Prop :=
  exists ls, run (mkSystem (new o) []) ls = Some s.

End Validator.

End DownloadQueue.

(** ** Calls to collaborators

    Code that calls out (to the file system, the network, a browser, the
    ffmpeg process) is written as a tree: a call node carries the request
    and continues with its result, which is a value or a rejection.  A
    [handler] answers requests from a world of its own; [run] executes a
    tree against a handler and records the exchanges in order.  The
    clock is read the same way, except that it cannot fail. *)

Module Async.

Inductive result (X : Type) : Type :=
| Fulfilled (x : X)
| Rejected (msg : string).
Arguments Fulfilled {X} x.
Arguments Rejected {X} msg.

Inductive outcome (A : Type) : Type :=
| Returned (a : A)
| Thrown (msg : string).
Arguments Returned {A} a.
Arguments Thrown {A} msg.

(** [Call e k]: the request [e] is made and [k] goes on with its result.
    [Now k]: Date.now() is read, which always gives a number. *)
Inductive t (E : Type -> Type) (A : Type) : Type :=
| Ret (a : A)
| Throw (msg : string)
| Call {X : Type} (e : E X) (k : result X -> t E A)
| Now (k : Z -> t E A).
Arguments Ret {E A} a.
Arguments Throw {E A} msg.
Arguments Call {E A X} e k.
Arguments Now {E A} k.

Fixpoint bind {E : Type -> Type} {A B : Type} (m : t E A) (f : A -> t E B) : t E B :=
  match m with
  | Ret a => f a
  | Throw msg => Throw msg
  | Call e k => Call e (fun r => bind (k r) f)
  | Now k => Now (fun now => bind (k now) f)
  end.

(** [await e] outside a try block: a rejection is rethrown. *)
Definition await {E : Type -> Type} {X : Type} (e : E X) : t E X :=
  Call e (fun r => match r with
                   | Fulfilled x => Ret x
                   | Rejected msg => Throw msg
                   end).

(** [try { m } catch (e) { handle e }] *)
Fixpoint try_catch {E : Type -> Type} {A : Type} (m : t E A) (handle : string -> t E A) : t E A :=
  match m with
  | Ret a => Ret a
  | Throw msg => handle msg
  | Call e k => Call e (fun r => try_catch (k r) handle)
  | Now k => Now (fun now => try_catch (k now) handle)
  end.

(** What a run leaves behind: the requests with their results, and the
    readings of the clock. *)
Inductive entry (E : Type -> Type) : Type :=
| Exchange {X : Type} (e : E X) (r : result X)
| Tick (now : Z).
Arguments Exchange {E X} e r.
Arguments Tick {E} now.

Record handler (E : Type -> Type) (W : Type) : Type := Handler {
  answer : forall X : Type, E X -> W -> result X * W;
  clock : W -> Z * W }.
Arguments Handler {E W} answer clock.
Arguments answer {E W} h X e w.
Arguments clock {E W} h w.

Fixpoint run {E : Type -> Type} {A W : Type} (h : handler E W) (m : t E A) (w : W)
  : list (entry E) * outcome A * W :=
  match m with
  | Ret a => ([], Returned a, w)
  | Throw msg => ([], Thrown msg, w)
  | Call e k =>
    let '(r, w1) := answer h _ e w in
    let '(tr, o, w2) := run h (k r) w1 in
    (Exchange e r :: tr, o, w2)
  | Now k =>
    let '(now, w1) := clock h w in
    let '(tr, o, w2) := run h (k now) w1 in
    (Tick now :: tr, o, w2)
  end.

End Async.

Declare Scope async_scope.
Delimit Scope async_scope with async.
Notation "'let*' x := m 'in' k" := (Async.bind m (fun x => k))
  (at level 10, x name, m at level 100, k at level 200) : async_scope.

(** ** The ffmpeg command built by DownloadQueue.downloadVideo *)

Module StreamPlan.

Import DownloadQueue.

(** The result of getProgramStreamId (lib/f1tv-api, not part of the
    sources at hand): the ids of the selected video and audio tracks. *)
Record plDetails := mkDetails {
  videoId : Z;
  audioId : Z }.

Inductive stream_type := video | audio.

(** The ffmpeg stream specifiers the code formats, with the input file
    index they start with. *)
Inductive specifier :=
| by_metadata_id (input : nat) (ty : stream_type) (id : Z)
  (* '0:v:m:id:%i', '1:v:m:id:%i', '1:a:m:id:%i' *)
| by_type (input : nat) (ty : stream_type)
  (* '0:a' *)
| by_program (input : nat) (program : Z) (ty : stream_type)
  (* '0:p:%i:v', '1:p:%i:v', `0:p:${programStream}:a` *)
| by_program_index (input : nat) (program : Z) (ty : stream_type) (index : Z).
  (* `1:p:${programStream}:a:%i` *)

Definition input_of (s : specifier) : nat :=
  match s with
  | by_metadata_id i _ _ | by_type i _ | by_program i _ _ | by_program_index i _ _ _ => i
  end.

Definition type_of (s : specifier) : stream_type :=
  match s with
  | by_metadata_id _ ty _ | by_type _ ty | by_program _ _ ty | by_program_index _ _ ty _ => ty
  end.

Definition is_audio (s : specifier) : bool :=
  match type_of s with audio => true | video => false end.

(** One word of the output options: a literal, or a stream specifier. *)
Inductive arg :=
| Lit (s : string)
| Spec (s : specifier).

Definition show_nat (n : nat) : string := NilEmpty.string_of_uint (Nat.to_uint n).
Definition show_int (n : Z) : string := NilEmpty.string_of_int (Z.to_int n).
Definition show_type (ty : stream_type) : string :=
  match ty with video => "v" | audio => "a" end.

Definition render (s : specifier) : string :=
  match s with
  | by_metadata_id i ty id => show_nat i ++ ":" ++ show_type ty ++ ":m:id:" ++ show_int id
  | by_type i ty => show_nat i ++ ":" ++ show_type ty
  | by_program i p ty => show_nat i ++ ":p:" ++ show_int p ++ ":" ++ show_type ty
  | by_program_index i p ty n =>
    show_nat i ++ ":p:" ++ show_int p ++ ":" ++ show_type ty ++ ":" ++ show_int n
  end%string.

Definition render_arg (x : arg) : string :=
  match x with
  | Lit s => s
  | Spec s => render s
  end.

Record input := mkInput {
  input_url : string;
  input_options : list string }.

(** ffmpeg().input(..).inputOptions(..)...outputOptions(options)
    .save(outFileSpec) *)
Record command := mkCommand {
  inputs : list input;
  outputOptions : list arg;
  output : string }.

(** The specifiers that follow a '-map' in the output options, in order. *)
Fixpoint maps (options : list arg) : list specifier :=
  match options with
  | Lit flag :: Spec s :: rest => if String.eqb flag "-map" then s :: maps rest else maps rest
  | _ :: rest => maps rest
  | [] => []
  end.

(** The word that follows the literal [flag] in the output options. *)
Fixpoint option_value (flag : string) (options : list arg) : option string :=
  match options with
  | Lit f :: rest =>
    if String.eqb f flag
    then match rest with
         | x :: _ => Some (render_arg x)
         | [] => None
         end
    else option_value flag rest
  | _ :: rest => option_value flag rest
  | [] => None
  end.

Section Content.

(** Content metadata as returned by getContentInfo, and isRace of
    lib/f1tv-validator; neither is part of the sources at hand. *)
Variable content : Type.
Variable isRace : content -> bool.

Inductive request : Type -> Type :=
| getProgramStreamId (url audioStream videoSize : string) : request plDetails
| getTokenizedUrl (url : string) (c : content) (channel : string) : request string
| ffmpeg_save (cmd : command) : request unit.
  (* resolves on the 'end' event, rejects on 'error' *)

(** f1tvUrl.indexOf('m3u8') == -1 *)
Definition useDash (f1tvUrl : string) : bool :=
  match String.index 0 "m3u8" f1tvUrl with
  | None => true
  | Some _ => false
  end.

Definition inputOptions : list string :=
  ["-probesize"; "24M"; "-analyzeduration"; "6M"; "-rtbufsize"; "2147M"]%string.

(** const options = (task.format == "mp4") ? [...] : [...] *)
Definition options (format : string) (videoSelectString : specifier)
    (audioStreamMapping audioCodecParameters : list arg) : list arg :=
  if String.eqb format "mp4" then
    [Lit "-map"; Spec videoSelectString] ++ audioStreamMapping
      ++ [Lit "-c:v"; Lit "copy"] ++ audioCodecParameters
      ++ [Lit "-bsf:a"; Lit "aac_adtstoasc"; Lit "-movflags"; Lit "faststart"; Lit "-y"]
  else
    [Lit "-map"; Spec videoSelectString] ++ audioStreamMapping
      ++ [Lit "-c:v"; Lit "copy"] ++ audioCodecParameters
      ++ [Lit "-y"].

(** downloadVideo(task, f1tvUrl, content, outFileSpec) *)
Definition downloadVideo (task : Task.t) (f1tvUrl : string) (c : content)
    (outFileSpec : string) : Async.t request unit :=
  (let useDash := useDash f1tvUrl in
   let* plDetails := Async.await (getProgramStreamId f1tvUrl (Task.audioStream task)
                                                      (Task.videoSize task)) in
   let programStream := videoId plDetails in
   let audioStreamId := audioId plDetails in
   let videoSelectString :=
     if useDash then by_metadata_id 0 video programStream
     else by_program 0 programStream video in
   let audioSelectString :=
     if useDash then by_type 0 audio else by_program 0 programStream audio in
   let single :=
     let audioStreamMapping := [Lit "-map"; Spec audioSelectString] in
     let audioCodecParameters := [Lit "-c:a"; Lit "copy"] in
     Async.await
       (ffmpeg_save
          (mkCommand [mkInput f1tvUrl inputOptions]
                     (options (Task.format task) videoSelectString
                              audioStreamMapping audioCodecParameters)
                     outFileSpec)) in
   match Task.internationalAudio task with
   | Some internationalAudio =>
     if isRace c then
       let* intlUrl := Async.await (getTokenizedUrl (Task.url task) c "INTERNATIONAL") in
       let* intlDetails := Async.await (getProgramStreamId intlUrl internationalAudio
                                                            "480x270") in
       let intlInputOptions := inputOptions ++ ["-itsoffset"%string; Task.itsoffset task] in
       let intlVideoSelectString :=
         if useDash then by_metadata_id 1 video (videoId intlDetails)
         else by_program 1 (videoId intlDetails) video in
       let intlAudioSelectString :=
         if useDash then by_metadata_id 1 audio (audioId intlDetails)
         else by_program_index 1 programStream audio (audioId intlDetails) in
       let audioStreamMapping :=
         [Lit "-map"; Spec intlVideoSelectString;
          Lit "-map"; Spec audioSelectString;
          Lit "-map"; Spec intlAudioSelectString] in
       let intlLangId :=
         if String.eqb internationalAudio "eng" then "Sky"%string else internationalAudio in
       let audioCodecParameters :=
         [Lit "-c:a"; Lit "copy";
          Lit "-metadata:s:a:0"; Lit "language=eng";
          Lit "-disposition:a:0"; Lit "default";
          Lit "-metadata:s:a:1"; Lit ("language=" ++ intlLangId);
          Lit "-disposition:a:1"; Lit "0"] in
       Async.await
         (ffmpeg_save
            (mkCommand [mkInput f1tvUrl inputOptions; mkInput intlUrl intlInputOptions]
                       (options (Task.format task) videoSelectString
                                audioStreamMapping audioCodecParameters)
                       outFileSpec))
     else single
   | None => single
   end)%async.

(** The commands handed to ffmpeg in a run. *)
Definition command_of (x : Async.entry request) : option command :=
  match x with
  | Async.Exchange (ffmpeg_save cmd) _ => Some cmd
  | _ => None
  end.

Definition commands (tr : list (Async.entry request)) : list command :=
  omap command_of tr.

End Content.

End StreamPlan.

(** ** lib/token-manager.js *)

Module TokenManager.

(** The record kept in the token cache file. *)
Record tokenData := mkTokenData {
  token : string;
  source : string;
  timestamp : Z;
  expires : option Z }.

(** The fields of a TokenManager.  Logging is left out: [this.log] only
    prints. *)
Record t := mk {
  debug : bool;
  maxRetries : Z;
  retryDelay : Q;
  tokenCacheFile : string }.

Definition cookieFile : string := ".f1tv-cookies.json".

(** constructor(debug = false) *)
Definition new (debug : bool) : t :=
  {| debug := debug;
     maxRetries := 3;
     retryDelay := 2000;
     tokenCacheFile := ".token-cache.json" |}.

(** What the manager asks of the outside: the file system, the F1TV
    API, the browser cookie stores (lib/browser-cookies.js), the scripted
    login (lib/f1tv-token.js) and timers. *)
Inductive request : Type -> Type :=
| existsSync (file : string) : request bool
| readCache (file : string) : request tokenData
  (* JSON.parse(fs.readFileSync(file, 'utf8')) *)
| readCookies (file : string) : request (option string)
  (* JSON.parse(fs.readFileSync(file, 'utf8')).entitlement_token *)
| writeFileSync (file : string) (d : tokenData) : request unit
  (* fs.writeFileSync(file, JSON.stringify(d, null, 2)) *)
| axios_get (bearer : string) : request Z
  (* GET https://f1tv-api.formula1.com/api/content-items, 10 s timeout;
     the answer is response.status *)
| autoExtractF1TVCookies (debug : bool) : request (option string)
| getF1tvToken (user pass : string) (debug : bool) : request (option string)
| setTimeout (ms : Q) : request unit.

Definition prog := Async.t request.

Section Jwt.

(** The exp field of the decoded payload of a token, when the token
    decodes (split on '.', base64, JSON.parse) and has one. *)
Variable jwt_exp : string -> option Z.

(** extractTokenExpiry(token): decoded.exp || null, and null when
    decoding throws. *)
Definition extractTokenExpiry (token : string) : option Z :=
  match jwt_exp token with
  | Some exp => if exp =? 0 then None else Some exp
  | None => None
  end.

(** saveTokenToCache(token, source) *)
Definition saveTokenToCache (this : t) (token source : string) : prog unit :=
  Async.Now (fun now =>
    let tokenData :=
      {| token := token;
         source := source;
         timestamp := now;
         expires := extractTokenExpiry token |} in
    Async.Call (writeFileSync (tokenCacheFile this) tokenData) (fun _ => Async.Ret tt)).

(** loadTokenFromCache() *)
Definition loadTokenFromCache (this : t) : prog (option string) :=
  Async.Call (existsSync (tokenCacheFile this)) (fun present =>
    match present with
    | Async.Rejected _ => Async.Ret None
    | Async.Fulfilled false => Async.Ret None
    | Async.Fulfilled true =>
      Async.Call (readCache (tokenCacheFile this)) (fun tokenData =>
        match tokenData with
        | Async.Rejected _ => Async.Ret None
        | Async.Fulfilled tokenData =>
          Async.Now (fun now =>
            if Js.truthy_num (expires tokenData)
               && (match expires tokenData with
                   | Some e => e * 1000 <? now + 300000
                   | None => false
                   end)
            then Async.Ret None
            else if now - timestamp tokenData >? 24 * 60 * 60 * 1000
            then Async.Ret None
            else Async.Ret (Some (token tokenData)))
        end)
    end).

(** validateToken(token) *)
Definition validateToken (token : string) : prog bool :=
  Async.Call (axios_get token) (fun response =>
    match response with
    | Async.Fulfilled status => Async.Ret (status =? 200)
    | Async.Rejected _ => Async.Ret false
    end).

(** loadManualCookie() *)
Definition loadManualCookie : prog (option string) :=
  Async.Call (existsSync cookieFile) (fun present =>
    match present with
    | Async.Fulfilled true =>
      Async.Call (readCookies cookieFile) (fun cookies =>
        match cookies with
        | Async.Fulfilled entitlement_token =>
          Async.Ret (if Js.truthy_str entitlement_token then entitlement_token else None)
        | Async.Rejected _ => Async.Ret None
        end)
    | _ => Async.Ret None
    end).

(** A candidate token on its way through the liveness check: the token
    when it is truthy and validateToken answers true. *)
Definition validated (candidate : option string) : prog (option string) :=
  match candidate with
  | Some token =>
    if Js.truthy_str candidate then
      (let* isValid := validateToken token in
       Async.Ret (if isValid : bool then Some token else None))%async
    else Async.Ret None
  | None => Async.Ret None
  end.

(** getValidToken, "Strategy 1: Check cached token". *)
Definition strategy_cache (this : t) : prog (option string) :=
  (let* cachedToken := loadTokenFromCache this in
   validated cachedToken)%async.

(** getValidToken, "Strategy 2: Auto-extract from browsers". *)
Definition strategy_browser (this : t) : prog (option string) :=
  Async.try_catch
    (let* autoToken := Async.await (autoExtractF1TVCookies (debug this)) in
     let* accepted := validated autoToken in
     match accepted with
     | Some autoToken =>
       let* _ := saveTokenToCache this autoToken "browser-auto-extract" in
       Async.Ret (Some autoToken)
     | None => Async.Ret None
     end)%async
    (fun _ => Async.Ret None).

(** getValidToken, "Strategy 3: Manual cookie file". *)
Definition strategy_manual (this : t) : prog (option string) :=
  (let* manualToken := loadManualCookie in
   let* accepted := validated manualToken in
   match accepted with
   | Some manualToken =>
     let* _ := saveTokenToCache this manualToken "manual-cookie-file" in
     Async.Ret (Some manualToken)
   | None => Async.Ret None
   end)%async.

(** getValidToken, the for loop of "Strategy 4: Automated login with
    retry", with [n] iterations left and the loop variable at [attempt].
    The result carries the manager, whose retryDelay the loop changes. *)
Fixpoint login_loop (n : nat) (attempt : Z) (this : t) (user pass : string)
  : prog (t * option string) :=
  match n with
  | O => Async.Ret (this, None)
  | S n =>
    Async.Call (getF1tvToken user pass (debug this)) (fun loginToken =>
      match loginToken with
      | Async.Fulfilled loginToken =>
        (let* accepted := validated loginToken in
         match accepted with
         | Some loginToken =>
           let* _ := saveTokenToCache this loginToken "automated-login" in
           Async.Ret (this, Some loginToken)
         | None => login_loop n (attempt + 1) this user pass
         end)%async
      | Async.Rejected _ =>
        if attempt <? maxRetries this then
          Async.Call (setTimeout (retryDelay this)) (fun _ =>
            let this :=
              mk (debug this) (maxRetries this) (retryDelay this * 1.5)%Q
                 (tokenCacheFile this) in
            login_loop n (attempt + 1) this user pass)
        else login_loop n (attempt + 1) this user pass
      end)
  end.

Definition strategy_login (this : t) (user pass : option string)
  : prog (t * option string) :=
  match user, pass with
  | Some u, Some p =>
    if Js.truthy_str user && Js.truthy_str pass
    then login_loop (Z.to_nat (maxRetries this)) 1 this u p
    else Async.Ret (this, None)
  | _, _ => Async.Ret (this, None)
  end.

Definition all_failed : string :=
  "All authentication strategies failed. Please check your credentials or try manual cookie extraction.".

(** getValidToken(user = null, pass = null): the manager afterwards, and
    the token returned or the error thrown. *)
Definition getValidToken (this : t) (user pass : option string)
  : prog (t * Async.outcome string) :=
  (let* cachedToken := strategy_cache this in
   match cachedToken with
   | Some cachedToken => Async.Ret (this, Async.Returned cachedToken)
   | None =>
     let* autoToken := strategy_browser this in
     match autoToken with
     | Some autoToken => Async.Ret (this, Async.Returned autoToken)
     | None =>
       let* manualToken := strategy_manual this in
       match manualToken with
       | Some manualToken => Async.Ret (this, Async.Returned manualToken)
       | None =>
         let* res := strategy_login this user pass in
         match res with
         | (this, Some loginToken) => Async.Ret (this, Async.Returned loginToken)
         | (this, None) => Async.Ret (this, Async.Thrown all_failed)
         end
       end
     end
   end)%async.

End Jwt.

End TokenManager.

(** ** Invariants of the download queue *)

Module QueueInv.

Import DownloadQueue.

(** The number of times [r] occurs in a collection. *)
Fixpoint count (r : ref) (l : list ref) : nat :=
  match l with
  | [] => O
  | x :: l' => ((if Nat.eqb x r then 1 else 0) + count r l')%nat
  end.

(** [executing r th]: [th] is an execution of processTask for [r] whose
    outcome is not recorded yet. *)
Definition executing (r : ref) (th : thread) : nat :=
  match th with
  | InDownload x | InBackoff x _ _ | InRetrySleep x _ => if Nat.eqb x r then 1%nat else O
  | InScheduler _ | InErrorHandled _ | InCooldown _ _ => O
  end.

(** [finishing r th]: [th] is an execution of processTask for [r] in
    which handleTaskError has returned and the finally block is still to
    run. *)
Definition finishing (r : ref) (th : thread) : nat :=
  match th with
  | InErrorHandled x => if Nat.eqb x r then 1%nat else O
  | _ => O
  end.

Fixpoint total (w : thread -> nat) (ths : list thread) : nat :=
  match ths with
  | [] => O
  | th :: ths' => (w th + total w ths')%nat
  end.

Definition allocated (st : list Task.t) (r : ref) : bool := Nat.ltb r (length st).

Definition same_status (a b : Task.lifecycle) : bool :=
  match a, b with
  | Task.Queued, Task.Queued
  | Task.Downloading, Task.Downloading
  | Task.Completed, Task.Completed
  | Task.Failed, Task.Failed => true
  | _, _ => false
  end.

(** The task object behind [r] in the store [st] has status [a]. *)
Definition has_status (st : list Task.t) (r : ref) (a : Task.lifecycle) : bool :=
  match st !! r with
  | Some k => same_status (Task.status k) a
  | None => false
  end.

(** task.status is 'completed' or 'failed'. *)
Definition terminal (st : list Task.t) (r : ref) : bool :=
  has_status st r Task.Completed || has_status st r Task.Failed.

Definition indicator (b : bool) : nat := if b then 1%nat else O.

(** What holds of every task reference between two uninterrupted pieces
    of code:
    - the task is in the active list once for each of its executions
      that has not run its finally block;
    - a submitted task that is not terminal is either once in the
      pending queue or in one execution whose outcome is open, and a
      terminal task is in neither;
    - the completed and the failed list hold the task at most once, and
      only with the matching status. *)
Record job_inv (s : system) (r : ref) : Prop := mk_job_inv {
  inv_active :
    count r (active (this s))
    = (total (executing r) (threads s) + total (finishing r) (threads s))%nat;
  inv_token :
    (count r (queue (this s)) + total (executing r) (threads s)
     + indicator (terminal (store (this s)) r))%nat
    = indicator (allocated (store (this s)) r);
  inv_completed :
    (count r (completed (this s))
     <= indicator (has_status (store (this s)) r Task.Completed))%nat;
  inv_failed :
    (count r (failed (this s))
     <= indicator (has_status (store (this s)) r Task.Failed))%nat }.

(** The configuration fields, which no method assigns after the
    constructor. *)
Definition same_config (q q0 : t) : Prop :=
  maxConcurrent q = maxConcurrent q0
  /\ delayBetweenDownloads q = delayBetweenDownloads q0
  /\ retryAttempts q = retryAttempts q0
  /\ retryDelay q = retryDelay q0
  /\ rateLimitBackoff q = rateLimitBackoff q0.

(** The bound on the active list, for a queue built as [q0]. *)
Definition bounded (q0 q : t) : Prop :=
  same_config q q0
  /\ Z.of_nat (length (active q)) <= Z.max 0 (maxConcurrent q).


(** The requested value is absent, zero or positive. *)
Definition not_negative (x : option Z) : Prop :=
  match x with
  | Some v => 0 <= v
  | None => True
  end.

(** The claim that the active list is within maxConcurrent, which is
    itself at most 3. *)
Definition within_limit (q : t) : Prop :=
  Z.of_nat (length (active q)) <= maxConcurrent q /\ maxConcurrent q <= 3.

(** The claim that a submitted job is in exactly one of the four
    collections. *)
Definition in_exactly_one (q : t) (r : ref) : Prop :=
  (count r (queue q) + count r (active q) + count r (completed q) + count r (failed q))%nat
  = 1%nat.

End QueueInv.

(** ** What is claimed of the ffmpeg command *)

Module PlanSpec.

Import DownloadQueue StreamPlan.

(** The task with its internationalAudio option left undefined. *)
Definition without_international (k : Task.t) : Task.t :=
  Task.mk (Task.url k) (Task.channel k) (Task.outputDirectory k) (Task.audioStream k)
          (Task.videoSize k) (Task.format k) None (Task.itsoffset k) (Task.attempts k)
          (Task.status k) (Task.error k).

(** The input file and the stream type of each '-map', in order. *)
Definition map_kinds (cmd : command) : list (nat * stream_type) :=
  map (fun s => (input_of s, type_of s)) (maps (outputOptions cmd)).

(** The '-map's of audio streams, in order. *)
Definition audio_maps (cmd : command) : list specifier :=
  filter (fun s => is_audio s = true) (maps (outputOptions cmd)).

(** The command maps an audio stream of the second input. *)
Definition has_secondary_audio (cmd : command) : Prop :=
  In (1%nat, audio) (map_kinds cmd).

(** The order of the maps as claimed: primary video, primary audio,
    secondary video where there is one, secondary audio. *)
Definition claimed_map_order (cmd : command) : Prop :=
  map_kinds cmd = [(0%nat, video); (0%nat, audio); (1%nat, video); (1%nat, audio)]
  \/ map_kinds cmd = [(0%nat, video); (0%nat, audio); (1%nat, audio)].

(** Two audio maps, the primary before the secondary, the first audio
    stream of the output default and the second not. *)
Definition two_audio_maps (cmd : command) : Prop :=
  map input_of (audio_maps cmd) = [0%nat; 1%nat]
  /\ option_value "-disposition:a:0" (outputOptions cmd) = Some "default"%string
  /\ option_value "-disposition:a:1" (outputOptions cmd) = Some "0"%string.

Section Content.

Variable content : Type.
Variable isRace : content -> bool.
Variable W : Type.
Variable h : Async.handler (request content) W.

(** The claim that a request for international audio on content that is
    not a race makes downloadVideo fail without a command for ffmpeg. *)
Definition secondary_audio_rejected (w : W) (task : Task.t) (f1tvUrl : string)
    (c : content) (outFileSpec : string) : Prop :=
  Task.internationalAudio task <> None -> isRace c = false ->
  (exists msg,
      snd (fst (Async.run h (downloadVideo content isRace task f1tvUrl c outFileSpec) w))
      = Async.Thrown msg)
  /\ commands content
       (fst (fst (Async.run h (downloadVideo content isRace task f1tvUrl c outFileSpec) w)))
     = [].

End Content.

End PlanSpec.

(** ** What is observed of a run of the token manager *)

Module TokenSpec.

Import TokenManager.

Inductive strategy := Cache | Browser | Manual | Login.



Inductive observation :=
| Tried (s : strategy)
  (* a request by which strategy [s] looks for a token *)
| Checked (token : string) (live : bool)
  (* validateToken(token) and its answer *)
| Saved (file : string) (d : tokenData) (written : bool)
  (* fs.writeFileSync(file, ...) of the cache record [d], and whether it
     returned or threw *)
| Clock (now : Z)
  (* Date.now() *)
| Slept (ms : Q).

Definition observe (x : Async.entry request) : observation :=
  match x with
  | Async.Tick now => Clock now
  | Async.Exchange e r =>
    match e in request X return Async.result X -> observation with
    | existsSync file =>
      fun _ => Tried (if String.eqb file cookieFile then Manual else Cache)
    | readCache _ => fun _ => Tried Cache
    | readCookies _ => fun _ => Tried Manual
    | writeFileSync file d =>
      fun r => Saved file d (match r with
                             | Async.Fulfilled _ => true
                             | Async.Rejected _ => false
                             end)
    | axios_get token =>
      fun r => Checked token (match r with
                              | Async.Fulfilled status => status =? 200
                              | Async.Rejected _ => false
                              end)
    | autoExtractF1TVCookies _ => fun _ => Tried Browser
    | getF1tvToken _ _ _ => fun _ => Tried Login
    | setTimeout ms => fun _ => Slept ms
    end r
  end.

(** The strategies that made a request, in the order of the requests. *)
Fixpoint tried (obs : list observation) : list strategy :=
  match obs with
  | [] => []
  | Tried s :: rest => s :: tried rest
  | _ :: rest => tried rest
  end.

(** No token has passed the liveness check. *)
Definition none_live (obs : list observation) : Prop :=
  forall token, ~ In (Checked token true) obs.





(** The truthy token that a request yields to the strategy that made
    it: the answer of autoExtractF1TVCookies, the entitlement_token of
    the cookie file, the answer of getF1tvToken.  The token of the cache
    strategy is what loadTokenFromCache returns. *)
Definition candidate (x : Async.entry request) : option (strategy * string) :=
  match x with
  | Async.Tick _ => None
  | Async.Exchange e r =>
    match e in request X return Async.result X -> option (strategy * string) with
    | autoExtractF1TVCookies _ =>
      fun r => match r with
               | Async.Fulfilled (Some token) =>
                 if Js.truthy_str (Some token) then Some (Browser, token) else None
               | _ => None
               end
    | readCookies _ =>
      fun r => match r with
               | Async.Fulfilled (Some token) =>
                 if Js.truthy_str (Some token) then Some (Manual, token) else None
               | _ => None
               end
    | getF1tvToken _ _ _ =>
      fun r => match r with
               | Async.Fulfilled (Some token) =>
                 if Js.truthy_str (Some token) then Some (Login, token) else None
               | _ => None
               end
    | _ => fun _ => None
    end r
  end.







(** The cache record is too old or about to expire, as claimed: the
    expiry is less than five minutes after the clock, or the record was
    written more than 24 hours before it. *)
Definition stale (d : tokenData) (now : Z) : Prop :=
  (exists e, expires d = Some e /\ e * 1000 < now + 300000)
  \/ now - timestamp d > 24 * 60 * 60 * 1000.

(** A cache record as saveTokenToCache writes it, the only code that
    writes the cache file: its expires field is what extractTokenExpiry
    gives for its token ([expiry] stands for extractTokenExpiry). *)
Definition written_by_save (expiry : string -> option Z) (d : tokenData) : Prop :=
  exists token source now, d = mkTokenData token source now (expiry token).

End TokenSpec.

(** ** Sample inputs *)

Module Scenarios.

Import DownloadQueue.

(** A validator that accepts every URL. *)
Definition any_url (_ : string) : bool := true.

Definition job (u : string) : Config.t :=
  Config.mk u None None None None None None None.

Definition race : Config.t := job "https://f1tv.formula1.com/detail/1000005104/race".
Definition sprint : Config.t := job "https://f1tv.formula1.com/detail/1000005103/sprint".
Definition quali : Config.t := job "https://f1tv.formula1.com/detail/1000005102/quali".

(** new DownloadQueue() *)
Definition Options_default : Options.t := Options.empty.

(** new DownloadQueue({ maxConcurrent: -1 }) *)
Definition negative_limit : Options.t := Options.mk (Some (-1)) None None None None.

(** new DownloadQueue({ maxConcurrent: 5 }) *)
Definition five_requested : Options.t := Options.mk (Some 5) None None None None.

(** new DownloadQueue({ retryAttempts: 1 }) *)
Definition one_attempt : Options.t := Options.mk None None (Some 1) None None.

Definition ffmpeg_failed : error := mkError "ffmpeg exited with code 1" None.

(** Three downloads are added and the scheduler wakes up once. *)
Definition three_added : list label :=
  [CallAddDownload race; CallAddDownload sprint; CallAddDownload quali; Continue 1 Fired].

(** One download is added, starts, and its download chain rejects. *)
Definition one_failed : list label :=
  [CallAddDownload race; Continue 0 (Rejected ffmpeg_failed)].

Definition state_after (o : Options.t) (ls : list label) : system :=
  match run any_url (mkSystem (new o) []) ls with
  | Some s => s
  | None => mkSystem (new o) []
  end.

(** Content is a race or not; every request is fulfilled: the primary
    stream has video track 5 and audio track 2, the international stream
    video track 1 and audio track 7. *)
Definition fulfil_answer (X : Type) (e : StreamPlan.request bool X) (w : unit)
  : Async.result X * unit :=
  match e in StreamPlan.request _ X return Async.result X * unit with
  | StreamPlan.getProgramStreamId _ _ _ size =>
    (Async.Fulfilled (if String.eqb size "480x270"
                      then StreamPlan.mkDetails 1 7
                      else StreamPlan.mkDetails 5 2), w)
  | StreamPlan.getTokenizedUrl _ _ _ _ =>
    (Async.Fulfilled "https://f1tv.example/intl/index.mpd"%string, w)
  | StreamPlan.ffmpeg_save _ _ => (Async.Fulfilled tt, w)
  end.

Definition fulfil : Async.handler (StreamPlan.request bool) unit :=
  Async.Handler fulfil_answer (fun w => (0, w)).

Definition dash_url : string := "https://f1tv.example/main/index.mpd?token=abc".
Definition hls_url : string := "https://f1tv.example/main/index.m3u8?token=abc".

(** A task that asks for the English international commentary. *)
Definition with_sky : Task.t :=
  Task.mk "https://f1tv.formula1.com/detail/1000005104/race" None None
          "eng" "best" "mp4" (Some "eng"%string) "-00:00:04.750" 1 Task.Downloading None.

Definition is_race (c : bool) : bool := c.

(** The commands handed to ffmpeg when [with_sky] is downloaded from
    [url], for content that is a race or not. *)
Definition sky_commands (url : string) (race : bool) : list StreamPlan.command :=
  StreamPlan.commands bool
    (fst (fst (Async.run fulfil
                 (StreamPlan.downloadVideo bool is_race with_sky url race "out.mp4") tt))).

Definition sky_command (url : string) (race : bool) : StreamPlan.command :=
  hd (StreamPlan.mkCommand [] [] "") (sky_commands url race).

(** An outside for the token manager: the cache file holds [cache] if
    any, there is no manual cookie file, the clock shows [now], the
    browsers hold [browser] if any, the login is refused, and the API
    answers 200 to the tokens that are [live]. *)
Definition outside_answer (cache : option TokenManager.tokenData)
    (browser : option string) (live : string -> bool)
    (X : Type) (e : TokenManager.request X) (w : unit) : Async.result X * unit :=
  match e in TokenManager.request X return Async.result X * unit with
  | TokenManager.existsSync file =>
    (Async.Fulfilled (if String.eqb file TokenManager.cookieFile then false
                      else match cache with Some _ => true | None => false end), w)
  | TokenManager.readCache _ =>
    (match cache with
     | Some d => Async.Fulfilled d
     | None => Async.Rejected "ENOENT"
     end, w)
  | TokenManager.readCookies _ => (Async.Rejected "ENOENT", w)
  | TokenManager.writeFileSync _ _ => (Async.Fulfilled tt, w)
  | TokenManager.axios_get token =>
    (if live token then Async.Fulfilled 200
     else Async.Rejected "Request failed with status code 401", w)
  | TokenManager.autoExtractF1TVCookies _ => (Async.Fulfilled browser, w)
  | TokenManager.getF1tvToken _ _ _ => (Async.Rejected "Login failed", w)
  | TokenManager.setTimeout _ => (Async.Fulfilled tt, w)
  end.

Definition outside (cache : option TokenManager.tokenData) (now : Z)
    (browser : option string) (live : string -> bool)
  : Async.handler TokenManager.request unit :=
  Async.Handler (outside_answer cache browser live) (fun w => (now, w)).



(** A clock reading, in milliseconds: 14 November 2023. *)
Definition noon : Z := 1700000000000.

(** A cache record written a second before [noon] whose expires field
    is 0. *)
Definition expires_zero : TokenManager.tokenData :=
  TokenManager.mkTokenData "eyJhbGciOi.e30.c2ln" "manual-cookie-file" (noon - 1000) (Some 0).

(** Two tokens whose payloads are {exp: 1700000240}, four minutes after
    [noon], and {exp: 1700003600}, an hour after it. *)
Definition soon_token : string := "eyJhbGciOiJIUzI1NiJ9.eyJleHAiOjE3MDAwMDAyNDB9.c2ln".
Definition hour_token : string := "eyJhbGciOiJIUzI1NiJ9.eyJleHAiOjE3MDAwMDM2MDB9.c2ln".

(** The exp field of the payload of the sample tokens; the payload of
    eyJhbGciOi.e30.c2ln is {}, which has none. *)
Definition sample_exp (token : string) : option Z :=
  if String.eqb token soon_token then Some 1700000240
  else if String.eqb token hour_token then Some 1700003600
  else None.

(** The cache record of [soon_token], written a second before [noon]:
    it expires four minutes after [noon]. *)
Definition expires_soon : TokenManager.tokenData :=
  TokenManager.mkTokenData soon_token "manual-cookie-file" (noon - 1000)
                           (TokenManager.extractTokenExpiry sample_exp soon_token).

(** The cache record of a token without expiry, written 25 hours before
    [noon]. *)
Definition written_yesterday : TokenManager.tokenData :=
  TokenManager.mkTokenData "eyJhbGciOi.e30.c2ln" "browser-auto-extract"
                           (noon - 25 * 60 * 60 * 1000)
                           (TokenManager.extractTokenExpiry sample_exp "eyJhbGciOi.e30.c2ln").

Definition every_token_live (_ : string) : bool := true.


End Scenarios.

(** ** The requests a computation can make *)

Module Footprint.

Section Within.

Context {E : Type -> Type}.
Variable P : forall X : Type, E X -> Prop.

(** Every request that the computation can come to make, whatever the
    answers, satisfies [P]. *)
Inductive within {A : Type} : Async.t E A -> Prop :=
| within_ret a : within (Async.Ret a)
| within_throw msg : within (Async.Throw msg)
| within_call X (e : E X) k :
    P X e -> (forall r, within (k r)) -> within (Async.Call e k)
| within_now k : (forall now, within (k now)) -> within (Async.Now k).

(** The computation ends by returning, whatever the answers. *)
Inductive unfailing {A : Type} : Async.t E A -> Prop :=
| unfailing_ret a : unfailing (Async.Ret a)
| unfailing_call X (e : E X) k : (forall r, unfailing (k r)) -> unfailing (Async.Call e k)
| unfailing_now k : (forall now, unfailing (k now)) -> unfailing (Async.Now k).

(** Every request recorded in a trace satisfies [P]. *)
Definition confined (tr : list (Async.entry E)) : Prop :=
  Forall (fun x => match x with
                   | Async.Exchange e _ => P _ e
                   | Async.Tick _ => True
                   end) tr.

End Within.

(** The computation hands on the error of a request that is rejected:
    it has no try block around its requests, and what it throws of its
    own accord satisfies [own]. *)
Inductive fails_fast {E : Type -> Type} (own : string -> Prop) {A : Type}
  : Async.t E A -> Prop :=
| fails_fast_ret a : fails_fast own (Async.Ret a)
| fails_fast_throw msg : own msg -> fails_fast own (Async.Throw msg)
| fails_fast_call X (e : E X) k :
    (forall x, fails_fast own (k (Async.Fulfilled x))) ->
    (forall msg, k (Async.Rejected msg) = Async.Throw msg) ->
    fails_fast own (Async.Call e k)
| fails_fast_now k : (forall now, fails_fast own (k now)) -> fails_fast own (Async.Now k).

(** The error with which an exchange ended, if it ended with one. *)
Definition rejection {E : Type -> Type} (x : Async.entry E) : option string :=
  match x with
  | Async.Exchange _ (Async.Rejected msg) => Some msg
  | _ => None
  end.

(** No exchange of the trace ended with an error. *)
Definition all_fulfilled {E : Type -> Type} (tr : list (Async.entry E)) : Prop :=
  Forall (fun x => rejection x = None) tr.

(** How a run ended, against its trace: a run that returned had every
    request fulfilled; a run that threw [msg] either had its last
    request rejected with [msg], and every request before it fulfilled,
    or had every request fulfilled and threw [msg] of its own accord. *)
Definition stopped_at_failure {E : Type -> Type} {A : Type} (own : string -> Prop)
    (tr : list (Async.entry E)) (o : Async.outcome A) : Prop :=
  match o with
  | Async.Returned _ => all_fulfilled tr
  | Async.Thrown msg =>
    (all_fulfilled (removelast tr) /\ exists x, last tr = Some x /\ rejection x = Some msg)
    \/ (all_fulfilled tr /\ own msg)
  end.

End Footprint.

(** ** The moves of the download queue

    Every transition of the system is a sequence of smaller moves, each
    of which is one group of assignments of the source. *)

Module QueueMoves.

Import DownloadQueue.

(** An event of the queue as a whole, as opposed to an event of a task. *)
Definition queue_event (e : event) : bool :=
  match e with
  | queueStarted | queueStopped | queuePaused | queueResumed | queueCompleted _ _ _ => true
  | taskAdded _ | taskStarted _ | taskCompleted _ | taskFailed _ => false
  end.

(** [control q q']: [q'] is [q] with isRunning and isPaused assigned and
    with events of the queue emitted, as start, stop, pause, resume and
    finishQueue do. *)
Definition control (q q' : t) : Prop :=
  exists running paused evs,
    forallb queue_event evs = true
    /\ q' = mk (maxConcurrent q) (delayBetweenDownloads q) (retryAttempts q) (retryDelay q)
               (rateLimitBackoff q) (queue q) (active q) (completed q) (failed q)
               running paused (stats q) (store q) (emitted q ++ evs).

(** handleTaskError, "All retries exhausted". *)
Definition exhausted (r : ref) (q : t) : t :=
  let q := update_task r (Task.with_status Task.Failed) q in
  let q := with_failed (failed q ++ [r]) q in
  let q := with_stats
             (Stats.mk (Stats.totalQueued (stats q)) (Stats.completed (stats q))
                       (Stats.failed (stats q) + 1) (Stats.bytesDownloaded (stats q))
                       (Stats.averageSpeed (stats q))) q in
  emit (taskFailed r) q.

(** An execution of processTask for [r] that awaits the download or
    sleeps in the rate-limit backoff. *)
Definition awaiting (r : ref) (th : thread) : Prop :=
  match th with
  | InDownload x | InBackoff x _ _ => x = r
  | InScheduler _ | InRetrySleep _ _ | InErrorHandled _ | InCooldown _ _ => False
  end.

Inductive move : system -> system -> Prop :=
| move_enqueue q ths task :
    Task.status task = Task.Queued -> Task.attempts task = 0 ->
    move (mkSystem q ths) (mkSystem (enqueue task q) ths)
| move_control q q' ths :
    control q q' -> move (mkSystem q ths) (mkSystem q' ths)
| move_clearHistory q ths :
    move (mkSystem q ths) (mkSystem (clearHistory q) ths)
| move_spawn q ths ms :
    move (mkSystem q ths) (mkSystem q (ths ++ [InScheduler ms]))
| move_launch q ths task rest :
    queue q = task :: rest -> Z.of_nat (length (active q)) < maxConcurrent q ->
    move (mkSystem q ths) (mkSystem (launch task rest q) (ths ++ [InDownload task]))
| move_wake q ths i ms :
    ths !! i = Some (InScheduler ms) ->
    move (mkSystem q ths) (mkSystem q (delete i ths))
| move_cooled q ths i r ms :
    ths !! i = Some (InCooldown r ms) ->
    move (mkSystem q ths) (mkSystem q (delete i ths))
| move_success q ths i r :
    ths !! i = Some (InDownload r) ->
    move (mkSystem q ths)
         (mkSystem (processTask_success r q) (delete i ths ++ [InErrorHandled r]))
| move_finally q ths i r :
    ths !! i = Some (InErrorHandled r) ->
    move (mkSystem q ths)
         (mkSystem (fst (processTask_finally r q))
                   (delete i ths ++ snd (processTask_finally r q)))
| move_error q ths i r msg :
    ths !! i = Some (InDownload r) ->
    move (mkSystem q ths) (mkSystem (update_task r (Task.with_error msg) q) ths)
| move_backoff q ths i r e ms :
    ths !! i = Some (InDownload r) ->
    move (mkSystem q ths) (mkSystem q (delete i ths ++ [InBackoff r e ms]))
| move_retry_sleep q ths i th r ms :
    ths !! i = Some th -> awaiting r th ->
    attempts_of q r < retryAttempts q ->
    move (mkSystem q ths) (mkSystem q (delete i ths ++ [InRetrySleep r ms]))
| move_fail q ths i th r :
    ths !! i = Some th -> awaiting r th ->
    retryAttempts q <= attempts_of q r ->
    move (mkSystem q ths) (mkSystem (exhausted r q) (delete i ths ++ [InErrorHandled r]))
| move_requeue_backoff q ths i r e ms :
    ths !! i = Some (InBackoff r e ms) ->
    attempts_of q r < retryAttempts q ->
    move (mkSystem q ths)
         (mkSystem (with_queue (r :: queue q) q) (delete i ths ++ [InErrorHandled r]))
| move_requeue_sleep q ths i r ms :
    ths !! i = Some (InRetrySleep r ms) ->
    move (mkSystem q ths)
         (mkSystem (with_queue (r :: queue q) q) (delete i ths ++ [InErrorHandled r])).

Inductive moves : system -> system -> Prop :=
| moves_refl s : moves s s
| moves_step s1 s2 s3 : moves s1 s2 -> move s2 s3 -> moves s1 s3.

End QueueMoves.

(** ** What the counters of the queue count *)

Module QueueAccounts.

Import DownloadQueue QueueInv.

(** The number of taskStarted events for [r] in a log of events. *)
Fixpoint started (r : ref) (evs : list event) : nat :=
  match evs with
  | [] => O
  | taskStarted x :: rest => ((if Nat.eqb x r then 1 else 0) + started r rest)%nat
  | _ :: rest => started r rest
  end.

(** The number of taskCompleted and taskFailed events for [r]. *)
Fixpoint finished (r : ref) (evs : list event) : nat :=
  match evs with
  | [] => O
  | taskCompleted x :: rest | taskFailed x :: rest =>
    ((if Nat.eqb x r then 1 else 0) + finished r rest)%nat
  | _ :: rest => finished r rest
  end.

(** The number of task objects with status [a]. *)
Fixpoint tasks_with (a : Task.lifecycle) (st : list Task.t) : nat :=
  match st with
  | [] => O
  | k :: rest => (indicator (same_status (Task.status k) a) + tasks_with a rest)%nat
  end.

(** The attempts counter of a task counts its taskStarted events; a
    task that waits in the pending queue, or whose execution sleeps
    before it puts the task back there, has attempts left. *)
Record attempts_inv (s : system) (r : ref) : Prop := mk_attempts_inv {
  att_started :
    Z.of_nat (started r (emitted (this s))) = attempts_of (this s) r;
  att_pending :
    (0 < count r (queue (this s)))%nat ->
    attempts_of (this s) r < Z.max 1 (retryAttempts (this s));
  att_bound :
    attempts_of (this s) r <= Z.max 1 (retryAttempts (this s));
  att_sleeping :
    forall ms, In (InRetrySleep r ms) (threads s) ->
               attempts_of (this s) r < retryAttempts (this s) }.

(** The counters of this.stats against the store of task objects. *)
Record stats_inv (q : t) : Prop := mk_stats_inv {
  st_total : Stats.totalQueued (stats q) = Z.of_nat (length (store q));
  st_completed : Stats.completed (stats q) = Z.of_nat (tasks_with Task.Completed (store q));
  st_failed : Stats.failed (stats q) = Z.of_nat (tasks_with Task.Failed (store q));
  st_bytes : Stats.bytesDownloaded (stats q) = 0;
  st_speed : Stats.averageSpeed (stats q) = 0 }.

End QueueAccounts.

(** ** Holding the queue *)

Module QueueHold.

Import DownloadQueue.

(** A client call that leaves a pause in force: any but resume() and
    stop(). *)
Definition keeps_pause (l : label) : bool :=
  match l with
  | CallResume | CallStop => false
  | _ => true
  end.

(** A client call that leaves a stopped queue stopped: any but start()
    and addDownload(), which starts the queue. *)
Definition keeps_stop (l : label) : bool :=
  match l with
  | CallStart | CallAddDownload _ => false
  | _ => true
  end.

(** The tasks whose executions of processTask are among [ths], waiting
    for the download. *)
Fixpoint launched (ths : list thread) : list ref :=
  match ths with
  | [] => []
  | InDownload r :: rest => r :: launched rest
  | _ :: rest => launched rest
  end.

End QueueHold.

Module QueueRuns.

Import DownloadQueue Scenarios.

(** One download is added and starts; its first attempt fails and is
    retried after the sleep; the second attempt succeeds; the scheduler
    then finds nothing left to do. *)
Definition retried : list label :=
  [CallAddDownload race;
   Continue 0 (Rejected ffmpeg_failed);
   Continue 1 Fired;
   Continue 1 Fired;
   Continue 0 Fired;
   Continue 1 Resolved;
   Continue 1 Fired].

(** Two downloads are added, the queue is paused, and the first
    download completes while the scheduler wakes up twice. *)
Definition paused_then : list label :=
  [CallAddDownload race; CallAddDownload sprint; CallPause].

Definition while_paused : list label :=
  [Continue 1 Fired; Continue 0 Resolved; CallAddDownload quali; Continue 0 Fired].

(** new DownloadQueue({ maxConcurrent: 0, delay: 0, retryAttempts: 0,
    retryDelay: 0, rateLimitBackoff: 0 }) *)
(** An integer that a JavaScript number holds exactly, so that a
    product of integers with this result is computed without rounding:
    at most Number.MAX_SAFE_INTEGER in absolute value. *)
Definition safe_integer (n : Z) : Prop := Z.abs n <= 2 ^ 53 - 1.

Definition all_zero : Options.t := Options.mk (Some 0) (Some 0) (Some 0) (Some 0) (Some 0).

Definition stopped_then : list label :=
  [CallAddDownload race; CallAddDownload sprint; CallStop].

Definition while_stopped : list label :=
  [Continue 1 Fired; Continue 0 Resolved; CallResume; CallPause].

End QueueRuns.

(** ** What is observed of the token cache and of the login retries *)

Module TokenRuns.

Import TokenManager.

(** The files that the calls of fs written in token-manager.js name,
    against the token cache file [cacheFile] of the manager: existence
    is tested of the cache file and of the cookie file, the cache record
    is read from and written to the cache file, cookies are read from
    the cookie file.  The other requests are no calls of fs by the
    manager and are not constrained: what autoExtractF1TVCookies
    (lib/browser-cookies.js) and getF1tvToken (lib/f1tv-token.js) do to
    files of their own is not told here. *)
Definition touches (cacheFile : string) (X : Type) (e : request X) : Prop :=
  match e with
  | existsSync f => f = cacheFile \/ f = cookieFile
  | readCache f => f = cacheFile
  | readCookies f => f = cookieFile
  | writeFileSync f _ => f = cacheFile
  | axios_get _ | autoExtractF1TVCookies _ | getF1tvToken _ _ _ | setTimeout _ => True
  end.

(** The same, and neither a scripted login nor a timer. *)
Definition quiet (cacheFile : string) (X : Type) (e : request X) : Prop :=
  touches cacheFile X e
  /\ match e with
     | getF1tvToken _ _ _ | setTimeout _ => False
     | _ => True
     end.





(** The cache record [d] is neither too old nor about to expire at
    [now]: written at most 24 hours before, and without expiry or with
    an expiry at least five minutes away. *)
Definition fresh (d : tokenData) (now : Z) : Prop :=
  now - timestamp d <= 24 * 60 * 60 * 1000
  /\ forall e, expires d = Some e -> e = 0 \/ now + 300000 <= e * 1000.

(** A disk that keeps what is written to the token cache file, with a
    clock that advances by a second at each reading.  The world is the
    content of the cache file and the time. *)
Definition disk_answer (X : Type) (e : request X) (w : option tokenData * Z)
  : Async.result X * (option tokenData * Z) :=
  match e in request X return Async.result X * (option tokenData * Z) with
  | existsSync file =>
    (Async.Fulfilled (if String.eqb file cookieFile then false
                      else match fst w with Some _ => true | None => false end), w)
  | readCache _ =>
    (match fst w with
     | Some d => Async.Fulfilled d
     | None => Async.Rejected "ENOENT"
     end, w)
  | readCookies _ => (Async.Rejected "ENOENT", w)
  | writeFileSync _ d => (Async.Fulfilled tt, (Some d, snd w))
  | axios_get _ => (Async.Fulfilled 200, w)
  | autoExtractF1TVCookies _ => (Async.Fulfilled None, w)
  | getF1tvToken _ _ _ => (Async.Rejected "Login failed", w)
  | setTimeout _ => (Async.Fulfilled tt, w)
  end.

Definition disk : Async.handler request (option tokenData * Z) :=
  Async.Handler disk_answer (fun w => (snd w, (fst w, snd w + 1000))).

(** An empty disk at [Scenarios.noon]. *)
Definition empty_disk : option tokenData * Z := (None, Scenarios.noon).

End TokenRuns.

(** ** What is observed of a command and of a run of downloadVideo *)

Module PlanRuns.

Import DownloadQueue StreamPlan.

(** The streams are copied, not encoded again, and an existing output
    file is overwritten. *)
Definition copies_streams (cmd : command) : Prop :=
  option_value "-c:v" (outputOptions cmd) = Some "copy"%string
  /\ option_value "-c:a" (outputOptions cmd) = Some "copy"%string
  /\ last (outputOptions cmd) = Some (Lit "-y").

(** The options that ffmpeg needs for an MP4 container. *)
Definition mp4_options (cmd : command) : Prop :=
  option_value "-bsf:a" (outputOptions cmd) = Some "aac_adtstoasc"%string
  /\ option_value "-movflags" (outputOptions cmd) = Some "faststart"%string.

Definition no_mp4_options (cmd : command) : Prop :=
  option_value "-bsf:a" (outputOptions cmd) = None
  /\ option_value "-movflags" (outputOptions cmd) = None.

(** Every map names an input file that the command has. *)
Definition maps_in_range (cmd : command) : Prop :=
  Forall (fun s => (input_of s < length (inputs cmd))%nat) (maps (outputOptions cmd)).

End PlanRuns.

(** ** lib/browser-cookies.js *)

Module BrowserCookies.

(** What os and process.env tell of the machine. *)
Record host := mkHost {
  platform : string;
  homedir : string;
  APPDATA : option string;
  LOCALAPPDATA : option string }.

Record paths := mkPaths {
  chrome : list string;
  safari : list string;
  firefox : list string }.

(** A row of a cookie database: name, value and the expires_utc or
    expiry column, a number or null.  Numbers are the integers that the
    sqlite3 binding hands over. *)
Record row := mkRow {
  row_name : string;
  row_value : string;
  row_expires : option Z }.

Record cookie := mkCookie {
  name : string;
  value : string;
  expires : option Z;
  browser : string }.

(** The file system and the cookie databases.  A query opens the
    database read-only and runs db.get with the query of the source; it
    is rejected when the database cannot be opened or db.get reports an
    error, and it is fulfilled with the row or with nothing. *)
Inductive request : Type -> Type :=
| existsSync (path : string) : request bool
| readdirSync (dir : string) : request (list string)
| chrome_get (cookiePath : string) : request (option row)
  (* SELECT name, value, expires_utc FROM cookies WHERE host_key LIKE
     '%formula1.com%' AND name = 'entitlement_token'
     ORDER BY creation_utc DESC LIMIT 1 *)
| firefox_get (cookiePath : string) : request (option row).
  (* SELECT name, value, expiry FROM moz_cookies WHERE host LIKE
     '%formula1.com%' AND name = 'entitlement_token'
     ORDER BY lastAccessed DESC LIMIT 1 *)

Definition prog := Async.t request.

(** The callback of db.get in extractChromeF1TVCookies, for a row, with
    Date.now() at [ms]: Chrome counts in microseconds. *)
Definition chrome_cookie (r : row) (ms : Z) : option cookie :=
  let now := ms * 1000 in
  if Js.truthy_num (row_expires r)
     && match row_expires r with
        | Some e => e <? now
        | None => false
        end
  then None
  else Some (mkCookie (row_name r) (row_value r) (row_expires r) "Chrome").

(** The callback of db.get in extractFirefoxF1TVCookies: Firefox counts
    in seconds. *)
Definition firefox_cookie (r : row) (ms : Z) : option cookie :=
  let now := ms / 1000 in
  if Js.truthy_num (row_expires r)
     && match row_expires r with
        | Some e => e <? now
        | None => false
        end
  then None
  else Some (mkCookie (row_name r) (row_value r) (row_expires r) "Firefox").

(** extractChromeF1TVCookies(cookiePath) *)
Definition extractChromeF1TVCookies (cookiePath : string) : prog (option cookie) :=
  Async.Call (existsSync cookiePath) (fun present =>
    match present with
    | Async.Rejected msg => Async.Throw msg
    | Async.Fulfilled false => Async.Ret None
    | Async.Fulfilled true =>
      Async.Call (chrome_get cookiePath) (fun got =>
        match got with
        | Async.Fulfilled (Some r) => Async.Now (fun ms => Async.Ret (chrome_cookie r ms))
        | _ => Async.Ret None
        end)
    end).

(** extractFirefoxF1TVCookies(cookiePath) *)
Definition extractFirefoxF1TVCookies (cookiePath : string) : prog (option cookie) :=
  Async.Call (existsSync cookiePath) (fun present =>
    match present with
    | Async.Rejected msg => Async.Throw msg
    | Async.Fulfilled false => Async.Ret None
    | Async.Fulfilled true =>
      Async.Call (firefox_get cookiePath) (fun got =>
        match got with
        | Async.Fulfilled (Some r) => Async.Now (fun ms => Async.Ret (firefox_cookie r ms))
        | _ => Async.Ret None
        end)
    end).

(** extractSafariF1TVCookies(cookiePath) *)
Definition extractSafariF1TVCookies (cookiePath : string) : prog (option cookie) :=
  Async.Ret None.

(** if (cookie) cookies.push(cookie) *)
Definition push (cookies : list cookie) (found : option cookie) : list cookie :=
  match found with
  | Some c => cookies ++ [c]
  | None => cookies
  end.

(** (b.expires || 0) - (a.expires || 0) orders by this number, the
    greater first. *)
Definition key (c : cookie) : Z := Js.or_num (expires c) 0.

(** Array.prototype.sort with that comparator: a stable sort, written
    as an insertion sort. *)
Fixpoint insert (c : cookie) (l : list cookie) : list cookie :=
  match l with
  | [] => [c]
  | y :: l' => if key c <? key y then y :: insert c l' else c :: y :: l'
  end.

Fixpoint sort (l : list cookie) : list cookie :=
  match l with
  | [] => []
  | c :: l' => insert c (sort l')
  end.

Section Path.

(** path.join *)
Variable join : string -> string -> string.

(** getBrowserPaths() *)
Definition getBrowserPaths (e : host) : paths :=
  let homeDir := homedir e in
  if String.eqb (platform e) "darwin" then
    {| chrome :=
         [join homeDir "Library/Application Support/Google/Chrome/Default/Cookies";
          join homeDir "Library/Application Support/Google/Chrome/Profile 1/Cookies"];
       safari := [join homeDir "Library/Cookies/Cookies.binarycookies"];
       firefox := [join homeDir "Library/Application Support/Firefox/Profiles"] |}
  else if String.eqb (platform e) "win32" then
    let appData := Js.or_str (APPDATA e) (join homeDir "AppData/Roaming") in
    let localAppData := Js.or_str (LOCALAPPDATA e) (join homeDir "AppData/Local") in
    {| chrome :=
         [join localAppData "Google/Chrome/User Data/Default/Cookies";
          join localAppData "Google/Chrome/User Data/Profile 1/Cookies"];
       safari := [];
       firefox := [join appData "Mozilla/Firefox/Profiles"] |}
  else
    {| chrome :=
         [join homeDir ".config/google-chrome/Default/Cookies";
          join homeDir ".config/google-chrome/Profile 1/Cookies"];
       safari := [];
       firefox := [join homeDir ".mozilla/firefox"] |}.

(** findFirefoxProfiles(firefoxDir), the for loop over the directory
    entries. *)
Fixpoint scan_profiles (firefoxDir : string) (items : list string) (profiles : list string)
  : prog (list string) :=
  match items with
  | [] => Async.Ret profiles
  | item :: rest =>
    let profilePath := join firefoxDir item in
    let cookiesPath := join profilePath "cookies.sqlite" in
    (let* present := Async.await (existsSync cookiesPath) in
     scan_profiles firefoxDir rest (if present : bool then profiles ++ [cookiesPath]
                                    else profiles))%async
  end.

(** findFirefoxProfiles(firefoxDir) *)
Definition findFirefoxProfiles (firefoxDir : string) : prog (list string) :=
  (let* present := Async.await (existsSync firefoxDir) in
   if negb present then Async.Ret []
   else
     let* items := Async.await (readdirSync firefoxDir) in
     scan_profiles firefoxDir items [])%async.

(** One pass of a loop of autoExtractF1TVCookies:
    try { const cookie = await extract(path); if (cookie) cookies.push(cookie) }
    catch (e) { } *)
Definition try_extract (extract : string -> prog (option cookie)) (path : string)
    (cookies : list cookie) : prog (list cookie) :=
  Async.try_catch
    (let* cookie := extract path in Async.Ret (push cookies cookie))%async
    (fun _ => Async.Ret cookies).

(** for (const path of paths) { try { ... } catch (e) { ... } } *)
Fixpoint extract_loop (extract : string -> prog (option cookie)) (paths : list string)
    (cookies : list cookie) : prog (list cookie) :=
  match paths with
  | [] => Async.Ret cookies
  | path :: rest =>
    (let* cookies := try_extract extract path cookies in
     extract_loop extract rest cookies)%async
  end.

(** for (const firefoxDir of browserPaths.firefox) { ... } *)
Fixpoint firefox_loop (dirs : list string) (cookies : list cookie) : prog (list cookie) :=
  match dirs with
  | [] => Async.Ret cookies
  | firefoxDir :: rest =>
    (let* profilePaths := findFirefoxProfiles firefoxDir in
     let* cookies := extract_loop extractFirefoxF1TVCookies profilePaths cookies in
     firefox_loop rest cookies)%async
  end.

(** autoExtractF1TVCookies, for the paths [browserPaths]. *)
Definition autoExtract (browserPaths : paths) : prog (option string) :=
  (let* cookies := extract_loop extractChromeF1TVCookies (chrome browserPaths) [] in
   let* cookies := firefox_loop (firefox browserPaths) cookies in
   let* cookies := extract_loop extractSafariF1TVCookies (safari browserPaths) cookies in
   match cookies with
   | [] => Async.Ret None
   | first :: _ =>
     let mostRecent := hd first (sort cookies) in
     Async.Ret (Some (value mostRecent))
   end)%async.

(** autoExtractF1TVCookies(debug), on the machine [e]; debug only
    prints. *)
Definition autoExtractF1TVCookies (e : host) (debug : bool) : prog (option string) :=
  autoExtract (getBrowserPaths e).

End Path.

End BrowserCookies.

(** ** What is observed of a run of the cookie extraction *)

Module CookieRuns.

Import BrowserCookies.

(** The row that a query returned, with the browser asked. *)
Definition row_of (x : Async.entry request) : option (bool * row) :=
  match x with
  | Async.Tick _ => None
  | Async.Exchange e r =>
    match e in request X return Async.result X -> option (bool * row) with
    | chrome_get _ =>
      fun r => match r with
               | Async.Fulfilled (Some got) => Some (true, got)
               | _ => None
               end
    | firefox_get _ =>
      fun r => match r with
               | Async.Fulfilled (Some got) => Some (false, got)
               | _ => None
               end
    | _ => fun _ => None
    end r
  end.

(** The test that the callbacks of db.get make on a row, written out
    for both browsers, with Date.now() at [ms]: the row is dropped when
    its expires_utc or expiry is a number other than 0 that is less than
    the clock, which is taken in microseconds for Chrome
    (Date.now() * 1000) and in whole seconds for Firefox
    (Math.floor(Date.now() / 1000)).  The number of the row is compared
    as it is: nothing is made of the date from which a browser counts. *)
Definition dropped (chrome : bool) (r : row) (ms : Z) : bool :=
  match row_expires r with
  | Some e => negb (e =? 0) && (e <? (if chrome then ms * 1000 else ms / 1000))
  | None => false
  end.

(** The cookie made of a row. *)
Definition cookie_of (chrome : bool) (r : row) : cookie :=
  mkCookie (row_name r) (row_value r) (row_expires r)
           (if chrome then "Chrome" else "Firefox").

(** In the run, a query of a database of the browser returned the row
    [r], and the clock was read next and showed [ms]. *)
Definition queried (tr : list (Async.entry request)) (chrome : bool) (r : row) (ms : Z)
  : Prop :=
  exists pre post path,
    tr = pre ++ Async.Exchange (if chrome then chrome_get path else firefox_get path)
                               (Async.Fulfilled (Some r))
                :: Async.Tick ms :: post.

(** The cookies of the rows of a run that were not dropped, in the
    order of the queries.  [last_row] is the row returned by the
    exchange just before the trace, if it returned one. *)
Fixpoint gather (last_row : option (bool * row)) (tr : list (Async.entry request))
  : list cookie :=
  match tr with
  | [] => []
  | Async.Tick ms :: rest =>
    match last_row with
    | Some (chrome, r) => if dropped chrome r ms then [] else [cookie_of chrome r]
    | None => []
    end ++ gather None rest
  | x :: rest => gather (row_of x) rest
  end.

(** The row returned by the last exchange of a trace. *)
Fixpoint settle (last_row : option (bool * row)) (tr : list (Async.entry request))
  : option (bool * row) :=
  match tr with
  | [] => last_row
  | x :: rest => settle (row_of x) rest
  end.

(** A look at the file system, as opposed to a query of a database. *)
Definition is_probe (x : Async.entry request) : bool :=
  match x with
  | Async.Exchange (existsSync _) _ | Async.Exchange (readdirSync _) _ => true
  | _ => false
  end.

(** The cookie that a list of cookies yields: none of an empty list,
    else the first of those whose key is greatest. *)
Fixpoint best (l : list cookie) : option cookie :=
  match l with
  | [] => None
  | c :: l' =>
    match best l' with
    | Some b => if key c <? key b then Some b else Some c
    | None => Some c
    end
  end.

(** What a run of one extraction leaves behind: the cookie it returns
    is the one of the row of the run, unless that was dropped; if it
    throws, there was no row
    and the last exchange was a look at the file system that failed with
    that error. *)
Definition extracted (tr : list (Async.entry request)) (o : Async.outcome (option cookie))
  : Prop :=
  settle None tr = None
  /\ match o with
     | Async.Returned found => gather None tr = push [] found
     | Async.Thrown msg =>
       gather None tr = []
       /\ exists x, last tr = Some x /\ Footprint.rejection x = Some msg /\ is_probe x = true
     end.

(** The same for a part of the extraction that is started with the
    cookies [cookies] and returns the cookies found so far. *)
Definition gathered {A : Type} (ret : A -> list cookie) (cookies : list cookie)
    (tr : list (Async.entry request)) (o : Async.outcome A) : Prop :=
  settle None tr = None
  /\ match o with
     | Async.Returned a => ret a = cookies ++ gather None tr
     | Async.Thrown msg =>
       exists x, last tr = Some x /\ Footprint.rejection x = Some msg /\ is_probe x = true
     end.

(** Chrome holds a cookie that expires in the year 2024 of its own
    calendar, Firefox one that expires later by the calendar of Unix:
    the databases of a machine, and its files. *)
Definition two_browsers_answer (X : Type) (e : request X) (w : unit)
  : Async.result X * unit :=
  match e in request X return Async.result X * unit with
  | existsSync _ => (Async.Fulfilled true, w)
  | readdirSync _ => (Async.Fulfilled ["abcd.default"%string], w)
  | chrome_get path =>
    (if String.eqb path "/home/u/.config/google-chrome/Default/Cookies"
     then Async.Fulfilled (Some (mkRow "entitlement_token" "from-chrome"
                                       (Some 13350000000000000)))
     else Async.Rejected "SQLITE_CANTOPEN", w)
  | firefox_get _ =>
    (Async.Fulfilled (Some (mkRow "entitlement_token" "from-firefox" (Some 1800000000))), w)
  end.

Definition two_browsers : Async.handler request unit :=
  Async.Handler two_browsers_answer (fun w => (Scenarios.noon, w)).

Definition slash (a b : string) : string := (a ++ "/" ++ b)%string.

Definition linux_host : host := mkHost "linux" "/home/u" None None.

End CookieRuns.

(** ** Values that may be null or undefined *)

Module Nullable.

Inductive t (A : Type) : Type :=
| Undefined
| Null
| Value (a : A).
Arguments Undefined {A}.
Arguments Null {A}.
Arguments Value {A} a.

(** [x == null] *)
Definition loosely_null {A : Type} (x : t A) : bool :=
  match x with
  | Undefined | Null => true
  | Value _ => false
  end.

(** [x !== null] *)
Definition not_null {A : Type} (x : t A) : bool :=
  match x with
  | Null => false
  | Undefined | Value _ => true
  end.

End Nullable.

(** ** The download of one task: the try block of processTask *)

Module Download.

Import DownloadQueue StreamPlan.

(** The message of the TypeError that reading [property] of [what]
    (undefined or null) throws. *)
Definition type_error (what property : string) : string :=
  ("Cannot read properties of " ++ what ++ " (reading '" ++ property ++ "')")%string.

(** The TypeErrors that the download of a task throws of its own accord. *)
Definition own_error (msg : string) : Prop :=
  In msg [type_error "undefined" "playbackUrl"; type_error "null" "playbackUrl";
          type_error "undefined" "indexOf"; type_error "undefined" "split"].

Definition result_of {A : Type} (o : Async.outcome A) : Async.result A :=
  match o with
  | Async.Returned a => Async.Fulfilled a
  | Async.Thrown msg => Async.Rejected msg
  end.

(** The ffmpeg processes of a run of downloadVideo, each with the way it
    ended. *)
Definition plan_save_of {content : Type} (x : Async.entry (StreamPlan.request content))
  : option (command * Async.result unit) :=
  match x with
  | Async.Exchange e r =>
    match e in StreamPlan.request _ X
          return Async.result X -> option (command * Async.result unit) with
    | StreamPlan.ffmpeg_save _ cmd => fun r => Some (cmd, r)
    | _ => fun _ => None
    end r
  | Async.Tick _ => None
  end.

Definition plan_saves {content : Type} (tr : list (Async.entry (StreamPlan.request content)))
  : list (command * Async.result unit) :=
  omap plan_save_of tr.

(** s.split(' ').shift(): what comes before the first space. *)
Fixpoint first_word (s : string) : string :=
  match s with
  | EmptyString => EmptyString
  | String c rest => if Ascii.eqb c (Ascii.ascii_of_nat 32) then EmptyString else String c (first_word rest)
  end.

Section Api.

(** Content as lib/f1tv-api and lib/f1tv-validator see it, neither of
    which is part of the sources at hand: content.id,
    content.metadata.additionalStreams when it is not null, the channel
    id of a stream, isRace(content) and getContentParams(url).name. *)
Variable content : Type.
Variable isRace : content -> bool.
Variable contentId : Type.
Variable id : content -> contentId.
Variable streams : Type.
Variable additionalStreams : content -> option streams.
Variable channel_id : Type.
Variable name : string -> string.

(** path.join *)
Variable join : string -> string -> string.

(** The stream that getAdditionalStreamsInfo returns. *)
Record stream := mkStream {
  playbackUrl : Nullable.t string;
  channelId : Nullable.t channel_id }.

Inductive request : Type -> Type :=
| getContentInfo (url : string) : request content
| getContentStreamUrl (contentId : contentId) (channelId : Nullable.t channel_id)
  : request string
  (* channelId is undefined in the call with one argument *)
| getAdditionalStreamsInfo (s : streams) (channel : option string)
  : request (Nullable.t stream)
  (* called without await: what it returns is used as it is, and an
     error it throws is thrown on *)
| getProgramStreamId (url audioStream videoSize : string) : request plDetails
| ffmpeg_save (cmd : command) : request unit.

Definition prog := Async.t request.

(** getTokenizedUrl(url, content, channel); [channel] is a string, or
    null or undefined. *)
Definition getTokenizedUrl (url : string) (c : content) (channel : option string)
  : prog string :=
  match additionalStreams c with
  | None => Async.await (getContentStreamUrl (id c) Nullable.Undefined)
  | Some additional =>
    let channel :=
      if isRace c && (match channel with None => true | Some _ => false end)
      then Some "F1 LIVE"%string else channel in
    (let* stream := Async.await (getAdditionalStreamsInfo additional channel) in
     match stream with
     | Nullable.Undefined => Async.Throw (type_error "undefined" "playbackUrl")
     | Nullable.Null => Async.Throw (type_error "null" "playbackUrl")
     | Nullable.Value stream =>
       match playbackUrl stream with
       | Nullable.Undefined => Async.Throw (type_error "undefined" "indexOf")
       | Nullable.Null => Async.await (getContentStreamUrl (id c) (channelId stream))
       | Nullable.Value u =>
         let channelId :=
           match String.index 0 "channelId" u with
           | None => Nullable.Null
           | Some _ => channelId stream
           end in
         Async.await (getContentStreamUrl (id c) channelId)
       end
     end)%async
  end.

(** [m], and then [k] with the value [m] returns or the error it
    throws. *)
Fixpoint settled {A B : Type} (m : prog A) (k : Async.result A -> prog B) : prog B :=
  match m with
  | Async.Ret a => k (Async.Fulfilled a)
  | Async.Throw msg => k (Async.Rejected msg)
  | Async.Call e k' => Async.Call e (fun r => settled (k' r) k)
  | Async.Now k' => Async.Now (fun now => settled (k' now) k)
  end.

(** What downloadVideo asks for, as processTask's queue has it: the
    stream lookup and ffmpeg are asked of the outside, the tokenized URL
    of this.getTokenizedUrl. *)
Definition serve {X : Type} (e : StreamPlan.request content X) : prog X :=
  match e in StreamPlan.request _ X return prog X with
  | StreamPlan.getProgramStreamId _ url audioStream videoSize =>
    Async.await (getProgramStreamId url audioStream videoSize)
  | StreamPlan.getTokenizedUrl _ url c channel => getTokenizedUrl url c (Some channel)
  | StreamPlan.ffmpeg_save _ cmd => Async.await (ffmpeg_save cmd)
  end.

Fixpoint served {A : Type} (m : Async.t (StreamPlan.request content) A) : prog A :=
  match m with
  | Async.Ret a => Async.Ret a
  | Async.Throw msg => Async.Throw msg
  | Async.Call e k => settled (serve e) (fun r => served (k r))
  | Async.Now k => Async.Now (fun now => served (k now))
  end.

(** const ext = task.format === "mp4" ? 'mp4' : 'ts' *)
Definition ext (task : Task.t) : string :=
  if String.eqb (Task.format task) "mp4" then "mp4" else "ts".

(** The name of the output file; [channel] is task.channel. *)
Definition outFile (task : Task.t) (channel : Nullable.t string) (c : content)
  : string + string :=
  if isRace c && Nullable.not_null channel then
    match channel with
    | Nullable.Value ch =>
      inl (name (Task.url task) ++ "-" ++ first_word ch ++ "." ++ ext task)%string
    | _ => inr (type_error "undefined" "split")
    end
  else inl (name (Task.url task) ++ "." ++ ext task)%string.

(** const outFileSpec = task.outputDirectory
      ? path.join(task.outputDirectory, outFile) : outFile *)
Definition outFileSpec (task : Task.t) (outFile : string) : string :=
  match Task.outputDirectory task with
  | Some dir => if Js.truthy_str (Some dir) then join dir outFile else outFile
  | None => outFile
  end.

(** The try block of processTask from [await getContentInfo(task.url)]
    to [await this.downloadVideo(...)].  [channel] is task.channel, of
    which the task record keeps only whether it is a string. *)
Definition download (task : Task.t) (channel : Nullable.t string) : prog unit :=
  (let* c := Async.await (getContentInfo (Task.url task)) in
   let* f1tvUrl := getTokenizedUrl (Task.url task) c
                                   (match channel with
                                    | Nullable.Value ch => Some ch
                                    | _ => None
                                    end) in
   match outFile task channel c with
   | inr msg => Async.Throw msg
   | inl outFile =>
     served (downloadVideo content isRace task f1tvUrl c (outFileSpec task outFile))
   end)%async.

(** The ffmpeg processes of a run, each with the way it ended, and the
    commands they were started with. *)
Definition save_of (x : Async.entry request) : option (command * Async.result unit) :=
  match x with
  | Async.Exchange e r =>
    match e in request X return Async.result X -> option (command * Async.result unit) with
    | ffmpeg_save cmd => fun r => Some (cmd, r)
    | _ => fun _ => None
    end r
  | Async.Tick _ => None
  end.

Definition saves (tr : list (Async.entry request)) : list (command * Async.result unit) :=
  omap save_of tr.

Definition commands (tr : list (Async.entry request)) : list command :=
  map fst (saves tr).

(** The requests of downloadVideo answered as [h] answers what they are
    served with. *)
Definition backing {W : Type} (h : Async.handler request W)
  : Async.handler (StreamPlan.request content) W :=
  Async.Handler
    (fun X e w => let '(_, o, w') := Async.run h (serve e) w in (result_of o, w'))
    (Async.clock h).

End Api.

End Download.

(** A race with additional streams whose requests are all fulfilled. *)
Module DownloadRuns.

Import Download.

Definition name (url : string) : string := "2024-race".
Definition slash (dir file : string) : string := (dir ++ "/" ++ file)%string.
Definition no_id (c : bool) : unit := tt.
Definition with_streams (c : bool) : option unit := Some tt.

Definition fulfil_answer (X : Type) (e : request bool unit unit Z X) (w : unit)
  : Async.result X * unit :=
  match e in request _ _ _ _ X return Async.result X * unit with
  | getContentInfo _ _ _ _ _ => (Async.Fulfilled true, w)
  | getContentStreamUrl _ _ _ _ _ _ => (Async.Fulfilled Scenarios.hls_url, w)
  | getAdditionalStreamsInfo _ _ _ _ _ _ =>
    (Async.Fulfilled
       (Nullable.Value
          (mkStream Z (Nullable.Value "https://f1tv.example/play?channelId=1033"%string)
                    (Nullable.Value 1033))), w)
  | getProgramStreamId _ _ _ _ _ _ size =>
    (Async.Fulfilled (if String.eqb size "480x270"
                      then StreamPlan.mkDetails 1 7
                      else StreamPlan.mkDetails 5 2), w)
  | ffmpeg_save _ _ _ _ _ => (Async.Fulfilled tt, w)
  end.

Definition fulfil : Async.handler (request bool unit unit Z) unit :=
  Async.Handler fulfil_answer (fun w => (0, w)).

(** The download of [Scenarios.with_sky] with task.channel [channel]. *)
Definition sky (channel : Nullable.t string) :=
  Async.run fulfil
    (download bool Scenarios.is_race unit no_id unit with_streams Z name slash
              Scenarios.with_sky channel) tt.

End DownloadRuns.

(** ** The cache and session cleaner *)

Module CacheCleaner.

Inductive request : Type -> Type :=
| existsSync (p : string) : request bool
| unlinkSync (p : string) : request unit
| rmSync (p : string) (recursive force : bool) : request unit.

Definition prog := Async.t request.

(** What the script prints. *)
Inductive line :=
| Clearing                              (* 'Clearing F1TV authentication cache...' *)
| Deleted (file : string)               (* `Deleted: ${file}` *)
| DeletedDirectory (dir : string)       (* `Deleted directory: ${dir}` *)
| FailedToDelete (name msg : string)    (* `Failed to delete ${name}: ${e.message}` *)
| NoneFound                             (* 'No cache files found to clear' *)
| Cleared (clearedCount : Z)            (* `Cleared ${clearedCount} cache items` *)
| NextSteps.                            (* the four closing lines *)

Definition filesToClear : list string := [".f1tv-cookies.json"; ".token-cache.json"]%string.
Definition dirsToClear : list string := [".browser-sessions"]%string.

(** clearedCount and the lines printed so far. *)
Record progress := mkProgress {
  clearedCount : Z;
  console : list line }.

Section Dir.

(** path.join and __dirname *)
Variable join : string -> string -> string.
Variable dirname : string.

(** The body of the first loop. *)
Definition clear_file (file : string) (st : progress) : prog progress :=
  let filePath := join dirname file in
  Async.try_catch
    (let* found := Async.await (existsSync filePath) in
     if found : bool then
       let* _ := Async.await (unlinkSync filePath) in
       Async.Ret (mkProgress (clearedCount st + 1) (console st ++ [Deleted file]))
     else Async.Ret st)%async
    (fun msg => Async.Ret (mkProgress (clearedCount st)
                                      (console st ++ [FailedToDelete file msg]))).

(** The body of the second loop. *)
Definition clear_dir (dir : string) (st : progress) : prog progress :=
  let dirPath := join dirname dir in
  Async.try_catch
    (let* found := Async.await (existsSync dirPath) in
     if found : bool then
       let* _ := Async.await (rmSync dirPath true true) in
       Async.Ret (mkProgress (clearedCount st + 1) (console st ++ [DeletedDirectory dir]))
     else Async.Ret st)%async
    (fun msg => Async.Ret (mkProgress (clearedCount st)
                                      (console st ++ [FailedToDelete dir msg]))).

(** for (const name of names) { ... } *)
Fixpoint for_of (body : string -> progress -> prog progress) (names : list string)
    (st : progress) : prog progress :=
  match names with
  | [] => Async.Ret st
  | name :: rest => (let* st := body name st in for_of body rest st)%async
  end.

Definition summary (clearedCount : Z) : line :=
  if clearedCount =? 0 then NoneFound else Cleared clearedCount.

(** clearCache(): the lines it prints. *)
Definition clearCache : prog (list line) :=
  (let* st := for_of clear_file filesToClear (mkProgress 0 [Clearing]) in
   let* st := for_of clear_dir dirsToClear st in
   Async.Ret (console st ++ [summary (clearedCount st); NextSteps]))%async.

Definition file_ok (file : string) (X : Type) (e : request X) : Prop :=
  match e with
  | existsSync p | unlinkSync p => p = join dirname file
  | rmSync _ _ _ => False
  end.

Definition dir_ok (dir : string) (X : Type) (e : request X) : Prop :=
  match e with
  | existsSync p => p = join dirname dir
  | unlinkSync _ => False
  | rmSync p recursive force => p = join dirname dir /\ recursive = true /\ force = true
  end.

(** What the script may ask of the file system. *)
Definition allowed (X : Type) (e : request X) : Prop :=
  match e with
  | existsSync p => In p (map (join dirname) (filesToClear ++ dirsToClear))
  | unlinkSync p => In p (map (join dirname) filesToClear)
  | rmSync p recursive force =>
    In p (map (join dirname) dirsToClear) /\ recursive = true /\ force = true
  end.

End Dir.

(** The paths that a run removed, the paths it tried to remove, and the
    paths it found to exist. *)
Definition removed_by (x : Async.entry request) : option string :=
  match x with
  | Async.Exchange (unlinkSync p) (Async.Fulfilled _) => Some p
  | Async.Exchange (rmSync p _ _) (Async.Fulfilled _) => Some p
  | _ => None
  end.

Definition attempted_by (x : Async.entry request) : option string :=
  match x with
  | Async.Exchange (unlinkSync p) _ => Some p
  | Async.Exchange (rmSync p _ _) _ => Some p
  | _ => None
  end.

Definition found_by (x : Async.entry request) : option string :=
  match x with
  | Async.Exchange (existsSync p) (Async.Fulfilled true) => Some p
  | _ => None
  end.

Definition removed (tr : list (Async.entry request)) : list string := omap removed_by tr.
Definition attempted (tr : list (Async.entry request)) : list string := omap attempted_by tr.
Definition found (tr : list (Async.entry request)) : list string := omap found_by tr.

(** What one round of a loop does: it returns, whatever the file system
    answers; it asks whether the path exists and removes it if so; it
    counts one more when the removal succeeded and prints one line
    unless the path does not exist. *)
Definition round {W : Type} (h : Async.handler request W)
    (body : string -> progress -> prog progress)
    (ok : string -> forall X, request X -> Prop) : Prop :=
  forall name st (w : W),
    let tr := fst (fst (Async.run h (body name st) w)) in
    exists st' printed,
      snd (fst (Async.run h (body name st) w)) = Async.Returned st'
      /\ clearedCount st' = clearedCount st + Z.of_nat (length (removed tr))
      /\ console st' = console st ++ printed
      /\ Footprint.confined (ok name) tr
      /\ attempted tr = found tr
      /\ (length (removed tr) <= 1)%nat.

(** A file system on which both files exist and the first cannot be
    deleted. *)
Definition stubborn_answer (X : Type) (e : request X) (w : unit) : Async.result X * unit :=
  match e in request X return Async.result X * unit with
  | existsSync p => (Async.Fulfilled (negb (String.eqb p "/app/.browser-sessions")), w)
  | unlinkSync p =>
    (if String.eqb p "/app/.f1tv-cookies.json"
     then Async.Rejected "EACCES: permission denied"%string
     else Async.Fulfilled tt, w)
  | rmSync _ _ _ => (Async.Fulfilled tt, w)
  end.

Definition stubborn : Async.handler request unit :=
  Async.Handler stubborn_answer (fun w => (0, w)).

Definition slash (dir file : string) : string := (dir ++ "/" ++ file)%string.

End CacheCleaner.

(** * Properties of the download queue *)

Module QueueFacts.

Import DownloadQueue QueueInv.

(** ** The scheduler loop *)

Lemma update_task_queue r f q : queue (update_task r f q) = queue q.
Proof. reflexivity. Qed.

Lemma launch_queue task rest q : queue (launch task rest q) = rest.
Proof. reflexivity. Qed.

Lemma launch_active task rest q : active (launch task rest q) = active q ++ [task].
Proof. reflexivity. Qed.

Lemma processQueue_loop_S fuel q :
  processQueue_loop (S fuel) q =
  if negb (isRunning q) then Some (finishQueue q, [])
  else if isPaused q then Some (q, [InScheduler 1000])
  else if (Z.of_nat (length (active q)) <? maxConcurrent q)
          && (0 <? Z.of_nat (length (queue q))) then
    match queue q with
    | [] => Some (q, [InScheduler 1000])
    | task :: rest =>
      if (0 <? Z.of_nat (length rest)) && (1 <? maxConcurrent q) then
        Some (launch task rest q,
              [InDownload task;
               InScheduler (Qmin (inject_Z (delayBetweenDownloads q) / 2) 10000)])
      else
        match processQueue_loop fuel (launch task rest q) with
        | Some (q', ths) => Some (q', InDownload task :: ths)
        | None => None
        end
    end
  else if (Z.of_nat (length (active q)) =? 0) && (Z.of_nat (length (queue q)) =? 0)
  then Some (finishQueue q, [])
  else Some (q, [InScheduler 1000]).
Proof. reflexivity. Qed.

Ltac case_if :=
  match goal with
  | |- context [if ?b then _ else _] => destruct b eqn:?
  | H : context [if ?b then _ else _] |- _ => destruct b eqn:?
  end.

(** The loop ends, in a sleep or by leaving, before its fuel is used up. *)
Lemma processQueue_loop_fuel fuel q :
  (length (queue q) < fuel)%nat -> processQueue_loop fuel q <> None.
Proof.
  revert q. induction fuel as [|fuel IH]; intros q Hlen; [lia|].
  rewrite processQueue_loop_S.
  repeat (case_if; try discriminate).
  destruct (queue q) as [|task rest] eqn:Hq; [discriminate|].
  case_if; [discriminate|].
  specialize (IH (launch task rest q)).
  rewrite launch_queue in IH. simpl in Hlen.
  destruct (processQueue_loop fuel (launch task rest q)) as [[q' ths]|].
  - discriminate.
  - exfalso. apply IH; [lia|reflexivity].
Qed.

Lemma processQueue_loop_eq q :
  processQueue_loop (S (length (queue q))) q = Some (processQueue q).
Proof.
  unfold processQueue.
  destruct (processQueue_loop (S (length (queue q))) q) eqn:E; [reflexivity|].
  exfalso. revert E. apply processQueue_loop_fuel. lia.
Qed.

(** A property of the state and of the suspended executions that holds
    before the loop and is kept by each of its three moves holds when the
    loop suspends or leaves. *)
Lemma processQueue_loop_ind (P : t -> list thread -> Prop) :
  (forall q ths, P q ths -> P (finishQueue q) ths) ->
  (forall q ths ms, P q ths -> P q (ths ++ [InScheduler ms])) ->
  (forall q ths task rest,
      P q ths -> queue q = task :: rest ->
      Z.of_nat (length (active q)) < maxConcurrent q ->
      P (launch task rest q) (ths ++ [InDownload task])) ->
  forall fuel q ths q' ths',
    P q ths -> processQueue_loop fuel q = Some (q', ths') -> P q' (ths ++ ths').
Proof.
  intros Hfin Hsleep Hlaunch.
  induction fuel as [|fuel IH]; intros q ths q' ths' HP Hrun; [discriminate|].
  rewrite processQueue_loop_S in Hrun.
  destruct (negb (isRunning q)).
  { injection Hrun as <- <-. rewrite app_nil_r. auto. }
  destruct (isPaused q).
  { injection Hrun as <- <-. auto. }
  destruct ((Z.of_nat (length (active q)) <? maxConcurrent q)
            && (0 <? Z.of_nat (length (queue q)))) eqn:Hcan.
  - apply andb_prop in Hcan as [Hlt _]. apply Z.ltb_lt in Hlt.
    destruct (queue q) as [|task rest] eqn:Hq.
    { injection Hrun as <- <-. auto. }
    specialize (Hlaunch q ths task rest HP Hq Hlt).
    destruct ((0 <? Z.of_nat (length rest)) && (1 <? maxConcurrent q)).
    + injection Hrun as <- <-.
      change (ths ++ [InDownload task; ?x]) with (ths ++ [InDownload task] ++ [x]).
      rewrite app_assoc. auto.
    + destruct (processQueue_loop fuel (launch task rest q)) as [[q1 ths1]|] eqn:Hrec;
        [|discriminate].
      injection Hrun as <- <-.
      change (ths ++ InDownload task :: ths1) with (ths ++ [InDownload task] ++ ths1).
      rewrite app_assoc.
      eapply IH; eauto.
  - destruct ((Z.of_nat (length (active q)) =? 0) && (Z.of_nat (length (queue q)) =? 0)).
    + injection Hrun as <- <-. rewrite app_nil_r. auto.
    + injection Hrun as <- <-. auto.
Qed.

Lemma run_processQueue_ind (P : t -> list thread -> Prop) :
  (forall q ths, P q ths -> P (finishQueue q) ths) ->
  (forall q ths ms, P q ths -> P q (ths ++ [InScheduler ms])) ->
  (forall q ths task rest,
      P q ths -> queue q = task :: rest ->
      Z.of_nat (length (active q)) < maxConcurrent q ->
      P (launch task rest q) (ths ++ [InDownload task])) ->
  forall q ths, P q ths ->
    P (this (run_processQueue (mkSystem q ths))) (threads (run_processQueue (mkSystem q ths))).
Proof.
  intros Hfin Hsleep Hlaunch q ths HP.
  unfold run_processQueue. simpl.
  pose proof (processQueue_loop_eq q) as E.
  destruct (processQueue q) as [q' ths']. simpl.
  eapply processQueue_loop_ind; eauto.
Qed.

(** ** The bound on the active list *)

Section Bound.

Variable isF1tvUrl : string -> bool.
Variable q0 : t.

Local Abbreviation bounded := (QueueInv.bounded q0).

Lemma length_delete_le {A : Type} (i : nat) (l : list A) :
  (length (delete i l) <= length l)%nat.
Proof.
  revert i. induction l as [|x l IH]; intros [|i]; simpl; try lia.
  specialize (IH i). lia.
Qed.

Lemma bounded_finishQueue q : bounded q -> bounded (finishQueue q).
Proof. intros H. exact H. Qed.

Lemma bounded_launch q task rest :
  bounded q -> Z.of_nat (length (active q)) < maxConcurrent q ->
  bounded (launch task rest q).
Proof.
  intros [Hc Hb] Hlt. split; [exact Hc|].
  rewrite launch_active, length_app. simpl.
  change (maxConcurrent (launch task rest q)) with (maxConcurrent q). lia.
Qed.

Lemma bounded_run_processQueue q ths :
  bounded q -> bounded (this (run_processQueue (mkSystem q ths))).
Proof.
  intros H.
  apply (run_processQueue_ind (fun q _ => bounded q)); auto using bounded_launch.
Qed.

Lemma bounded_finally r q :
  bounded q -> bounded (fst (processTask_finally r q)).
Proof.
  intros [Hc Hb]. unfold processTask_finally.
  destruct (findIndex r (active q)) as [index|]; simpl.
  - case_if; simpl; (split; [exact Hc|]); simpl;
      pose proof (length_delete_le index (active q)); lia.
  - case_if; simpl; split; assumption.
Qed.

Lemma bounded_retry r q : bounded q -> bounded (fst (handleTaskError_retry r q)).
Proof.
  intros H. unfold handleTaskError_retry. case_if; exact H.
Qed.

Lemma bounded_continue th a q res :
  bounded q -> continue th a q = Some res -> bounded (fst res).
Proof.
  intros H Hc.
  destruct th, a; simpl in Hc; try discriminate; injection Hc as <-.
  - pose proof (bounded_run_processQueue q [] H) as H'.
    unfold run_processQueue in H'. simpl in H'.
    destruct (processQueue q). exact H'.
  - apply bounded_finally. exact H.
  - unfold handleTaskError. case_if; [exact H|].
    apply (bounded_retry r (update_task r (Task.with_error (Some (message e))) q)). exact H.
  - unfold handleTaskError_after_backoff. case_if; [exact H|].
    apply bounded_retry. exact H.
  - exact H.
  - apply bounded_finally. exact H.
  - exact H.
Qed.

Lemma bounded_start s : bounded (this s) -> bounded (this (start s)).
Proof.
  intros H. unfold start. case_if; [exact H|].
  apply bounded_run_processQueue. exact H.
Qed.

Lemma bounded_step s l s' :
  bounded (this s) -> step isF1tvUrl s l = Some s' -> bounded (this s').
Proof.
  intros H Hs. destruct l; simpl in Hs.
  - unfold addDownload in Hs. case_if.
    + injection Hs as <-. exact H.
    + injection Hs as <-. case_if; [exact H|].
      apply bounded_start. exact H.
  - injection Hs as <-. apply bounded_start. exact H.
  - injection Hs as <-. exact H.
  - injection Hs as <-. exact H.
  - injection Hs as <-. unfold resume. apply bounded_run_processQueue. exact H.
  - injection Hs as <-. exact H.
  - destruct (threads s !! i) as [th|]; [|discriminate].
    destruct (continue th a (this s)) as [[q ths]|] eqn:Hc; [|discriminate].
    injection Hs as <-. simpl. apply (bounded_continue _ _ _ _ H Hc).
Qed.

Lemma bounded_run ls : forall s s',
  bounded (this s) -> run isF1tvUrl s ls = Some s' -> bounded (this s').
Proof.
  induction ls as [|l ls IH]; intros s s' H Hr; simpl in Hr.
  - injection Hr as <-. exact H.
  - destruct (step isF1tvUrl s l) as [s1|] eqn:Hs; [|discriminate].
    eapply IH; [|exact Hr]. eapply bounded_step; eauto.
Qed.

End Bound.

(** ** Counting *)

Lemma count_app r l1 l2 : count r (l1 ++ l2) = (count r l1 + count r l2)%nat.
Proof. induction l1 as [|x l1 IH]; simpl; [reflexivity|]. rewrite IH. lia. Qed.

Lemma total_app w l1 l2 : total w (l1 ++ l2) = (total w l1 + total w l2)%nat.
Proof. induction l1 as [|x l1 IH]; simpl; [reflexivity|]. rewrite IH. lia. Qed.

Lemma total_delete w ths i th :
  ths !! i = Some th -> (total w (delete i ths) + w th)%nat = total w ths.
Proof.
  revert i. induction ths as [|x ths IH]; intros [|i] H; simpl in *; try discriminate.
  - injection H as <-. lia.
  - specialize (IH i H). lia.
Qed.

Lemma findIndex_None x l : findIndex x l = None -> count x l = O.
Proof.
  induction l as [|y l IH]; simpl; [reflexivity|].
  destruct (Nat.eqb y x); [discriminate|].
  destruct (findIndex x l); [discriminate|]. intros _. rewrite IH; reflexivity.
Qed.

Lemma count_delete_found r x l i :
  findIndex x l = Some i ->
  (count r (delete i l) + (if Nat.eqb x r then 1 else 0))%nat = count r l.
Proof.
  revert i. induction l as [|y l IH]; intros i H; simpl in H; [discriminate|].
  destruct (Nat.eqb_spec y x) as [->|Hne].
  - injection H as <-. simpl. lia.
  - destruct (findIndex x l) as [j|]; [|discriminate].
    injection H as <-. simpl. specialize (IH j eq_refl). lia.
Qed.

(** ** Statuses in the store *)

Lemma allocated_alter f x st r : allocated (alter f x st) r = allocated st r.
Proof. unfold allocated. rewrite length_alter. reflexivity. Qed.

Lemma has_status_alter_ne f x st r a :
  x <> r -> has_status (alter f x st) r a = has_status st r a.
Proof. intros H. unfold has_status. rewrite list_lookup_alter_ne by exact H. reflexivity. Qed.

Lemma has_status_alter_keep f x st r a :
  (forall k, Task.status (f k) = Task.status k) ->
  has_status (alter f x st) r a = has_status st r a.
Proof.
  intros H. unfold has_status.
  destruct (Nat.eq_dec x r) as [->|Hne].
  - rewrite list_lookup_alter_eq.
    destruct (st !! r) as [k|]; [|reflexivity].
    simpl. rewrite H. reflexivity.
  - rewrite list_lookup_alter_ne by exact Hne. reflexivity.
Qed.

Lemma has_status_alter_set b x st a :
  allocated st x = true ->
  has_status (alter (Task.with_status b) x st) x a = same_status b a.
Proof.
  intros H. unfold has_status. rewrite list_lookup_alter_eq.
  apply Nat.ltb_lt in H. apply lookup_lt_is_Some_2 in H as [k ->]. reflexivity.
Qed.

Lemma has_status_unallocated st r a : allocated st r = false -> has_status st r a = false.
Proof.
  intros H. unfold has_status. apply Nat.ltb_ge in H.
  rewrite lookup_ge_None_2 by exact H. reflexivity.
Qed.

(** ** The per-task invariant *)

Ltac status_norm :=
  unfold terminal in *;
  rewrite ?allocated_alter;
  repeat first
    [ rewrite has_status_alter_keep by (intros []; reflexivity)
    | rewrite has_status_alter_ne by congruence
    | rewrite has_status_alter_set by assumption ].

Ltac case_eqb x r :=
  let E := fresh "E" in
  let Eb := fresh "Eb" in
  destruct (Nat.eqb x r) eqn:Eb;
  [ apply Nat.eqb_eq in Eb; subst; rewrite ?Nat.eqb_refl in *
  | rewrite ?Eb in *; pose proof Eb as E; apply Nat.eqb_neq in E ].

Ltac goal_if :=
  match goal with
  | |- context [if ?b then _ else _] => destruct b eqn:?
  end.

Ltac bools :=
  repeat match goal with
         | |- context [indicator ?b] => destruct b eqn:?; simpl indicator
         | H : context [indicator ?b] |- _ => destruct b eqn:?; simpl indicator in H
         end.

Lemma token_allocated st r n : (n + indicator (terminal st r))%nat = indicator (allocated st r) ->
  (0 < n)%nat -> allocated st r = true /\ terminal st r = false /\ n = 1%nat.
Proof. intros H Hn. destruct (allocated st r), (terminal st r); simpl in H; repeat split; lia. Qed.

Lemma terminal_false st r :
  terminal st r = false ->
  has_status st r Task.Completed = false /\ has_status st r Task.Failed = false.
Proof. unfold terminal. intros H. apply orb_false_elim in H. exact H. Qed.

Lemma job_inv_launch q ths task rest r :
  job_inv (mkSystem q ths) r -> queue q = task :: rest ->
  job_inv (mkSystem (launch task rest q) (ths ++ [InDownload task])) r.
Proof.
  intros [Ha Ht Hc Hf] Hq. simpl in Ha, Ht, Hc, Hf. rewrite Hq in Ht. simpl in Ht.
  assert (Hst : store (launch task rest q)
                = alter (fun k => Task.with_attempts (Task.attempts k + 1) k) task
                        (alter (Task.with_status Task.Downloading) task (store q)))
    by reflexivity.
  constructor; simpl this; simpl threads; rewrite ?Hst, ?launch_active, ?launch_queue;
    change (completed (launch task rest q)) with (completed q);
    change (failed (launch task rest q)) with (failed q);
    rewrite ?count_app, ?total_app; simpl;
    destruct (Nat.eqb_spec task r) as [->|Hne].
  - lia.
  - lia.
  - apply token_allocated in Ht as (Hal & Hterm & Hn); [|lia].
    status_norm. rewrite Hal. simpl. lia.
  - status_norm. lia.
  - apply token_allocated in Ht as (Hal & Hterm & Hn); [|lia].
    apply terminal_false in Hterm as [Hcm Hfl]. rewrite Hcm in Hc.
    status_norm. simpl in *. lia.
  - status_norm. lia.
  - apply token_allocated in Ht as (Hal & Hterm & Hn); [|lia].
    apply terminal_false in Hterm as [Hcm Hfl]. rewrite Hfl in Hf.
    status_norm. simpl in *. lia.
  - status_norm. lia.
Qed.

Lemma job_inv_same q q' ths ths' r :
  queue q' = queue q -> active q' = active q -> completed q' = completed q ->
  failed q' = failed q ->
  (forall a, has_status (store q') r a = has_status (store q) r a) ->
  allocated (store q') r = allocated (store q) r ->
  total (executing r) ths' = total (executing r) ths ->
  total (finishing r) ths' = total (finishing r) ths ->
  job_inv (mkSystem q ths) r -> job_inv (mkSystem q' ths') r.
Proof.
  intros Hq Ha Hc Hf Hs Hal He Hl [H1 H2 H3 H4]. simpl in *.
  constructor; simpl; unfold terminal in *;
    rewrite ?Hq, ?Ha, ?Hc, ?Hf, ?Hs, ?Hal, ?He, ?Hl; assumption.
Qed.

Lemma job_inv_scheduler q ths ms r :
  job_inv (mkSystem q ths) r -> job_inv (mkSystem q (ths ++ [InScheduler ms])) r.
Proof.
  apply job_inv_same; try reflexivity; rewrite total_app; simpl; lia.
Qed.

Lemma job_inv_finishQueue q ths r :
  job_inv (mkSystem q ths) r -> job_inv (mkSystem (finishQueue q) ths) r.
Proof. apply job_inv_same; reflexivity. Qed.

Lemma job_inv_run_processQueue q ths :
  (forall r, job_inv (mkSystem q ths) r) ->
  forall r, job_inv (run_processQueue (mkSystem q ths)) r.
Proof.
  intros H.
  pose proof (run_processQueue_ind (fun q ths => forall r, job_inv (mkSystem q ths) r)) as Hind.
  simpl in Hind.
  destruct (run_processQueue (mkSystem q ths)) as [q' ths'] eqn:E.
  change q' with (this (mkSystem q' ths')). change ths' with (threads (mkSystem q' ths')) at 2.
  rewrite <- E. apply Hind; auto using job_inv_finishQueue, job_inv_scheduler, job_inv_launch.
Qed.

(** The finally block removes one occurrence of the task from the active
    list when there is one, and touches nothing else. *)
Lemma finally_effect x q r :
  let q' := fst (processTask_finally x q) in
  let new := snd (processTask_finally x q) in
  queue q' = queue q /\ completed q' = completed q /\ failed q' = failed q
  /\ store q' = store q
  /\ total (executing r) new = O /\ total (finishing r) new = O
  /\ (x <> r -> count r (active q') = count r (active q))
  /\ ((0 < count x (active q))%nat -> S (count x (active q')) = count x (active q)).
Proof.
  unfold processTask_finally.
  destruct (findIndex x (active q)) as [index|] eqn:Hfind.
  - pose proof (count_delete_found r x _ _ Hfind) as Hr.
    pose proof (count_delete_found x x _ _ Hfind) as Hx.
    rewrite Nat.eqb_refl in Hx.
    goal_if; simpl; repeat split; try reflexivity;
      try (intros H; first [lia | apply Nat.eqb_neq in H; rewrite H in Hr; lia]).
  - apply findIndex_None in Hfind.
    goal_if; simpl; repeat split; try reflexivity; intros; lia.
Qed.

Lemma job_inv_set_error x msg q ths r :
  job_inv (mkSystem q ths) r ->
  job_inv (mkSystem (update_task x (Task.with_error msg) q) ths) r.
Proof.
  apply job_inv_same; try reflexivity.
  - intros a. simpl. status_norm. reflexivity.
  - simpl. apply allocated_alter.
Qed.

(** "Retry logic for other errors" and "All retries exhausted", run by
    the execution [th] of task [x], which has no outcome yet. *)
Lemma job_inv_retry x q ths i th r :
  ths !! i = Some th ->
  executing r th = (if Nat.eqb x r then 1%nat else O) -> finishing r th = O ->
  job_inv (mkSystem q ths) r ->
  job_inv (mkSystem (fst (handleTaskError_retry x q))
                    (delete i ths ++ snd (handleTaskError_retry x q))) r.
Proof.
  intros Hth Hex Hfin [Ha Ht Hc Hf]. simpl in Ha, Ht, Hc, Hf.
  pose proof (total_delete (executing r) ths i th Hth) as He.
  pose proof (total_delete (finishing r) ths i th Hth) as Hl.
  rewrite Hex in He. rewrite Hfin in Hl. clear Hex Hfin Hth.
  unfold handleTaskError_retry.
  destruct (attempts_of q x <? retryAttempts q).
  - case_eqb x r; constructor; simpl; rewrite ?total_app; simpl;
      rewrite ?Nat.eqb_refl; rewrite ?Eb; lia.
  - case_eqb x r; constructor; simpl; rewrite ?count_app, ?total_app; simpl;
      rewrite ?Nat.eqb_refl, ?E.
    + lia.
    + apply token_allocated in Ht as (Hal & Hterm & Hn); [|lia].
      status_norm. rewrite Hal. simpl. lia.
    + apply token_allocated in Ht as (Hal & Hterm & Hn); [|lia].
      apply terminal_false in Hterm as [Hcm Hfl]. rewrite Hcm in Hc.
      status_norm. simpl in *. lia.
    + apply token_allocated in Ht as (Hal & Hterm & Hn); [|lia].
      apply terminal_false in Hterm as [Hcm Hfl]. rewrite Hfl in Hf.
      status_norm. simpl in *. lia.
    + rewrite ?Eb. lia.
    + status_norm. rewrite ?Eb. lia.
    + status_norm. rewrite ?Eb. lia.
    + status_norm. rewrite ?Eb. lia.
Qed.

(** A task goes back to the head of the pending queue, from the
    execution [th] of task [x], which has no outcome yet. *)
Lemma job_inv_requeue x q ths i th r :
  ths !! i = Some th ->
  executing r th = (if Nat.eqb x r then 1%nat else O) -> finishing r th = O ->
  job_inv (mkSystem q ths) r ->
  job_inv (mkSystem (with_queue (x :: queue q) q) (delete i ths ++ [InErrorHandled x])) r.
Proof.
  intros Hth Hex Hfin [Ha Ht Hc Hf]. simpl in Ha, Ht, Hc, Hf.
  pose proof (total_delete (executing r) ths i th Hth) as He.
  pose proof (total_delete (finishing r) ths i th Hth) as Hl.
  rewrite Hex in He. rewrite Hfin in Hl. clear Hex Hfin Hth.
  case_eqb x r; constructor; simpl; rewrite ?total_app; simpl;
    rewrite ?Nat.eqb_refl; rewrite ?Eb; lia.
Qed.

Lemma job_inv_finally x q ths i r :
  ths !! i = Some (InErrorHandled x) ->
  job_inv (mkSystem q ths) r ->
  job_inv (mkSystem (fst (processTask_finally x q))
                    (delete i ths ++ snd (processTask_finally x q))) r.
Proof.
  intros Hth Hinv.
  pose proof (total_delete (executing r) ths i _ Hth) as He.
  pose proof (total_delete (finishing r) ths i _ Hth) as Hl.
  simpl in He, Hl.
  destruct (finally_effect x q r) as (Eq & Ec & Ef & Es & Ee & El & Hne & Hact).
  destruct Hinv as [Ha Ht Hc Hf]. simpl in Ha, Ht, Hc, Hf. clear Hth.
  case_eqb x r.
  - specialize (Hact ltac:(lia)).
    constructor; simpl; rewrite ?Eq, ?Ec, ?Ef, ?Es, ?total_app, ?Ee, ?El; lia.
  - specialize (Hne E).
    constructor; simpl; rewrite ?Eq, ?Ec, ?Ef, ?Es, ?total_app, ?Ee, ?El; lia.
Qed.

(** The end of the try block and the finally block, run by the
    execution of task [x] that awaited the download. *)
Lemma job_inv_complete x q ths i r :
  ths !! i = Some (InDownload x) ->
  job_inv (mkSystem q ths) r ->
  let res := processTask_finally x (processTask_success x q) in
  job_inv (mkSystem (fst res) (delete i ths ++ snd res)) r.
Proof.
  intros Hth Hinv res.
  pose proof (total_delete (executing r) ths i _ Hth) as He.
  pose proof (total_delete (finishing r) ths i _ Hth) as Hl.
  simpl in He, Hl.
  destruct (finally_effect x (processTask_success x q) r)
    as (Eq & Ec & Ef & Es & Ee & El & Hne & Hact).
  fold res in Eq, Ec, Ef, Es, Ee, El, Hne, Hact.
  change (active (processTask_success x q)) with (active q) in Hne, Hact.
  destruct Hinv as [Ha Ht Hc Hf]. simpl in Ha, Ht, Hc, Hf.
  clear Hth.
  case_eqb x r.
  - specialize (Hact ltac:(lia)).
    apply token_allocated in Ht as (Hal & Hterm & Hn); [|lia].
    apply terminal_false in Hterm as [Hcm Hfl]. rewrite Hcm in Hc. rewrite Hfl in Hf.
    constructor; simpl; rewrite ?Eq, ?Ec, ?Ef, ?Es, ?total_app, ?Ee, ?El; simpl;
      rewrite ?count_app; simpl; rewrite ?Nat.eqb_refl; status_norm; rewrite ?Hal;
      simpl in *; lia.
  - specialize (Hne E).
    constructor; simpl; rewrite ?Eq, ?Ec, ?Ef, ?Es, ?total_app, ?Ee, ?El, ?Hne; simpl;
      rewrite ?count_app; simpl; rewrite ?Eb; status_norm; lia.
Qed.

Lemma job_inv_swap q ths i th new r :
  ths !! i = Some th ->
  total (executing r) new = executing r th -> total (finishing r) new = finishing r th ->
  job_inv (mkSystem q ths) r -> job_inv (mkSystem q (delete i ths ++ new)) r.
Proof.
  intros Hth He Hl.
  pose proof (total_delete (executing r) ths i th Hth).
  pose proof (total_delete (finishing r) ths i th Hth).
  apply job_inv_same; try reflexivity; rewrite total_app; lia.
Qed.

Lemma job_inv_continue q ths i th a res :
  ths !! i = Some th -> continue th a q = Some res ->
  (forall r, job_inv (mkSystem q ths) r) ->
  forall r, job_inv (mkSystem (fst res) (delete i ths ++ snd res)) r.
Proof.
  intros Hth Hc Hinv.
  destruct th as [ms|x|x e ms|x ms|x|x ms], a; simpl in Hc; try discriminate;
    injection Hc as <-.
  - intros r.
    pose proof (job_inv_run_processQueue q (delete i ths)) as Hrun.
    unfold run_processQueue in Hrun. simpl in Hrun.
    destruct (processQueue q) as [q' new]. apply Hrun.
    intros r'. specialize (Hinv r').
    apply (job_inv_swap q ths i _ [] r' Hth) in Hinv; [|reflexivity|reflexivity].
    rewrite app_nil_r in Hinv. exact Hinv.
  - intros r. apply job_inv_complete; auto.
  - intros r. unfold handleTaskError. destruct (rate_limited e).
    + simpl. apply (job_inv_swap _ ths i _ _ r Hth); [simpl; lia|reflexivity|].
      apply job_inv_set_error. apply Hinv.
    + apply (job_inv_retry x _ ths i _ r Hth); [reflexivity|reflexivity|].
      apply job_inv_set_error. apply Hinv.
  - intros r. unfold handleTaskError_after_backoff.
    destruct (attempts_of q x <? retryAttempts q).
    + apply (job_inv_requeue x q ths i _ r Hth); [reflexivity|reflexivity|apply Hinv].
    + apply (job_inv_retry x _ ths i _ r Hth); [reflexivity|reflexivity|apply Hinv].
  - intros r. apply (job_inv_requeue x q ths i _ r Hth); [reflexivity|reflexivity|apply Hinv].
  - intros r. apply job_inv_finally; auto.
  - intros r. apply (job_inv_swap q ths i _ [] r Hth); [reflexivity|reflexivity|apply Hinv].
Qed.

Lemma job_inv_start s :
  (forall r, job_inv s r) -> forall r, job_inv (start s) r.
Proof.
  intros H. unfold start. destruct (isRunning (this s)); [exact H|].
  apply job_inv_run_processQueue. intros r. specialize (H r).
  destruct s as [q ths]. revert H. apply job_inv_same; reflexivity.
Qed.

Lemma job_inv_resume s :
  (forall r, job_inv s r) -> forall r, job_inv (resume s) r.
Proof.
  intros H. unfold resume.
  apply job_inv_run_processQueue. intros r. specialize (H r).
  destruct s as [q ths]. revert H. apply job_inv_same; reflexivity.
Qed.

Lemma job_inv_clearHistory q ths r :
  job_inv (mkSystem q ths) r -> job_inv (mkSystem (clearHistory q) ths) r.
Proof.
  intros [Ha Ht Hc Hf]. constructor; simpl in *; try assumption; lia.
Qed.

Lemma job_inv_enqueue task q ths r :
  Task.status task = Task.Queued ->
  job_inv (mkSystem q ths) r -> job_inv (mkSystem (enqueue task q) ths) r.
Proof.
  intros Hnew [Ha Ht Hc Hf]. simpl in Ha, Ht, Hc, Hf.
  constructor; simpl; rewrite ?count_app; simpl;
    unfold terminal, has_status, allocated in *; rewrite ?length_app; simpl.
  - exact Ha.
  - destruct (Nat.eqb_spec (length (store q)) r) as [<-|Hne].
    + rewrite lookup_app_r by lia. rewrite Nat.sub_diag. simpl.
      rewrite lookup_ge_None_2 in Ht by lia. simpl in Ht.
      rewrite (proj2 (Nat.ltb_ge _ _)) in Ht by lia.
      rewrite (proj2 (Nat.ltb_lt _ _)) by lia. rewrite Hnew. simpl in *. lia.
    + destruct (Nat.ltb_spec r (length (store q))) as [Hlt|Hge].
      * rewrite lookup_app_l by lia.
        rewrite (proj2 (Nat.ltb_lt _ _)) by lia. lia.
      * rewrite lookup_ge_None_2 by (rewrite length_app; simpl; lia).
        rewrite lookup_ge_None_2 in Ht by lia.
        rewrite (proj2 (Nat.ltb_ge _ _)) by lia. simpl in *. lia.
  - destruct (Nat.ltb_spec r (length (store q))) as [Hlt|Hge].
    + rewrite lookup_app_l by lia. exact Hc.
    + rewrite lookup_ge_None_2 in Hc by lia. simpl in Hc. lia.
  - destruct (Nat.ltb_spec r (length (store q))) as [Hlt|Hge].
    + rewrite lookup_app_l by lia. exact Hf.
    + rewrite lookup_ge_None_2 in Hf by lia. simpl in Hf. lia.
Qed.

Section AddDownload.

Variable isF1tvUrl : string -> bool.

Lemma job_inv_addDownload c s s' id :
  addDownload isF1tvUrl c s = inl (s', id) ->
  (forall r, job_inv s r) -> forall r, job_inv s' r.
Proof.
  unfold addDownload. intros Hadd Hinv.
  destruct (negb (isF1tvUrl (Task.url (new_task c)))); [discriminate|].
  assert (Hpush : forall r, job_inv (mkSystem (enqueue (new_task c) (this s)) (threads s)) r).
  { intros r. apply job_inv_enqueue; [reflexivity|]. destruct s. apply Hinv. }
  injection Hadd as <- _.
  match goal with |- context [if ?b then _ else _] => destruct b end.
  - exact Hpush.
  - apply job_inv_start. exact Hpush.
Qed.

Lemma job_inv_step s l s' :
  step isF1tvUrl s l = Some s' ->
  (forall r, job_inv s r) -> forall r, job_inv s' r.
Proof.
  intros Hs Hinv. destruct l; simpl in Hs.
  - destruct (addDownload isF1tvUrl c s) as [[s1 id]|msg] eqn:Hadd; injection Hs as <-.
    + eapply job_inv_addDownload; eauto.
    + exact Hinv.
  - injection Hs as <-. apply job_inv_start. exact Hinv.
  - injection Hs as <-. intros r. specialize (Hinv r). destruct s as [q ths].
    revert Hinv. apply job_inv_same; reflexivity.
  - injection Hs as <-. intros r. specialize (Hinv r). destruct s as [q ths].
    revert Hinv. apply job_inv_same; reflexivity.
  - injection Hs as <-. apply job_inv_resume. exact Hinv.
  - injection Hs as <-. intros r. specialize (Hinv r). destruct s as [q ths].
    apply job_inv_clearHistory. exact Hinv.
  - destruct s as [q ths]. simpl in Hs.
    destruct (ths !! i) as [th|] eqn:Hth; [|discriminate].
    destruct (continue th a q) as [[q' new]|] eqn:Hc; [|discriminate].
    injection Hs as <-.
    apply (job_inv_continue q ths i th a (q', new) Hth Hc Hinv).
Qed.

Lemma job_inv_init o r : job_inv (mkSystem (new o) []) r.
Proof. constructor; simpl; unfold terminal, has_status, allocated; simpl; lia. Qed.

Lemma job_inv_run ls : forall s s',
  run isF1tvUrl s ls = Some s' -> (forall r, job_inv s r) -> forall r, job_inv s' r.
Proof.
  induction ls as [|l ls IH]; intros s s' Hr Hinv; simpl in Hr.
  - injection Hr as <-. exact Hinv.
  - destruct (step isF1tvUrl s l) as [s1|] eqn:Hs; [|discriminate].
    eapply IH; [exact Hr|]. eapply job_inv_step; eauto.
Qed.

Lemma job_inv_reachable o s r : reachable isF1tvUrl o s -> job_inv s r.
Proof.
  intros [ls Hr]. eapply job_inv_run; [exact Hr|]. intros r'. apply job_inv_init.
Qed.

End AddDownload.


(** ** The concurrency limit *)

Lemma bounded_reachable isF1tvUrl o s :
  reachable isF1tvUrl o s -> bounded (new o) (this s).
Proof.
  intros [ls Hr]. apply (bounded_run isF1tvUrl (new o) ls _ _) in Hr; [exact Hr|].
  split; [repeat split|]. simpl. lia.
Qed.

(** C1, as the code has it.  For a queue built with options [o],
    maxConcurrent is min(o.maxConcurrent || 1, 3), so at most 3 whatever
    was requested; and when the requested value is absent, zero or
    positive, the active list holds at most maxConcurrent tasks between
    any two uninterrupted pieces of code. *)
Theorem active_within_limit isF1tvUrl o s :
  reachable isF1tvUrl o s ->
  maxConcurrent (this s) = Z.min (Js.or_num (Options.maxConcurrent o) 1) 3
  /\ maxConcurrent (this s) <= 3
  /\ (not_negative (Options.maxConcurrent o) ->
      Z.of_nat (length (active (this s))) <= maxConcurrent (this s)).
Proof.
  intros Hr. destruct (bounded_reachable _ _ _ Hr) as [(Hmax & _) Hb].
  change (maxConcurrent (new o)) with (Z.min (Js.or_num (Options.maxConcurrent o) 1) 3)
    in Hmax.
  split; [exact Hmax|]. split; [lia|].
  intros Hnn. rewrite Hmax in *. unfold not_negative, Js.or_num in *.
  destruct (Options.maxConcurrent o) as [v|]; [destruct (Z.eqb_spec v 0)|]; lia.
Qed.

Lemma active_within_limit_witness :
  reachable Scenarios.any_url Scenarios.five_requested
            (Scenarios.state_after Scenarios.five_requested Scenarios.three_added)
  /\ not_negative (Options.maxConcurrent Scenarios.five_requested)
  /\ active (this (Scenarios.state_after Scenarios.five_requested Scenarios.three_added))
     = [0%nat; 1%nat]
  /\ Z.of_nat (length (active (this (Scenarios.state_after Scenarios.five_requested
                                                           Scenarios.three_added))))
     <= maxConcurrent (this (Scenarios.state_after Scenarios.five_requested
                                                   Scenarios.three_added)).
Proof.
  assert (H : reachable Scenarios.any_url Scenarios.five_requested
                (Scenarios.state_after Scenarios.five_requested Scenarios.three_added)).
  { exists Scenarios.three_added. vm_compute. reflexivity. }
  assert (Hnn : not_negative (Options.maxConcurrent Scenarios.five_requested)).
  { simpl. lia. }
  split; [exact H|]. split; [exact Hnn|]. split; [vm_compute; reflexivity|].
  exact (proj2 (proj2 (active_within_limit _ _ _ H)) Hnn).
Defined.

(** C1 as stated fails: with maxConcurrent: -1 the constructor keeps -1,
    and the empty active list already exceeds it. *)
Lemma negative_limit_exceeded :
  reachable Scenarios.any_url Scenarios.negative_limit
            (mkSystem (new Scenarios.negative_limit) [])
  /\ maxConcurrent (new Scenarios.negative_limit) = -1
  /\ ~ within_limit (new Scenarios.negative_limit).
Proof.
  split; [exists []; reflexivity|]. split; [reflexivity|].
  intros [H _]. simpl in H. lia.
Qed.

(** ** clearHistory *)

(** C10.  clearHistory empties the completed and the failed list and
    leaves every other field as it was, the stats counters included, so
    that getStatus then reports completedDownloads and failedDownloads as
    0 while stats.completed and stats.failed keep their values. *)
Theorem clearHistory_frame q :
  completed (clearHistory q) = []
  /\ failed (clearHistory q) = []
  /\ queue (clearHistory q) = queue q
  /\ active (clearHistory q) = active q
  /\ stats (clearHistory q) = stats q
  /\ store (clearHistory q) = store q
  /\ isRunning (clearHistory q) = isRunning q
  /\ isPaused (clearHistory q) = isPaused q
  /\ emitted (clearHistory q) = emitted q
  /\ Status.completedDownloads (getStatus (clearHistory q)) = 0
  /\ Status.failedDownloads (getStatus (clearHistory q)) = 0
  /\ Status.queueLength (getStatus (clearHistory q)) = Status.queueLength (getStatus q)
  /\ Status.activeDownloads (getStatus (clearHistory q))
     = Status.activeDownloads (getStatus q)
  /\ Stats.totalQueued (Status.stats (getStatus (clearHistory q)))
     = Stats.totalQueued (stats q)
  /\ Stats.completed (Status.stats (getStatus (clearHistory q)))
     = Stats.completed (stats q)
  /\ Stats.failed (Status.stats (getStatus (clearHistory q))) = Stats.failed (stats q).
Proof. repeat split. Qed.

(** ** Membership in the collections *)

Lemma same_status_exclusive a :
  same_status a Task.Completed && same_status a Task.Failed = false.
Proof. destruct a; reflexivity. Qed.

(** C9, as the code has it.  Between any two uninterrupted pieces of
    code, a submitted task that is not terminal is in the pending queue or
    in the active list; it is in at most one of the pending queue, the
    completed list and the failed list, and at most once; and it is in the
    active list together with one of these only while an execution of
    processTask for it has recorded its outcome (handleTaskError has put
    it back on the queue or into the failed list) and has yet to run the
    finally block that takes it off the active list. *)
Theorem job_membership isF1tvUrl o s r :
  reachable isF1tvUrl o s ->
  allocated (store (this s)) r = true ->
  (terminal (store (this s)) r = false ->
   (0 < count r (queue (this s)) + count r (active (this s)))%nat)
  /\ (count r (queue (this s)) + count r (completed (this s))
      + count r (failed (this s)) <= 1)%nat
  /\ ((0 < count r (active (this s)))%nat ->
      (0 < count r (queue (this s)) + count r (completed (this s))
           + count r (failed (this s)))%nat ->
      (0 < total (finishing r) (threads s))%nat).
Proof.
  intros Hr Hal.
  destruct (job_inv_reachable isF1tvUrl o s r Hr) as [Ha Ht Hc Hf].
  rewrite Hal in Ht. unfold terminal in *.
  assert (Hex : has_status (store (this s)) r Task.Completed
                && has_status (store (this s)) r Task.Failed = false).
  { unfold has_status. destruct (store (this s) !! r); [|reflexivity].
    apply same_status_exclusive. }
  destruct (has_status (store (this s)) r Task.Completed),
           (has_status (store (this s)) r Task.Failed);
    simpl in *; try discriminate; repeat split; intros; lia.
Qed.

Lemma job_membership_witness :
  reachable Scenarios.any_url Scenarios.one_attempt
            (Scenarios.state_after Scenarios.one_attempt Scenarios.one_failed)
  /\ (0 < total (finishing 0%nat)
                (threads (Scenarios.state_after Scenarios.one_attempt
                                                Scenarios.one_failed)))%nat.
Proof.
  assert (H : reachable Scenarios.any_url Scenarios.one_attempt
                (Scenarios.state_after Scenarios.one_attempt Scenarios.one_failed)).
  { exists Scenarios.one_failed. vm_compute. reflexivity. }
  split; [exact H|].
  apply (job_membership _ _ _ 0%nat H); vm_compute; first [reflexivity | lia].
Defined.

(** C9 as stated fails: a task whose only attempt fails is put into the
    failed list by handleTaskError while it is still in the active list,
    and processTask is then suspended at
    [await this.handleTaskError(task, error)]. *)
Lemma failed_task_still_active :
  reachable Scenarios.any_url Scenarios.one_attempt
            (Scenarios.state_after Scenarios.one_attempt Scenarios.one_failed)
  /\ active (this (Scenarios.state_after Scenarios.one_attempt Scenarios.one_failed))
     = [0%nat]
  /\ failed (this (Scenarios.state_after Scenarios.one_attempt Scenarios.one_failed))
     = [0%nat]
  /\ ~ in_exactly_one (this (Scenarios.state_after Scenarios.one_attempt
                                                   Scenarios.one_failed)) 0%nat.
Proof.
  split; [exists Scenarios.one_failed; vm_compute; reflexivity|].
  split; [vm_compute; reflexivity|]. split; [vm_compute; reflexivity|].
  unfold in_exactly_one. vm_compute. discriminate.
Qed.


(** ** Failure handling *)









(** ** Service order after a re-insertion at the head *)




(** What resuming an execution of processTask does to the event log, to
    the pending queue and to the executions with an open outcome. *)
Lemma continue_effect th a q q' new :
  (forall ms, th <> InScheduler ms) ->
  continue th a q = Some (q', new) ->
  exists evs front,
    emitted q' = emitted q ++ evs
    /\ (forall x, ~ In (taskStarted x) evs)
    /\ queue q' = front ++ queue q
    /\ (forall j, (total (executing j) new <= executing j th)%nat)
    /\ (forall j, In j front -> executing j th = 1%nat).
Proof.
  intros Hns Hc.
  assert (Hretry : forall x q0,
    exists evs,
      emitted (fst (handleTaskError_retry x q0)) = emitted q0 ++ evs
      /\ (forall y, ~ In (taskStarted y) evs)
      /\ queue (fst (handleTaskError_retry x q0)) = queue q0
      /\ (forall j, (total (executing j) (snd (handleTaskError_retry x q0))
                     <= (if Nat.eqb x j then 1 else 0))%nat)).
  { intros x q0. unfold handleTaskError_retry.
    destruct (attempts_of q0 x <? retryAttempts q0).
    - exists []. simpl. rewrite app_nil_r. repeat split; auto.
      intros j. destruct (Nat.eqb x j); lia.
    - exists [taskFailed x]. simpl. repeat split; auto.
      + intros y [H|[]]. discriminate.
      + intros j. lia. }
  assert (Hfinally : forall x q0 j,
    emitted (fst (processTask_finally x q0)) = emitted q0
    /\ queue (fst (processTask_finally x q0)) = queue q0
    /\ total (executing j) (snd (processTask_finally x q0)) = O).
  { intros x q0 j. unfold processTask_finally.
    destruct (findIndex x (active q0)); goal_if; simpl; repeat split. }
  destruct th as [ms|x|x e ms|x ms|x|x ms], a; simpl in Hc; try discriminate.
  - exfalso. apply (Hns ms). reflexivity.
  - injection Hc as Hres. exists [taskCompleted x], [].
    destruct (Hfinally x (processTask_success x q) 0%nat) as (He & Hq & _).
    rewrite Hres in He, Hq. simpl in He, Hq.
    split; [exact He|]. split; [intros y [H|[]]; discriminate|].
    split; [exact Hq|]. split; [|intros j []].
    intros j. destruct (Hfinally x (processTask_success x q) j) as (_ & _ & Ht).
    rewrite Hres in Ht. simpl in Ht. lia.
  - injection Hc as Hres. unfold handleTaskError in Hres. destruct (rate_limited e).
    + injection Hres as <- <-. exists [], []. simpl. rewrite app_nil_r.
      split; [reflexivity|]. split; [intros y []|].
      split; [reflexivity|]. split; [intros j; lia|intros j []].
    + destruct (Hretry x (update_task x (Task.with_error (Some (message e))) q))
        as (evs & He & Hev & Hq & Ht).
      rewrite Hres in He, Hq, Ht. exists evs, []. simpl in *.
      split; [exact He|]. split; [exact Hev|].
      split; [exact Hq|]. split; [exact Ht|intros j []].
  - injection Hc as Hres. unfold handleTaskError_after_backoff in Hres.
    destruct (attempts_of q x <? retryAttempts q).
    + injection Hres as <- <-. exists [], [x]. simpl. rewrite app_nil_r.
      split; [reflexivity|]. split; [intros y []|].
      split; [reflexivity|]. split; [intros j; lia|].
      intros j [<-|[]]. rewrite Nat.eqb_refl. reflexivity.
    + destruct (Hretry x q) as (evs & He & Hev & Hq & Ht).
      rewrite Hres in He, Hq, Ht. exists evs, []. simpl in *.
      split; [exact He|]. split; [exact Hev|].
      split; [exact Hq|]. split; [exact Ht|intros j []].
  - injection Hc as <- <-. exists [], [x]. simpl. rewrite app_nil_r.
    split; [reflexivity|]. split; [intros y []|].
    split; [reflexivity|]. split; [intros j; lia|].
    intros j [<-|[]]. rewrite Nat.eqb_refl. reflexivity.
  - injection Hc as Hres. exists [], [].
    destruct (Hfinally x q 0%nat) as (He & Hq & _).
    rewrite Hres in He, Hq. simpl in He, Hq. rewrite app_nil_r.
    split; [exact He|]. split; [intros y []|].
    split; [exact Hq|]. split; [|intros j []].
    intros j. destruct (Hfinally x q j) as (_ & _ & Ht).
    rewrite Hres in Ht. simpl in Ht. lia.
  - injection Hc as <- <-. exists [], []. simpl. rewrite app_nil_r.
    split; [reflexivity|]. split; [intros y []|].
    split; [reflexivity|]. split; [intros j; lia|intros j []].
Qed.



Section Order.

Variable isF1tvUrl : string -> bool.



End Order.





End QueueFacts.

(** * Properties of the ffmpeg command *)

Module PlanFacts.

Import DownloadQueue StreamPlan PlanSpec.

Ltac answer_request :=
  match goal with
  | H : context [Async.answer ?h ?X ?e ?w] |- _ =>
    destruct (Async.answer h X e w) as [[?|?] ?]; simpl in H
  end.

Ltac one_command H Hin :=
  injection H as <- _ _; simpl in Hin;
  try (destruct Hin as [<-|[]]).

Section Content.

Variable content : Type.
Variable isRace : content -> bool.
Variable W : Type.
Variable h : Async.handler (request content) W.

(** C6, as the code has it.  When international audio is requested for
    content that is not a race, downloadVideo ignores the request: it is
    the same computation as without the request.  It looks up the
    streams and, unless that lookup fails, hands to ffmpeg one command,
    whose only input is the primary stream and which maps the primary
    video and the primary audio only, for the output file asked for; it
    resolves when ffmpeg ends.  It throws no error of its own: it is
    rejected only with the error of the lookup or of ffmpeg. *)
Theorem secondary_audio_ignored (w : W) task f1tvUrl c outFileSpec :
  isRace c = false ->
  let run := Async.run h (downloadVideo content isRace task f1tvUrl c outFileSpec) w in
  let lookup := getProgramStreamId content f1tvUrl (Task.audioStream task)
                                   (Task.videoSize task) in
  downloadVideo content isRace task f1tvUrl c outFileSpec
  = downloadVideo content isRace (without_international task) f1tvUrl c outFileSpec
  /\ match Async.answer h _ lookup w with
     | (Async.Rejected msg, w1) =>
       run = ([Async.Exchange lookup (Async.Rejected msg)], Async.Thrown msg, w1)
     | (Async.Fulfilled pl, w1) =>
       exists cmd,
         inputs cmd = [mkInput f1tvUrl inputOptions]
         /\ map_kinds cmd = [(0%nat, video); (0%nat, audio)]
         /\ output cmd = outFileSpec
         /\ run
            = (let '(ended, w2) := Async.answer h _ (ffmpeg_save content cmd) w1 in
               ([Async.Exchange lookup (Async.Fulfilled pl);
                 Async.Exchange (ffmpeg_save content cmd) ended],
                match ended with
                | Async.Fulfilled _ => Async.Returned tt
                | Async.Rejected msg => Async.Thrown msg
                end,
                w2))
     end.
Proof.
  intros Hrace.
  assert (Heq : downloadVideo content isRace task f1tvUrl c outFileSpec
                = downloadVideo content isRace (without_international task) f1tvUrl c
                                outFileSpec).
  { unfold downloadVideo. simpl. rewrite Hrace.
    destruct (Task.internationalAudio task); reflexivity. }
  cbv zeta. split; [exact Heq|].
  rewrite Heq. unfold downloadVideo. simpl.
  destruct (Async.answer h _ (getProgramStreamId content f1tvUrl (Task.audioStream task)
                                    (Task.videoSize task)) w) as [[pl|msg] w1];
    simpl; [|reflexivity].
  exists (mkCommand [mkInput f1tvUrl inputOptions]
                    (options (Task.format task)
                             (if useDash f1tvUrl then by_metadata_id 0 video (videoId pl)
                              else by_program 0 (videoId pl) video)
                             [Lit "-map";
                              Spec (if useDash f1tvUrl then by_type 0 audio
                                    else by_program 0 (videoId pl) audio)]
                             [Lit "-c:a"; Lit "copy"])
                    outFileSpec).
  split; [reflexivity|]. split; [|split; [reflexivity|]].
  - unfold map_kinds, options; simpl.
    destruct (useDash f1tvUrl), (String.eqb (Task.format task) "mp4"); reflexivity.
  - match goal with
    | |- context [Async.answer h ?X ?e w1] =>
      destruct (Async.answer h X e w1) as [[[]|msg] w2]
    end; reflexivity.
Qed.

(** Every command downloadVideo hands to ffmpeg is of one of two shapes,
    told apart by its maps. *)
Lemma command_shapes (w : W) task f1tvUrl c outFileSpec cmd :
  In cmd (commands content
            (fst (fst (Async.run h
                         (downloadVideo content isRace task f1tvUrl c outFileSpec) w)))) ->
  (map_kinds cmd = [(0%nat, video); (0%nat, audio)]
   /\ option_value "-disposition:a:0" (outputOptions cmd) = None
   /\ (Task.internationalAudio task = None \/ isRace c = false))
  \/ (map_kinds cmd = [(0%nat, video); (1%nat, video); (0%nat, audio); (1%nat, audio)]
      /\ two_audio_maps cmd
      /\ Task.internationalAudio task <> None /\ isRace c = true).
Proof.
  intros Hin. unfold downloadVideo in Hin. simpl in Hin.
  destruct (Async.answer h _ (getProgramStreamId content f1tvUrl (Task.audioStream task)
                                    (Task.videoSize task)) w) as [[pl|msg] w1];
    simpl in Hin; [|contradiction].
  destruct (Task.internationalAudio task) as [lang|] eqn:Hlang;
    [destruct (isRace c) eqn:Hrace|]; simpl in Hin.
  - right.
    match type of Hin with
    | context [Async.answer h ?X ?e ?w] => destruct (Async.answer h X e w) as [[intlUrl|msg] w2]; simpl in Hin
    end; [|contradiction].
    match type of Hin with
    | context [Async.answer h ?X ?e ?w] => destruct (Async.answer h X e w) as [[intlDetails|msg] w3]; simpl in Hin
    end; [|contradiction].
    match type of Hin with
    | context [Async.answer h ?X ?e ?w] => destruct (Async.answer h X e w) as [[[]|msg] w4]; simpl in Hin
    end;
      destruct Hin as [<-|[]];
      unfold two_audio_maps, audio_maps, map_kinds, options; simpl;
      destruct (useDash f1tvUrl), (String.eqb (Task.format task) "mp4");
      repeat split; try reflexivity; discriminate.
  - left.
    match type of Hin with
    | context [Async.answer h ?X ?e ?w] => destruct (Async.answer h X e w) as [[[]|msg] w2]; simpl in Hin
    end;
      destruct Hin as [<-|[]]; unfold map_kinds, options; simpl;
      destruct (useDash f1tvUrl), (String.eqb (Task.format task) "mp4");
      repeat split; try reflexivity; right; reflexivity.
  - left.
    match type of Hin with
    | context [Async.answer h ?X ?e ?w] => destruct (Async.answer h X e w) as [[[]|msg] w2]; simpl in Hin
    end;
      destruct Hin as [<-|[]]; unfold map_kinds, options; simpl;
      destruct (useDash f1tvUrl), (String.eqb (Task.format task) "mp4");
      repeat split; try reflexivity; left; reflexivity.
Qed.

(** C7, as the code has it.  In every command of downloadVideo that maps
    an audio stream of the second input, the maps are, in this order:
    primary video, secondary video, primary audio, secondary audio.  The
    secondary video is mapped for both kinds of stream URL, and before the
    primary audio. *)
Theorem map_order (w : W) task f1tvUrl c outFileSpec cmd :
  In cmd (commands content
            (fst (fst (Async.run h
                         (downloadVideo content isRace task f1tvUrl c outFileSpec) w)))) ->
  has_secondary_audio cmd ->
  map_kinds cmd = [(0%nat, video); (1%nat, video); (0%nat, audio); (1%nat, audio)].
Proof.
  intros Hin Hsec.
  destruct (command_shapes w task f1tvUrl c outFileSpec cmd Hin)
    as [(Hk & _)|(Hk & _)]; [|exact Hk].
  unfold has_secondary_audio in Hsec. rewrite Hk in Hsec.
  simpl in Hsec. destruct Hsec as [Hsec|[Hsec|[]]]; discriminate.
Qed.

(** C8, as the code has it.  Every command that downloadVideo builds
    when international audio is requested and the content is a race maps
    exactly two audio streams, the audio of the first input before the
    audio of the second, and marks the first audio stream of the output
    as default and the second as not default.  For other content the
    request is ignored and the command is the one without it. *)
Theorem audio_maps_of_race (w : W) task f1tvUrl c outFileSpec cmd :
  Task.internationalAudio task <> None ->
  isRace c = true ->
  In cmd (commands content
            (fst (fst (Async.run h
                         (downloadVideo content isRace task f1tvUrl c outFileSpec) w)))) ->
  two_audio_maps cmd /\ has_secondary_audio cmd.
Proof.
  intros Hlang Hrace Hin.
  destruct (command_shapes w task f1tvUrl c outFileSpec cmd Hin)
    as [(_ & _ & [H|H])|(Hk & Htwo & _)]; [congruence|congruence|].
  split; [exact Htwo|]. unfold has_secondary_audio. rewrite Hk. simpl. tauto.
Qed.

End Content.

(** C6 as stated fails: for content that is not a race, the task that
    asks for the English international commentary is downloaded without
    an error, by a command with one input. *)
Lemma secondary_audio_not_rejected :
  ~ secondary_audio_rejected bool Scenarios.is_race unit Scenarios.fulfil tt
      Scenarios.with_sky Scenarios.dash_url false "out.mp4".
Proof.
  intros H. destruct H as [[msg Hthrown] _]; [discriminate|reflexivity|].
  vm_compute in Hthrown. discriminate.
Qed.

Lemma secondary_audio_ignored_witness :
  Scenarios.is_race false = false
  /\ exists cmd,
      inputs cmd = [mkInput Scenarios.dash_url inputOptions]
      /\ map_kinds cmd = [(0%nat, video); (0%nat, audio)]
      /\ Async.run Scenarios.fulfil
                   (downloadVideo bool Scenarios.is_race Scenarios.with_sky
                                  Scenarios.dash_url false "out.mp4") tt
         = ([Async.Exchange (getProgramStreamId bool Scenarios.dash_url "eng" "best")
                            (Async.Fulfilled (mkDetails 5 2));
             Async.Exchange (ffmpeg_save bool cmd) (Async.Fulfilled tt)],
            Async.Returned tt, tt).
Proof.
  split; [reflexivity|].
  destruct (secondary_audio_ignored bool Scenarios.is_race unit Scenarios.fulfil tt
              Scenarios.with_sky Scenarios.dash_url false "out.mp4" eq_refl)
    as [_ Hrun].
  cbn [Async.answer Scenarios.fulfil Scenarios.fulfil_answer] in Hrun.
  destruct Hrun as (cmd & Hinputs & Hkinds & _ & Hrun).
  exists cmd. split; [exact Hinputs|]. split; [exact Hkinds|].
  rewrite Hrun. reflexivity.
Defined.

(** C7 as stated fails: for a race with international audio the
    secondary video is mapped before the primary audio. *)
Lemma secondary_video_before_primary_audio :
  exists cmd,
    Scenarios.sky_commands Scenarios.hls_url true = [cmd]
    /\ has_secondary_audio cmd
    /\ map render_arg (firstn 8 (outputOptions cmd))
       = ["-map"; "0:p:5:v"; "-map"; "1:p:1:v"; "-map"; "0:p:5:a"; "-map"; "1:p:5:a:7"]%string
    /\ ~ claimed_map_order cmd.
Proof.
  eexists. split; [vm_compute; reflexivity|].
  split; [vm_compute; tauto|]. split; [vm_compute; reflexivity|].
  intros [H|H]; vm_compute in H; discriminate.
Qed.

Lemma map_order_witness :
  In (Scenarios.sky_command Scenarios.dash_url true)
     (Scenarios.sky_commands Scenarios.dash_url true)
  /\ has_secondary_audio (Scenarios.sky_command Scenarios.dash_url true)
  /\ map_kinds (Scenarios.sky_command Scenarios.dash_url true)
     = [(0%nat, video); (1%nat, video); (0%nat, audio); (1%nat, audio)].
Proof.
  assert (Hin : In (Scenarios.sky_command Scenarios.dash_url true)
                   (Scenarios.sky_commands Scenarios.dash_url true))
    by (vm_compute; left; reflexivity).
  assert (Hsec : has_secondary_audio (Scenarios.sky_command Scenarios.dash_url true))
    by (vm_compute; tauto).
  split; [exact Hin|]. split; [exact Hsec|].
  exact (map_order bool Scenarios.is_race unit Scenarios.fulfil tt Scenarios.with_sky
                   Scenarios.dash_url true "out.mp4" _ Hin Hsec).
Defined.

(** C8 as stated fails: built with the same selection for content that
    is not a race, the command maps one audio stream and sets no
    disposition. *)
Lemma one_audio_map_without_race :
  exists cmd,
    Scenarios.sky_commands Scenarios.dash_url false = [cmd]
    /\ Task.internationalAudio Scenarios.with_sky = Some "eng"%string
    /\ map input_of (audio_maps cmd) = [0%nat]
    /\ ~ two_audio_maps cmd.
Proof.
  eexists. split; [vm_compute; reflexivity|].
  split; [reflexivity|]. split; [vm_compute; reflexivity|].
  intros [H _]. vm_compute in H. discriminate.
Qed.

Lemma audio_maps_of_race_witness :
  Task.internationalAudio Scenarios.with_sky <> None
  /\ Scenarios.is_race true = true
  /\ In (Scenarios.sky_command Scenarios.hls_url true)
        (Scenarios.sky_commands Scenarios.hls_url true)
  /\ two_audio_maps (Scenarios.sky_command Scenarios.hls_url true).
Proof.
  assert (Hlang : Task.internationalAudio Scenarios.with_sky <> None) by discriminate.
  assert (Hin : In (Scenarios.sky_command Scenarios.hls_url true)
                   (Scenarios.sky_commands Scenarios.hls_url true))
    by (vm_compute; left; reflexivity).
  split; [exact Hlang|]. split; [reflexivity|]. split; [exact Hin|].
  exact (proj1 (audio_maps_of_race bool Scenarios.is_race unit Scenarios.fulfil tt
                  Scenarios.with_sky Scenarios.hls_url true "out.mp4" _ Hlang eq_refl Hin)).
Defined.

End PlanFacts.

(** * Properties of the token manager *)

Module TokenFacts.

Import TokenManager TokenSpec.

Lemma run_bind {E : Type -> Type} {A B W : Type} (h : Async.handler E W)
    (m : Async.t E A) (f : A -> Async.t E B) (w : W) :
  Async.run h (Async.bind m f) w
  = let '(tr, o, w1) := Async.run h m w in
    match o with
    | Async.Returned a =>
      let '(tr2, o2, w2) := Async.run h (f a) w1 in (tr ++ tr2, o2, w2)
    | Async.Thrown msg => (tr, Async.Thrown msg, w1)
    end.
Proof.
  revert w. induction m as [a|msg|X e k IH|k IH]; intros w; simpl.
  - destruct (Async.run h (f a) w) as [[tr2 o2] w2]. reflexivity.
  - reflexivity.
  - destruct (Async.answer h X e w) as [r w1]. rewrite IH.
    destruct (Async.run h (k r) w1) as [[tr o] w2].
    destruct o as [a|msg]; [|reflexivity].
    destruct (Async.run h (f a) w2) as [[tr2 o2] w3]. reflexivity.
  - destruct (Async.clock h w) as [now w1]. rewrite IH.
    destruct (Async.run h (k now) w1) as [[tr o] w2].
    destruct o as [a|msg]; [|reflexivity].
    destruct (Async.run h (f a) w2) as [[tr2 o2] w3]. reflexivity.
Qed.

Lemma none_live_nil : none_live [].
Proof. intros token []. Qed.














Section Manager.

Variable jwt_exp : string -> option Z.
Variable W : Type.
Variable h : Async.handler request W.

Variable debug : bool.
Variable delay : Q.

Let this : TokenManager.t := TokenManager.mk debug 3 delay ".token-cache.json".

Ltac ask :=
  match goal with
  | |- context [Async.answer h ?X ?e ?w] => destruct (Async.answer h X e w) as [[?|?] ?]
  end; simpl.


Lemma validated_outcome candidate w :
  let '(tr, o, _) := Async.run h (validated candidate) w in
  exists res, o = Async.Returned res
    /\ tried (map observe tr) = []
    /\ match res with
       | Some token => map observe tr = [Checked token true]
       | None => none_live (map observe tr)
       end.
Proof.
  destruct candidate as [[|c token]|]; simpl.
  - exists None. repeat split. apply none_live_nil.
  - ask.
    + destruct (x =? 200) eqn:Hx; eexists; repeat split; simpl; rewrite ?Hx; try reflexivity.
      intros t [H|[]]. discriminate.
    + eexists; repeat split. intros t [H|[]]. discriminate.
  - exists None. repeat split. apply none_live_nil.
Qed.





Notation cacheFile := ".token-cache.json"%string (only parsing).









End Manager.

(** ** The cache read *)

Lemma extractTokenExpiry_nonzero jwt_exp token :
  extractTokenExpiry jwt_exp token <> Some 0.
Proof.
  unfold extractTokenExpiry. destruct (jwt_exp token) as [e|]; [|discriminate].
  destruct (Z.eqb_spec e 0); congruence.
Qed.

Section CacheRead.

Variable jwt_exp : string -> option Z.
Variable W : Type.
Variable h : Async.handler request W.

(** What saveTokenToCache hands to fs.writeFileSync. *)
Lemma saveTokenToCache_record (this : TokenManager.t) token source w :
  exists now d r w',
    Async.run h (saveTokenToCache jwt_exp this token source) w
    = ([Async.Tick now; Async.Exchange (writeFileSync (tokenCacheFile this) d) r],
       Async.Returned tt, w')
    /\ written_by_save (extractTokenExpiry jwt_exp) d.
Proof.
  unfold saveTokenToCache. simpl.
  destruct (Async.clock h w) as [now w1].
  destruct (Async.answer h _ _ w1) as [r w2].
  eexists _, _, _, _. split; [reflexivity|]. eexists _, _, _. reflexivity.
Qed.

(** C5.  When the cache file is there and is read as the record [d]
    with the clock at [now], and [d] is a record as saveTokenToCache
    writes it, loadTokenFromCache returns null if the expires field of
    [d], in milliseconds, is less than [now] plus five minutes, or if the
    timestamp of [d] is more than 24 hours before [now].  getValidToken
    then does not check the cached token: its next request is the browser
    extraction. *)
Theorem stale_cache_rejected (this : TokenManager.t) w w1 w2 w3 d now :
  Async.answer h bool (existsSync (tokenCacheFile this)) w = (Async.Fulfilled true, w1) ->
  Async.answer h tokenData (readCache (tokenCacheFile this)) w1 = (Async.Fulfilled d, w2) ->
  Async.clock h w2 = (now, w3) ->
  written_by_save (extractTokenExpiry jwt_exp) d ->
  stale d now ->
  Async.run h (loadTokenFromCache this) w
  = ([Async.Exchange (existsSync (tokenCacheFile this)) (Async.Fulfilled true);
      Async.Exchange (readCache (tokenCacheFile this)) (Async.Fulfilled d);
      Async.Tick now],
     Async.Returned None, w3)
  /\ forall user pass,
      exists r rest o w',
        Async.run h (getValidToken jwt_exp this user pass) w
        = ([Async.Exchange (existsSync (tokenCacheFile this)) (Async.Fulfilled true);
            Async.Exchange (readCache (tokenCacheFile this)) (Async.Fulfilled d);
            Async.Tick now;
            Async.Exchange (autoExtractF1TVCookies (debug this)) r] ++ rest,
           o, w').
Proof.
  intros Hex Hread Hnow Hsaved Hstale.
  assert (Hload : Async.run h (loadTokenFromCache this) w
                  = ([Async.Exchange (existsSync (tokenCacheFile this)) (Async.Fulfilled true);
                      Async.Exchange (readCache (tokenCacheFile this)) (Async.Fulfilled d);
                      Async.Tick now],
                     Async.Returned None, w3)).
  { unfold loadTokenFromCache. simpl. rewrite Hex. simpl. rewrite Hread. simpl.
    rewrite Hnow. simpl.
    destruct Hstale as [(e & He & Hlt)|Hold].
    - assert (Hnz : e <> 0).
      { destruct Hsaved as (token & source & ts & ->). simpl in He. intros ->.
        exact (extractTokenExpiry_nonzero jwt_exp token He). }
      rewrite He. simpl.
      rewrite (proj2 (Z.eqb_neq _ _) Hnz), (proj2 (Z.ltb_lt _ _) Hlt). reflexivity.
    - destruct (Js.truthy_num (expires d) && _); [reflexivity|].
      rewrite (proj2 (Z.gtb_gt _ _) Hold). reflexivity. }
  split; [exact Hload|].
  intros user pass. unfold getValidToken, strategy_cache.
  rewrite !run_bind, Hload. cbv beta iota. simpl Async.run at 1. cbv beta iota.
  rewrite run_bind. unfold strategy_browser at 1. simpl Async.run at 1.
  destruct (Async.answer h (option string) (autoExtractF1TVCookies (debug this)) w3)
    as [r w4].
  match goal with
  | |- context [Async.run h ?m w4] => destruct (Async.run h m w4) as [[tr o] w5]
  end.
  destruct o as [res|msg]; [|exists r, tr; simpl; eauto].
  match goal with
  | |- context [Async.run h ?m w5] => destruct (Async.run h m w5) as [[tr' o'] w6]
  end.
  exists r. simpl. eauto.
Qed.

End CacheRead.

(** A record whose expires field is 0 is not rejected for its expiry;
    no run of saveTokenToCache writes such a record. *)
Example zero_expiry_never_written :
  (forall jwt_exp, ~ written_by_save (extractTokenExpiry jwt_exp) Scenarios.expires_zero)
  /\ snd (fst (Async.run (Scenarios.outside (Some Scenarios.expires_zero) Scenarios.noon None
                                            Scenarios.every_token_live)
                         (loadTokenFromCache (TokenManager.new false)) tt))
     = Async.Returned (Some "eyJhbGciOi.e30.c2ln"%string).
Proof.
  split; [|vm_compute; reflexivity].
  intros jwt_exp (token & source & now & H).
  apply (f_equal expires) in H. simpl in H. symmetry in H.
  exact (extractTokenExpiry_nonzero jwt_exp token H).
Qed.

Lemma stale_cache_rejected_witness :
  written_by_save (extractTokenExpiry Scenarios.sample_exp) Scenarios.expires_soon
  /\ stale Scenarios.expires_soon Scenarios.noon
  /\ Async.run (Scenarios.outside (Some Scenarios.expires_soon) Scenarios.noon None
                                  Scenarios.every_token_live)
               (loadTokenFromCache (TokenManager.new false)) tt
     = ([Async.Exchange (existsSync ".token-cache.json") (Async.Fulfilled true);
         Async.Exchange (readCache ".token-cache.json")
                        (Async.Fulfilled Scenarios.expires_soon);
         Async.Tick Scenarios.noon],
        Async.Returned None, tt).
Proof.
  assert (Hsaved : written_by_save (extractTokenExpiry Scenarios.sample_exp)
                                   Scenarios.expires_soon)
    by (eexists _, _, _; reflexivity).
  assert (Hstale : stale Scenarios.expires_soon Scenarios.noon).
  { left. exists 1700000240. split; vm_compute; reflexivity. }
  split; [exact Hsaved|]. split; [exact Hstale|].
  exact (proj1 (stale_cache_rejected Scenarios.sample_exp unit
                  (Scenarios.outside (Some Scenarios.expires_soon) Scenarios.noon None
                                     Scenarios.every_token_live)
                  (TokenManager.new false) tt tt tt tt Scenarios.expires_soon Scenarios.noon
                  eq_refl eq_refl eq_refl Hsaved Hstale)).
Defined.

(** A record that is too old is rejected as well, whatever its expiry. *)
Example old_cache_rejected :
  stale Scenarios.written_yesterday Scenarios.noon
  /\ snd (fst (Async.run (Scenarios.outside (Some Scenarios.written_yesterday)
                                            Scenarios.noon None Scenarios.every_token_live)
                         (loadTokenFromCache (TokenManager.new false)) tt))
     = Async.Returned None.
Proof.
  split; [right; vm_compute; reflexivity|vm_compute; reflexivity].
Qed.



End TokenFacts.

(** * Computations and their runs *)

Module AsyncFacts.

Import Footprint.

Lemma run_try_catch {E : Type -> Type} {A W : Type} (h : Async.handler E W)
    (m : Async.t E A) (handle : string -> Async.t E A) (w : W) :
  Async.run h (Async.try_catch m handle) w
  = let '(tr, o, w1) := Async.run h m w in
    match o with
    | Async.Returned a => (tr, Async.Returned a, w1)
    | Async.Thrown msg =>
      let '(tr2, o2, w2) := Async.run h (handle msg) w1 in (tr ++ tr2, o2, w2)
    end.
Proof.
  revert w. induction m as [a|msg|X e k IH|k IH]; intros w; simpl.
  - reflexivity.
  - destruct (Async.run h (handle msg) w) as [[tr2 o2] w2]. reflexivity.
  - destruct (Async.answer h X e w) as [r w1]. rewrite IH.
    destruct (Async.run h (k r) w1) as [[tr o] w2].
    destruct o as [a|msg]; [reflexivity|].
    destruct (Async.run h (handle msg) w2) as [[tr2 o2] w3]. reflexivity.
  - destruct (Async.clock h w) as [now w1]. rewrite IH.
    destruct (Async.run h (k now) w1) as [[tr o] w2].
    destruct o as [a|msg]; [reflexivity|].
    destruct (Async.run h (handle msg) w2) as [[tr2 o2] w3]. reflexivity.
Qed.

(** ** Footprints *)

Section Within.

Context {E : Type -> Type}.
Variable P : forall X : Type, E X -> Prop.

Lemma within_bind {A B : Type} (m : Async.t E A) (f : A -> Async.t E B) :
  within P m -> (forall a, within P (f a)) -> within P (Async.bind m f).
Proof.
  intros Hm Hf. induction Hm as [a|msg|X e k He Hk IH|k Hk IH]; simpl.
  - apply Hf.
  - constructor.
  - constructor; [exact He|exact IH].
  - constructor. exact IH.
Qed.

Lemma within_try_catch {A : Type} (m : Async.t E A) (handle : string -> Async.t E A) :
  within P m -> (forall msg, within P (handle msg)) -> within P (Async.try_catch m handle).
Proof.
  intros Hm Hh. induction Hm as [a|msg|X e k He Hk IH|k Hk IH]; simpl.
  - constructor.
  - apply Hh.
  - constructor; [exact He|exact IH].
  - constructor. exact IH.
Qed.

Lemma within_run {A W : Type} (h : Async.handler E W) (m : Async.t E A) :
  within P m -> forall w, confined P (fst (fst (Async.run h m w))).
Proof.
  intros Hm. induction Hm as [a|msg|X e k He Hk IH|k Hk IH]; intros w; simpl.
  - constructor.
  - constructor.
  - destruct (Async.answer h X e w) as [r w1]. specialize (IH r w1).
    destruct (Async.run h (k r) w1) as [[tr o] w2]. simpl in *.
    constructor; [exact He|exact IH].
  - destruct (Async.clock h w) as [now w1]. specialize (IH now w1).
    destruct (Async.run h (k now) w1) as [[tr o] w2]. simpl in *.
    constructor; [exact I|exact IH].
Qed.

End Within.

Ltac footprint :=
  repeat first
    [ apply within_bind
    | apply within_try_catch
    | apply within_ret
    | apply within_throw
    | apply within_now
    | apply within_call
    | progress intros
    | match goal with
      | |- within _ (match ?x with _ => _ end) => destruct x
      | |- within _ (if ?b then _ else _) => destruct b
      end ].

Lemma within_weaken {E : Type -> Type} (P Q : forall X : Type, E X -> Prop)
    {A : Type} (m : Async.t E A) :
  (forall X e, P X e -> Q X e) -> within P m -> within Q m.
Proof.
  intros HPQ Hm. induction Hm; constructor; auto.
Qed.

Lemma confined_app {E : Type -> Type} (P : forall X : Type, E X -> Prop) tr1 tr2 :
  confined P tr1 -> confined P tr2 -> confined P (tr1 ++ tr2).
Proof. intros H1 H2. apply Forall_app. split; assumption. Qed.

(** ** Computations that do not throw *)

Lemma unfailing_bind {E : Type -> Type} {A B : Type} (m : Async.t E A)
    (f : A -> Async.t E B) :
  unfailing m -> (forall a, unfailing (f a)) -> unfailing (Async.bind m f).
Proof.
  intros Hm Hf. induction Hm as [a|X e k Hk IH|k Hk IH]; simpl.
  - apply Hf.
  - constructor. exact IH.
  - constructor. exact IH.
Qed.

Lemma unfailing_try_catch {E : Type -> Type} {A : Type} (m : Async.t E A)
    (handle : string -> Async.t E A) :
  (forall msg, unfailing (handle msg)) -> unfailing (Async.try_catch m handle).
Proof.
  intros Hh. induction m as [a|msg|X e k IH|k IH]; simpl.
  - constructor.
  - apply Hh.
  - constructor. exact IH.
  - constructor. exact IH.
Qed.

Lemma unfailing_run {E : Type -> Type} {A W : Type} (h : Async.handler E W)
    (m : Async.t E A) :
  unfailing m -> forall w, exists a, snd (fst (Async.run h m w)) = Async.Returned a.
Proof.
  intros Hm. induction Hm as [a|X e k Hk IH|k Hk IH]; intros w; simpl.
  - exists a. reflexivity.
  - destruct (Async.answer h X e w) as [r w1]. specialize (IH r w1).
    destruct (Async.run h (k r) w1) as [[tr o] w2]. exact IH.
  - destruct (Async.clock h w) as [now w1]. specialize (IH now w1).
    destruct (Async.run h (k now) w1) as [[tr o] w2]. exact IH.
Qed.


(** ** Computations without a try block *)

Lemma fails_fast_bind {E : Type -> Type} own {A B : Type} (m : Async.t E A)
    (f : A -> Async.t E B) :
  fails_fast own m -> (forall a, fails_fast own (f a)) -> fails_fast own (Async.bind m f).
Proof.
  intros Hm Hf. induction Hm as [a|msg Hown|X e k Hk IH Hrej|k Hk IH]; simpl.
  - apply Hf.
  - constructor. exact Hown.
  - constructor; [exact IH|]. intros msg. rewrite Hrej. reflexivity.
  - constructor. exact IH.
Qed.

Lemma fails_fast_await {E : Type -> Type} own {X : Type} (e : E X) :
  fails_fast own (Async.await e).
Proof. constructor; [intros x; constructor|reflexivity]. Qed.

Lemma fails_fast_weaken {E : Type -> Type} (own own' : string -> Prop) {A : Type}
    (m : Async.t E A) :
  (forall msg, own msg -> own' msg) -> fails_fast own m -> fails_fast own' m.
Proof.
  intros Hsub Hm. induction Hm; constructor; auto.
Qed.

Lemma removelast_cons {A : Type} (x : A) l : l <> [] -> removelast (x :: l) = x :: removelast l.
Proof. destruct l; [congruence|reflexivity]. Qed.

Lemma fails_fast_run {E : Type -> Type} own {A W : Type} (h : Async.handler E W)
    (m : Async.t E A) :
  fails_fast own m ->
  forall w, stopped_at_failure own (fst (fst (Async.run h m w))) (snd (fst (Async.run h m w))).
Proof.
  intros Hm. induction Hm as [a|msg Hown|X e k Hk IH Hrej|k Hk IH]; intros w; simpl.
  - constructor.
  - right. split; [constructor|exact Hown].
  - destruct (Async.answer h X e w) as [[x|msg] w1].
    + specialize (IH x w1).
      destruct (Async.run h (k (Async.Fulfilled x)) w1) as [[tr o] w2]. simpl in *.
      destruct o as [a|msg]; [constructor; [reflexivity|exact IH]|].
      destruct IH as [[Hpre (y & Hlast & Hy)]|[Hall Hown]].
      * left. assert (Hne : tr <> []) by (destruct tr; [discriminate|discriminate]).
        rewrite removelast_cons by exact Hne.
        split; [constructor; [reflexivity|exact Hpre]|].
        exists y. split; [|exact Hy]. destruct tr; [congruence|exact Hlast].
      * right. split; [constructor; [reflexivity|exact Hall]|exact Hown].
    + rewrite Hrej. simpl. left. split; [constructor|].
      eexists. split; reflexivity.
  - destruct (Async.clock h w) as [now w1]. specialize (IH now w1).
    destruct (Async.run h (k now) w1) as [[tr o] w2]. simpl in *.
    destruct o as [a|msg]; [constructor; [reflexivity|exact IH]|].
    destruct IH as [[Hpre (y & Hlast & Hy)]|[Hall Hown]].
    + left. assert (Hne : tr <> []) by (destruct tr; [discriminate|discriminate]).
      rewrite removelast_cons by exact Hne.
      split; [constructor; [reflexivity|exact Hpre]|].
      exists y. split; [|exact Hy]. destruct tr; [congruence|exact Hlast].
    + right. split; [constructor; [reflexivity|exact Hall]|exact Hown].
Qed.

End AsyncFacts.

Module MoveFacts.

Import DownloadQueue QueueInv QueueMoves QueueFacts.

Lemma moves_trans s1 s2 s3 : moves s1 s2 -> moves s2 s3 -> moves s1 s3.
Proof.
  intros H12 H23. induction H23 as [|s2 s3 s4 _ IH Hm]; [exact H12|].
  eapply moves_step; [apply IH; exact H12|exact Hm].
Qed.

Lemma moves_one s1 s2 : move s1 s2 -> moves s1 s2.
Proof. intros H. eapply moves_step; [apply moves_refl|exact H]. Qed.

Lemma control_moves q q' ths : control q q' -> moves (mkSystem q ths) (mkSystem q' ths).
Proof. intros H. apply moves_one, move_control, H. Qed.

Lemma control_finishQueue q : control q (finishQueue q).
Proof.
  exists false, (isPaused q),
    [queueCompleted (Stats.completed (stats q)) (Stats.failed (stats q))
                    (Stats.totalQueued (stats q))].
  split; reflexivity.
Qed.

Lemma run_processQueue_moves q ths :
  moves (mkSystem q ths) (run_processQueue (mkSystem q ths)).
Proof.
  pose proof (run_processQueue_ind
                (fun q' ths' => moves (mkSystem q ths) (mkSystem q' ths'))) as Hind.
  destruct (run_processQueue (mkSystem q ths)) as [q' ths'] eqn:E.
  change q' with (this (mkSystem q' ths')).
  change ths' with (threads (mkSystem q' ths')) at 2.
  rewrite <- E. apply Hind.
  - intros q1 ths1 H. eapply moves_step; [exact H|].
    apply move_control, control_finishQueue.
  - intros q1 ths1 ms H. eapply moves_step; [exact H|]. apply move_spawn.
  - intros q1 ths1 task rest H Hq Hlt. eapply moves_step; [exact H|].
    apply move_launch; assumption.
  - apply moves_refl.
Qed.

Lemma start_moves s : moves s (start s).
Proof.
  unfold start. destruct (isRunning (this s)) eqn:Hrun; [apply moves_refl|].
  eapply moves_trans; [|apply run_processQueue_moves].
  destruct s as [q ths]. apply control_moves.
  exists true, false, [queueStarted]. split; reflexivity.
Qed.

Lemma resume_moves s : moves s (resume s).
Proof.
  unfold resume.
  eapply moves_trans; [|apply run_processQueue_moves].
  destruct s as [q ths]. apply control_moves.
  exists (isRunning q), false, [queueResumed]. split; reflexivity.
Qed.

Lemma delete_app_last {A : Type} (l : list A) (x : A) (new : list A) :
  delete (length l) (l ++ [x]) ++ new = l ++ new.
Proof.
  induction l as [|y l IH]; simpl; [reflexivity|].
  f_equal. exact IH.
Qed.

Lemma lookup_app_last {A : Type} (l : list A) (x : A) :
  (l ++ [x]) !! length l = Some x.
Proof. induction l as [|y l IH]; simpl; [reflexivity|exact IH]. Qed.

Lemma handleTaskError_retry_moves q ths i th r :
  ths !! i = Some th -> awaiting r th ->
  moves (mkSystem q ths)
        (mkSystem (fst (handleTaskError_retry r q))
                  (delete i ths ++ snd (handleTaskError_retry r q))).
Proof.
  intros Hth Haw. unfold handleTaskError_retry.
  destruct (Z.ltb_spec (attempts_of q r) (retryAttempts q)) as [Hlt|Hge]; simpl.
  - apply moves_one. eapply move_retry_sleep; eauto.
  - apply moves_one. apply (move_fail q ths i th r Hth Haw Hge).
Qed.

Lemma continue_moves q ths i th a q' new :
  ths !! i = Some th -> continue th a q = Some (q', new) ->
  moves (mkSystem q ths) (mkSystem q' (delete i ths ++ new)).
Proof.
  intros Hth Hc.
  destruct th as [ms|x|x e ms|x ms|x|x ms], a; simpl in Hc; try discriminate;
    apply (inj Some) in Hc; rename Hc into Hres.
  - eapply moves_trans; [apply moves_one, (move_wake q ths i ms Hth)|].
    pose proof (run_processQueue_moves q (delete i ths)) as H.
    unfold run_processQueue in H. simpl in H. rewrite Hres in H. exact H.
  - eapply moves_trans; [apply moves_one, (move_success q ths i x Hth)|].
    pose proof (move_finally (processTask_success x q) (delete i ths ++ [InErrorHandled x])
                             (length (delete i ths)) x (lookup_app_last _ _)) as H.
    rewrite delete_app_last in H. rewrite Hres in H. simpl in H.
    apply moves_one. exact H.
  - eapply moves_trans;
      [apply moves_one, (move_error q ths i x (Some (message e)) Hth)|].
    unfold handleTaskError in Hres. destruct (rate_limited e).
    + injection Hres as <- <-. apply moves_one. apply move_backoff. exact Hth.
    + pose proof (handleTaskError_retry_moves
                    (update_task x (Task.with_error (Some (message e))) q) ths i _ x Hth
                    eq_refl) as H.
      rewrite Hres in H. exact H.
  - unfold handleTaskError_after_backoff in Hres.
    destruct (Z.ltb_spec (attempts_of q x) (retryAttempts q)) as [Hlt|Hge].
    + injection Hres as <- <-. apply moves_one.
      apply (move_requeue_backoff q ths i x e ms Hth Hlt).
    + pose proof (handleTaskError_retry_moves q ths i _ x Hth eq_refl) as H.
      rewrite Hres in H. exact H.
  - injection Hres as <- <-. apply moves_one.
    apply (move_requeue_sleep q ths i x ms Hth).
  - pose proof (move_finally q ths i x Hth) as H. rewrite Hres in H.
    apply moves_one. exact H.
  - injection Hres as <- <-. rewrite app_nil_r. apply moves_one.
    apply (move_cooled q ths i x ms Hth).
Qed.

Section Steps.

Variable isF1tvUrl : string -> bool.

Lemma step_moves s l s' : step isF1tvUrl s l = Some s' -> moves s s'.
Proof.
  intros Hs. destruct l; simpl in Hs.
  - unfold addDownload in Hs.
    destruct (negb (isF1tvUrl (Task.url (new_task c)))); injection Hs as <-;
      [apply moves_refl|].
    assert (Hpush : moves s (mkSystem (enqueue (new_task c) (this s)) (threads s))).
    { destruct s as [q ths]. apply moves_one, move_enqueue; reflexivity. }
    match goal with |- context [if ?b then _ else _] => destruct b end.
    + exact Hpush.
    + eapply moves_trans; [exact Hpush|apply start_moves].
  - injection Hs as <-. apply start_moves.
  - injection Hs as <-. destruct s as [q ths]. apply control_moves.
    exists false, (isPaused q), [queueStopped]. split; reflexivity.
  - injection Hs as <-. destruct s as [q ths]. apply control_moves.
    exists (isRunning q), true, [queuePaused]. split; reflexivity.
  - injection Hs as <-. apply resume_moves.
  - injection Hs as <-. destruct s as [q ths]. apply moves_one, move_clearHistory.
  - destruct s as [q ths]. simpl in Hs.
    destruct (ths !! i) as [th|] eqn:Hth; [|discriminate].
    destruct (continue th a q) as [[q' new]|] eqn:Hc; [|discriminate].
    injection Hs as <-. eapply continue_moves; eauto.
Qed.

Lemma run_moves ls : forall s s', run isF1tvUrl s ls = Some s' -> moves s s'.
Proof.
  induction ls as [|l ls IH]; intros s s' Hr; simpl in Hr.
  - injection Hr as <-. apply moves_refl.
  - destruct (step isF1tvUrl s l) as [s1|] eqn:Hs; [|discriminate].
    eapply moves_trans; [eapply step_moves; eauto|apply IH; exact Hr].
Qed.

(** A property that holds of a new queue and is kept by every move holds
    in every reachable state. *)
Lemma reachable_ind (P : system -> Prop) o :
  P (mkSystem (new o) []) ->
  (forall s s', P s -> move s s' -> P s') ->
  forall s, reachable isF1tvUrl o s -> P s.
Proof.
  intros Hinit Hmove s [ls Hr]. apply run_moves in Hr.
  induction Hr as [|s1 s2 s3 _ IH Hm]; [exact Hinit|].
  eapply Hmove; [apply IH; exact Hinit|exact Hm].
Qed.

End Steps.

(** ** The per-task invariant, move by move *)

Lemma awaiting_executing r th x :
  awaiting r th -> executing x th = (if Nat.eqb r x then 1%nat else O) /\ finishing x th = O.
Proof. destruct th; simpl; try contradiction; intros ->; split; reflexivity. Qed.

Lemma handleTaskError_retry_sleep r q :
  attempts_of q r < retryAttempts q ->
  handleTaskError_retry r q
  = (q, [InRetrySleep r (inject_Z (retryDelay q) * Qpower 2 (attempts_of q r - 1))%Q]).
Proof.
  intros H. unfold handleTaskError_retry.
  rewrite (proj2 (Z.ltb_lt _ _) H). reflexivity.
Qed.

Lemma handleTaskError_retry_exhausted r q :
  retryAttempts q <= attempts_of q r ->
  handleTaskError_retry r q = (exhausted r q, [InErrorHandled r]).
Proof.
  intros H. unfold handleTaskError_retry.
  rewrite (proj2 (Z.ltb_ge _ _) H). reflexivity.
Qed.

Lemma job_inv_success x q ths i r :
  ths !! i = Some (InDownload x) ->
  job_inv (mkSystem q ths) r ->
  job_inv (mkSystem (processTask_success x q) (delete i ths ++ [InErrorHandled x])) r.
Proof.
  intros Hth [Ha Ht Hc Hf]. simpl in Ha, Ht, Hc, Hf.
  pose proof (total_delete (executing r) ths i _ Hth) as He.
  pose proof (total_delete (finishing r) ths i _ Hth) as Hl.
  simpl in He, Hl. clear Hth.
  case_eqb x r.
  - apply token_allocated in Ht as (Hal & Hterm & Hn); [|lia].
    apply terminal_false in Hterm as [Hcm Hfl]. rewrite Hcm in Hc. rewrite Hfl in Hf.
    constructor; simpl; rewrite ?total_app, ?count_app; simpl;
      rewrite ?Nat.eqb_refl; status_norm; rewrite ?Hal; simpl in *; lia.
  - constructor; simpl; rewrite ?total_app, ?count_app; simpl;
      rewrite ?Eb; status_norm; lia.
Qed.

Lemma job_inv_move s s' :
  move s s' -> (forall r, job_inv s r) -> forall r, job_inv s' r.
Proof.
  intros Hm Hinv r. specialize (Hinv r).
  destruct Hm as [q ths task Hst Hat|q q' ths Hctl|q ths|q ths ms|q ths task rest Hq Hlt
                  |q ths i ms Hth|q ths i x ms Hth|q ths i x Hth|q ths i x Hth
                  |q ths i x msg Hth|q ths i x e ms Hth|q ths i th x ms Hth Haw Hlt
                  |q ths i th x Hth Haw Hge|q ths i x e ms Hth Hlt|q ths i x ms Hth].
  - apply job_inv_enqueue; assumption.
  - destruct Hctl as (running & paused & evs & _ & ->).
    revert Hinv. apply job_inv_same; reflexivity.
  - apply job_inv_clearHistory. exact Hinv.
  - apply job_inv_scheduler. exact Hinv.
  - apply job_inv_launch; assumption.
  - apply (job_inv_swap q ths i _ [] r Hth) in Hinv; [|reflexivity|reflexivity].
    rewrite app_nil_r in Hinv. exact Hinv.
  - apply (job_inv_swap q ths i _ [] r Hth) in Hinv; [|reflexivity|reflexivity].
    rewrite app_nil_r in Hinv. exact Hinv.
  - apply job_inv_success; assumption.
  - apply job_inv_finally; assumption.
  - apply job_inv_set_error. exact Hinv.
  - apply (job_inv_swap q ths i _ _ r Hth); [simpl; lia|reflexivity|exact Hinv].
  - destruct (awaiting_executing x th r Haw) as [He Hf].
    pose proof (job_inv_retry x q ths i th r Hth He Hf Hinv) as H.
    rewrite handleTaskError_retry_sleep in H by exact Hlt. simpl in H.
    revert H. apply job_inv_same; try reflexivity; rewrite !total_app; reflexivity.
  - destruct (awaiting_executing x th r Haw) as [He Hf].
    pose proof (job_inv_retry x q ths i th r Hth He Hf Hinv) as H.
    rewrite handleTaskError_retry_exhausted in H by exact Hge. exact H.
  - apply (job_inv_requeue x q ths i _ r Hth); [reflexivity|reflexivity|exact Hinv].
  - apply (job_inv_requeue x q ths i _ r Hth); [reflexivity|reflexivity|exact Hinv].
Qed.

End MoveFacts.

Module AccountFacts.

Import DownloadQueue QueueInv QueueMoves QueueAccounts QueueFacts MoveFacts.

Lemma started_app r l1 l2 : started r (l1 ++ l2) = (started r l1 + started r l2)%nat.
Proof.
  induction l1 as [|e l1 IH]; simpl; [reflexivity|].
  destruct e; rewrite ?IH; lia.
Qed.

Lemma started_queue_events r evs : forallb queue_event evs = true -> started r evs = O.
Proof.
  induction evs as [|e evs IH]; simpl; [reflexivity|].
  intros H. apply andb_prop in H as [He Hevs].
  destruct e; try discriminate; auto.
Qed.

Lemma attempts_of_update_keep x f q r :
  (forall k, Task.attempts (f k) = Task.attempts k) ->
  attempts_of (update_task x f q) r = attempts_of q r.
Proof.
  intros Hf. unfold attempts_of, update_task. simpl.
  destruct (Nat.eq_dec x r) as [->|Hne].
  - rewrite list_lookup_alter_eq. destruct (store q !! r); simpl; auto.
  - rewrite list_lookup_alter_ne by exact Hne. reflexivity.
Qed.

Lemma attempts_of_launch task rest q r :
  allocated (store q) task = true ->
  attempts_of (launch task rest q) r
  = attempts_of q r + (if Nat.eqb task r then 1 else 0).
Proof.
  intros Hal. unfold attempts_of, launch, processTask_begin, update_task. simpl.
  destruct (Nat.eqb_spec task r) as [->|Hne].
  - rewrite !list_lookup_alter_eq.
    apply Nat.ltb_lt in Hal. apply lookup_lt_is_Some_2 in Hal as [k ->]. reflexivity.
  - rewrite !list_lookup_alter_ne by exact Hne. lia.
Qed.

Lemma attempts_of_unallocated q r : allocated (store q) r = false -> attempts_of q r = 0.
Proof.
  intros H. unfold attempts_of. apply Nat.ltb_ge in H.
  rewrite lookup_ge_None_2 by exact H. reflexivity.
Qed.

Lemma attempts_of_enqueue task q r :
  Task.attempts task = 0 -> attempts_of (enqueue task q) r = attempts_of q r.
Proof.
  intros Hat. unfold attempts_of, enqueue. simpl.
  destruct (Nat.lt_total r (length (store q))) as [Hlt|[->|Hgt]].
  - rewrite lookup_app_l by exact Hlt. reflexivity.
  - rewrite lookup_app_r by lia. rewrite Nat.sub_diag. simpl.
    rewrite lookup_ge_None_2 by lia. exact Hat.
  - rewrite !lookup_ge_None_2; [reflexivity|lia|rewrite length_app; simpl; lia].
Qed.

Lemma In_delete {A : Type} (x : A) i l : In x (delete i l) -> In x l.
Proof.
  revert i. induction l as [|y l IH]; intros [|i]; simpl; auto.
  intros [H|H]; [left; exact H|right; eapply IH; exact H].
Qed.

Lemma sleeping_executing r ms ths :
  In (InRetrySleep r ms) ths -> (0 < total (executing r) ths)%nat.
Proof.
  induction ths as [|th ths IH]; simpl; [contradiction|].
  intros [->|H]; [simpl; rewrite Nat.eqb_refl; lia|].
  specialize (IH H). lia.
Qed.

Lemma finally_frame x q :
  let q' := fst (processTask_finally x q) in
  retryAttempts q' = retryAttempts q /\ emitted q' = emitted q /\ store q' = store q
  /\ queue q' = queue q /\ stats q' = stats q
  /\ forall r ms, ~ In (InRetrySleep r ms) (snd (processTask_finally x q)).
Proof.
  unfold processTask_finally.
  destruct (findIndex x (active q)); goal_if; simpl; repeat split; auto;
    intros r ms [H|[]]; discriminate.
Qed.

Ltac sleeper H :=
  apply in_app_iff in H as [H|H];
  [apply In_delete in H|simpl in H; destruct H as [H|[]]; try discriminate].

Lemma attempts_inv_move s s' :
  move s s' -> (forall r, job_inv s r) ->
  (forall r, attempts_inv s r) -> forall r, attempts_inv s' r.
Proof.
  intros Hm Hjob Hinv r. pose proof (Hjob r) as [Ja Jt Jc Jf].
  pose proof (Hinv r) as [Hs Hp Hb Hz].
  destruct Hm as [q ths task Hst Hat|q q' ths Hctl|q ths|q ths ms|q ths task rest Hq Hlt
                  |q ths i ms Hth|q ths i x ms Hth|q ths i x Hth|q ths i x Hth
                  |q ths i x msg Hth|q ths i x e ms Hth|q ths i th x ms Hth Haw Hlt
                  |q ths i th x Hth Haw Hge|q ths i x e ms Hth Hlt|q ths i x ms Hth];
    simpl in Ja, Jt, Jc, Jf, Hs, Hp, Hb, Hz.
  - constructor; simpl this; simpl threads;
      rewrite ?(attempts_of_enqueue task q r Hat);
      change (retryAttempts (enqueue task q)) with (retryAttempts q).
    + change (emitted (enqueue task q)) with (emitted q ++ [taskAdded (length (store q))]).
      rewrite started_app. simpl. lia.
    + change (queue (enqueue task q)) with (queue q ++ [length (store q)]).
      rewrite count_app. simpl. intros H.
      destruct (count r (queue q)) eqn:Hc; [|apply Hp; lia].
      destruct (Nat.eqb_spec (length (store q)) r) as [<-|]; [|simpl in H; lia].
      rewrite attempts_of_unallocated; [lia|]. apply Nat.ltb_ge. lia.
    + exact Hb.
    + exact Hz.
  - destruct Hctl as (running & paused & evs & Hev & ->).
    constructor; simpl; auto.
    rewrite started_app, (started_queue_events r evs Hev), Nat.add_0_r. exact Hs.
  - constructor; simpl; auto.
  - constructor; simpl; auto.
    intros ms' H. apply in_app_iff in H as [H|[H|[]]]; [eauto|discriminate].
  - rewrite Hq in Jt, Hp. simpl in Jt, Hp.
    assert (Hal : allocated (store q) task = true).
    { pose proof (Hjob task) as [_ Jt' _ _]. simpl in Jt'. rewrite Hq in Jt'.
      simpl in Jt'. rewrite Nat.eqb_refl in Jt'.
      apply token_allocated in Jt' as (H & _); [exact H|lia]. }
    constructor; simpl this; simpl threads;
      rewrite ?(attempts_of_launch task rest q r Hal);
      change (retryAttempts (launch task rest q)) with (retryAttempts q);
      change (emitted (launch task rest q)) with (emitted q ++ [taskStarted task]);
      rewrite ?launch_queue; rewrite ?started_app; simpl;
      destruct (Nat.eqb_spec task r) as [->|Hne].
    + lia.
    + lia.
    + intros H. apply token_allocated in Jt as (_ & _ & Hn); lia.
    + intros H. specialize (Hp ltac:(lia)). lia.
    + specialize (Hp ltac:(lia)). lia.
    + lia.
    + intros ms H. apply in_app_iff in H as [H|[H|[]]]; [|discriminate].
      apply sleeping_executing in H.
      apply token_allocated in Jt as (_ & _ & Hn); lia.
    + intros ms H. apply in_app_iff in H as [H|[H|[]]]; [|discriminate].
      specialize (Hz ms H). lia.
  - constructor; simpl; auto. intros ms' H. apply In_delete in H. eauto.
  - constructor; simpl; auto. intros ms' H. apply In_delete in H. eauto.
  - constructor; simpl this; simpl threads;
      change (retryAttempts (processTask_success x q)) with (retryAttempts q);
      change (queue (processTask_success x q)) with (queue q);
      change (emitted (processTask_success x q)) with (emitted q ++ [taskCompleted x]);
      change (attempts_of (processTask_success x q) r)
        with (attempts_of (update_task x (Task.with_status Task.Completed) q) r);
      rewrite ?attempts_of_update_keep by (intros []; reflexivity); auto.
    + rewrite started_app. simpl. lia.
    + intros ms H. sleeper H. eauto.
  - destruct (finally_frame x q) as (ER & Ee & Es & Eq & _ & Hnew).
    constructor; simpl this; simpl threads; unfold attempts_of;
      rewrite ?ER, ?Ee, ?Es, ?Eq; auto.
    intros ms H. apply in_app_iff in H as [H|H]; [apply In_delete in H|].
    + exact (Hz ms H).
    + exfalso. exact (Hnew r ms H).
  - constructor; simpl this; simpl threads;
      change (retryAttempts (update_task x (Task.with_error msg) q)) with (retryAttempts q);
      rewrite ?attempts_of_update_keep by (intros []; reflexivity); auto.
  - constructor; simpl; auto. intros ms' H. sleeper H. eauto.
  - constructor; simpl; auto. intros ms' H. sleeper H; [eauto|].
    injection H as <- _. exact Hlt.
  - constructor; simpl this; simpl threads;
      change (retryAttempts (exhausted x q)) with (retryAttempts q);
      change (queue (exhausted x q)) with (queue q);
      change (emitted (exhausted x q)) with (emitted q ++ [taskFailed x]);
      change (attempts_of (exhausted x q) r)
        with (attempts_of (update_task x (Task.with_status Task.Failed) q) r);
      rewrite ?attempts_of_update_keep by (intros []; reflexivity); auto.
    + rewrite started_app. simpl. lia.
    + intros ms H. sleeper H. eauto.
  - constructor; simpl this; simpl threads; unfold attempts_of in *; simpl; auto.
    + destruct (Nat.eqb_spec x r) as [->|Hne]; [intros _; lia|exact Hp].
    + intros ms' H. sleeper H. eauto.
  - constructor; simpl this; simpl threads; unfold attempts_of in *; simpl; auto.
    + destruct (Nat.eqb_spec x r) as [->|Hne]; [|exact Hp].
      intros _.
      assert (H : match store q !! r with Some k => Task.attempts k | None => 0 end
                  < retryAttempts q); [|lia].
      apply (Hz ms). eapply list_elem_of_In, list_elem_of_lookup_2. exact Hth.
    + intros ms' H. sleeper H. eauto.
Qed.

(** *** Statuses, counters and terminal events *)

Lemma finished_app r l1 l2 : finished r (l1 ++ l2) = (finished r l1 + finished r l2)%nat.
Proof.
  induction l1 as [|e l1 IH]; simpl; [reflexivity|].
  destruct e; rewrite ?IH; lia.
Qed.

Lemma finished_queue_events r evs : forallb queue_event evs = true -> finished r evs = O.
Proof.
  induction evs as [|e evs IH]; simpl; [reflexivity|].
  intros H. apply andb_prop in H as [He Hevs].
  destruct e; try discriminate; auto.
Qed.

Lemma tasks_with_app a st1 st2 :
  tasks_with a (st1 ++ st2) = (tasks_with a st1 + tasks_with a st2)%nat.
Proof. induction st1 as [|k st1 IH]; simpl; [reflexivity|]. rewrite IH. lia. Qed.

Lemma tasks_with_alter a f x st :
  (tasks_with a (alter f x st) + indicator (has_status st x a))%nat
  = (tasks_with a st + indicator (has_status (alter f x st) x a))%nat.
Proof.
  revert x. induction st as [|k st IH]; intros [|x]; simpl; try reflexivity.
  - unfold has_status. simpl. lia.
  - specialize (IH x). unfold has_status in *. simpl.
    change (list_alter f x st) with (alter f x st). lia.
Qed.

Lemma tasks_with_bound st :
  (tasks_with Task.Completed st + tasks_with Task.Failed st <= length st)%nat.
Proof.
  induction st as [|k st IH]; simpl; [lia|].
  destruct (Task.status k); simpl; lia.
Qed.

Lemma tasks_with_terminal st :
  (forall r, allocated st r = true -> terminal st r = true) ->
  (tasks_with Task.Completed st + tasks_with Task.Failed st)%nat = length st.
Proof.
  induction st as [|k st IH]; intros H; simpl; [reflexivity|].
  assert (Hst : (tasks_with Task.Completed st + tasks_with Task.Failed st)%nat = length st).
  { apply IH. intros r Hal. apply (H (S r)). exact Hal. }
  specialize (H O eq_refl). unfold terminal, has_status in H. simpl in H.
  destruct (Task.status k); simpl in *; try discriminate; lia.
Qed.

(** A task that waits in the queue or whose outcome is open is stored
    and not terminal. *)
Lemma open_not_terminal s r :
  job_inv s r ->
  (0 < count r (queue (this s)) + total (executing r) (threads s))%nat ->
  allocated (store (this s)) r = true
  /\ has_status (store (this s)) r Task.Completed = false
  /\ has_status (store (this s)) r Task.Failed = false.
Proof.
  intros [_ Jt _ _] H. apply token_allocated in Jt as (Hal & Hterm & _); [|exact H].
  split; [exact Hal|]. apply terminal_false. exact Hterm.
Qed.

Lemma lookup_executing ths i th r :
  ths !! i = Some th -> (executing r th <= total (executing r) ths)%nat.
Proof.
  intros H. pose proof (total_delete (executing r) ths i th H). lia.
Qed.

Lemma stats_inv_move s s' :
  move s s' -> (forall r, job_inv s r) -> stats_inv (this s) -> stats_inv (this s').
Proof.
  intros Hm Hjob [Ht Hc Hf Hb Hv].
  destruct Hm as [q ths task Hst Hat|q q' ths Hctl|q ths|q ths ms|q ths task rest Hq Hlt
                  |q ths i ms Hth|q ths i x ms Hth|q ths i x Hth|q ths i x Hth
                  |q ths i x msg Hth|q ths i x e ms Hth|q ths i th x ms Hth Haw Hlt
                  |q ths i th x Hth Haw Hge|q ths i x e ms Hth Hlt|q ths i x ms Hth];
    simpl in Ht, Hc, Hf, Hb, Hv; simpl this;
    try (constructor; assumption).
  - constructor; simpl; rewrite ?length_app, ?tasks_with_app; simpl; rewrite ?Hst; simpl;
      lia.
  - destruct Hctl as (running & paused & evs & _ & ->). constructor; assumption.
  - destruct (open_not_terminal _ task (Hjob task)) as (Hal & Hcm & Hfl).
    { simpl. rewrite Hq. simpl. rewrite Nat.eqb_refl. lia. }
    simpl in Hal, Hcm, Hfl.
    assert (Hkeep : forall a,
               a <> Task.Downloading -> has_status (store q) task a = false ->
               tasks_with a (store (launch task rest q)) = tasks_with a (store q)).
    { intros a Ha Hno.
      change (store (launch task rest q))
        with (alter (fun k => Task.with_attempts (Task.attempts k + 1) k) task
                    (alter (Task.with_status Task.Downloading) task (store q))).
      pose proof (tasks_with_alter a (fun k => Task.with_attempts (Task.attempts k + 1) k) task
                    (alter (Task.with_status Task.Downloading) task (store q))) as H1.
      pose proof (tasks_with_alter a (Task.with_status Task.Downloading) task (store q)) as H2.
      rewrite (has_status_alter_keep (fun k => Task.with_attempts (Task.attempts k + 1) k))
        in H1 by (intros []; reflexivity).
      rewrite has_status_alter_set in H1, H2 by exact Hal.
      rewrite Hno in H2. destruct a; simpl in *; try congruence; lia. }
    constructor; simpl stats;
      rewrite ?(Hkeep Task.Completed) by (discriminate || assumption);
      rewrite ?(Hkeep Task.Failed) by (discriminate || assumption);
      try assumption.
    change (length (store (launch task rest q)))
      with (length (alter (fun k => Task.with_attempts (Task.attempts k + 1) k) task
                          (alter (Task.with_status Task.Downloading) task (store q)))).
    rewrite !length_alter. exact Ht.
  - destruct (open_not_terminal _ x (Hjob x)) as (Hal & Hcm & Hfl).
    { simpl. pose proof (lookup_executing ths i _ x Hth) as H. simpl in H.
      rewrite Nat.eqb_refl in H. lia. }
    simpl in Hal, Hcm, Hfl.
    pose proof (tasks_with_alter Task.Completed (Task.with_status Task.Completed) x (store q))
      as H1.
    pose proof (tasks_with_alter Task.Failed (Task.with_status Task.Completed) x (store q))
      as H2.
    rewrite has_status_alter_set in H1, H2 by exact Hal.
    rewrite Hcm in H1. rewrite Hfl in H2. simpl in H1, H2.
    constructor; simpl; rewrite ?length_alter; try assumption; lia.
  - destruct (finally_frame x q) as (_ & _ & Es & _ & Est & _).
    constructor; rewrite ?Es, ?Est; assumption.
  - constructor; simpl; rewrite ?length_alter; try assumption.
    + pose proof (tasks_with_alter Task.Completed (Task.with_error msg) x (store q)) as H.
      rewrite has_status_alter_keep in H by (intros []; reflexivity). lia.
    + pose proof (tasks_with_alter Task.Failed (Task.with_error msg) x (store q)) as H.
      rewrite has_status_alter_keep in H by (intros []; reflexivity). lia.
  - destruct (open_not_terminal _ x (Hjob x)) as (Hal & Hcm & Hfl).
    { simpl. pose proof (lookup_executing ths i _ x Hth) as H.
      destruct (awaiting_executing x th x Haw) as [He _].
      rewrite He, Nat.eqb_refl in H. lia. }
    simpl in Hal, Hcm, Hfl.
    pose proof (tasks_with_alter Task.Completed (Task.with_status Task.Failed) x (store q))
      as H1.
    pose proof (tasks_with_alter Task.Failed (Task.with_status Task.Failed) x (store q))
      as H2.
    rewrite has_status_alter_set in H1, H2 by exact Hal.
    rewrite Hcm in H1. rewrite Hfl in H2. simpl in H1, H2.
    constructor; simpl; rewrite ?length_alter; try assumption; lia.
Qed.

Lemma outcome_move s s' :
  move s s' -> (forall r, job_inv s r) ->
  (forall r, finished r (emitted (this s)) = indicator (terminal (store (this s)) r)) ->
  forall r, finished r (emitted (this s')) = indicator (terminal (store (this s')) r).
Proof.
  intros Hm Hjob Hinv r. specialize (Hinv r).
  destruct Hm as [q ths task Hst Hat|q q' ths Hctl|q ths|q ths ms|q ths task rest Hq Hlt
                  |q ths i ms Hth|q ths i x ms Hth|q ths i x Hth|q ths i x Hth
                  |q ths i x msg Hth|q ths i x e ms Hth|q ths i th x ms Hth Haw Hlt
                  |q ths i th x Hth Haw Hge|q ths i x e ms Hth Hlt|q ths i x ms Hth];
    simpl in Hinv; simpl this; try exact Hinv.
  - change (emitted (enqueue task q)) with (emitted q ++ [taskAdded (length (store q))]).
    change (store (enqueue task q)) with (store q ++ [task]).
    rewrite finished_app, Hinv. simpl. rewrite Nat.add_0_r. f_equal.
    unfold terminal, has_status.
    destruct (Nat.lt_total r (length (store q))) as [Hlt|[->|Hgt]].
    + rewrite lookup_app_l by exact Hlt. reflexivity.
    + rewrite lookup_app_r by lia. rewrite Nat.sub_diag. simpl.
      rewrite lookup_ge_None_2 by lia. rewrite Hst. reflexivity.
    + rewrite !lookup_ge_None_2; [reflexivity|rewrite length_app; simpl; lia|lia].
  - destruct Hctl as (running & paused & evs & Hev & ->). simpl.
    rewrite finished_app, (finished_queue_events r evs Hev), Nat.add_0_r. exact Hinv.
  - destruct (open_not_terminal _ task (Hjob task)) as (Hal & Hcm & Hfl).
    { simpl. rewrite Hq. simpl. rewrite Nat.eqb_refl. lia. }
    simpl in Hal, Hcm, Hfl.
    change (emitted (launch task rest q)) with (emitted q ++ [taskStarted task]).
    change (store (launch task rest q))
      with (alter (fun k => Task.with_attempts (Task.attempts k + 1) k) task
                  (alter (Task.with_status Task.Downloading) task (store q))).
    rewrite finished_app, Hinv. simpl. rewrite Nat.add_0_r. f_equal.
    destruct (Nat.eq_dec task r) as [->|Hne]; status_norm; [|reflexivity].
    rewrite Hcm, Hfl. reflexivity.
  - destruct (open_not_terminal _ x (Hjob x)) as (Hal & Hcm & Hfl).
    { simpl. pose proof (lookup_executing ths i _ x Hth) as H. simpl in H.
      rewrite Nat.eqb_refl in H. lia. }
    simpl in Hal, Hcm, Hfl.
    change (emitted (processTask_success x q)) with (emitted q ++ [taskCompleted x]).
    change (store (processTask_success x q))
      with (alter (Task.with_status Task.Completed) x (store q)).
    rewrite finished_app, Hinv. simpl.
    case_eqb x r; status_norm; [|lia].
    rewrite Hcm, Hfl. reflexivity.
  - destruct (finally_frame x q) as (_ & Ee & Es & _).
    rewrite Ee, Es. exact Hinv.
  - simpl. status_norm. exact Hinv.
  - destruct (open_not_terminal _ x (Hjob x)) as (Hal & Hcm & Hfl).
    { simpl. pose proof (lookup_executing ths i _ x Hth) as H.
      destruct (awaiting_executing x th x Haw) as [He _].
      rewrite He, Nat.eqb_refl in H. lia. }
    simpl in Hal, Hcm, Hfl.
    change (emitted (exhausted x q)) with (emitted q ++ [taskFailed x]).
    change (store (exhausted x q))
      with (alter (Task.with_status Task.Failed) x (store q)).
    rewrite finished_app, Hinv. simpl.
    case_eqb x r; status_norm; [|lia].
    rewrite Hcm, Hfl. reflexivity.
Qed.

End AccountFacts.

(** * Further properties of the download queue *)

Module QueueMore.

Import DownloadQueue QueueInv QueueMoves QueueAccounts QueueHold.
Import QueueFacts MoveFacts AccountFacts.

Section Reach.

Variable isF1tvUrl : string -> bool.

Lemma accounts_reachable o s :
  reachable isF1tvUrl o s ->
  (forall r, job_inv s r)
  /\ (forall r, attempts_inv s r)
  /\ stats_inv (this s)
  /\ (forall r, finished r (emitted (this s)) = indicator (terminal (store (this s)) r)).
Proof.
  apply (reachable_ind isF1tvUrl
           (fun s => (forall r, job_inv s r)
                     /\ (forall r, attempts_inv s r)
                     /\ stats_inv (this s)
                     /\ (forall r, finished r (emitted (this s))
                                   = indicator (terminal (store (this s)) r)))).
  - split; [intros r; apply job_inv_init|].
    split; [|split; [constructor; reflexivity|]].
    + intros r. constructor; simpl; unfold attempts_of; simpl; try lia.
      all: intros ms [].
    + intros r. unfold terminal, has_status. simpl. reflexivity.
  - intros s1 s2 (Hjob & Hatt & Hst & Hout) Hm.
    split; [exact (job_inv_move s1 s2 Hm Hjob)|].
    split; [exact (attempts_inv_move s1 s2 Hm Hjob Hatt)|].
    split; [exact (stats_inv_move s1 s2 Hm Hjob Hst)|].
    exact (outcome_move s1 s2 Hm Hjob Hout).
Qed.

End Reach.

(** X1.  The retry limit is kept.  Between any two uninterrupted pieces
    of code, the attempts counter of a task is the number of taskStarted
    events emitted for it, and it is at most retryAttempts, or 1 when
    retryAttempts is less; retryAttempts is options.retryAttempts || 3. *)
Theorem attempts_within_limit isF1tvUrl o s r :
  reachable isF1tvUrl o s ->
  retryAttempts (this s) = Js.or_num (Options.retryAttempts o) 3
  /\ attempts_of (this s) r = Z.of_nat (started r (emitted (this s)))
  /\ attempts_of (this s) r <= Z.max 1 (retryAttempts (this s)).
Proof.
  intros Hr.
  destruct (bounded_reachable _ _ _ Hr) as [(_ & _ & HR & _) _].
  destruct (accounts_reachable isF1tvUrl o s Hr) as (_ & Hatt & _).
  destruct (Hatt r) as [Hs _ Hb _].
  split; [exact HR|]. split; [symmetry; exact Hs|exact Hb].
Qed.

Lemma attempts_within_limit_witness :
  reachable Scenarios.any_url Scenarios.Options_default
            (Scenarios.state_after Scenarios.Options_default QueueRuns.retried)
  /\ attempts_of (this (Scenarios.state_after Scenarios.Options_default QueueRuns.retried))
                 0%nat = 2
  /\ 2 <= Z.max 1 (retryAttempts (this (Scenarios.state_after Scenarios.Options_default
                                                               QueueRuns.retried))).
Proof.
  assert (H : reachable Scenarios.any_url Scenarios.Options_default
                (Scenarios.state_after Scenarios.Options_default QueueRuns.retried)).
  { exists QueueRuns.retried. vm_compute. reflexivity. }
  split; [exact H|]. split; [vm_compute; reflexivity|].
  pose proof (proj2 (proj2 (attempts_within_limit _ _ _ 0%nat H))) as Hb.
  exact Hb.
Defined.

(** X2.  The counters of this.stats count tasks.  Between any two
    uninterrupted pieces of code, stats.totalQueued is the number of tasks
    added, stats.completed the number of tasks whose status is
    'completed', stats.failed the number whose status is 'failed', and
    stats.bytesDownloaded and stats.averageSpeed are 0, as no method
    writes them; so stats.completed + stats.failed never exceeds
    stats.totalQueued. *)
Theorem stats_count_tasks isF1tvUrl o s :
  reachable isF1tvUrl o s ->
  stats_inv (this s)
  /\ Stats.completed (stats (this s)) + Stats.failed (stats (this s))
     <= Stats.totalQueued (stats (this s)).
Proof.
  intros Hr.
  destruct (accounts_reachable isF1tvUrl o s Hr) as (_ & _ & Hst & _).
  split; [exact Hst|]. destruct Hst as [Ht Hc Hf _ _].
  pose proof (tasks_with_bound (store (this s))). lia.
Qed.

Lemma stats_count_tasks_witness :
  reachable Scenarios.any_url Scenarios.Options_default
            (Scenarios.state_after Scenarios.Options_default QueueRuns.retried)
  /\ stats (this (Scenarios.state_after Scenarios.Options_default QueueRuns.retried))
     = Stats.mk 1 1 0 0 0
  /\ stats_inv (this (Scenarios.state_after Scenarios.Options_default QueueRuns.retried)).
Proof.
  assert (H : reachable Scenarios.any_url Scenarios.Options_default
                (Scenarios.state_after Scenarios.Options_default QueueRuns.retried)).
  { exists QueueRuns.retried. vm_compute. reflexivity. }
  split; [exact H|]. split; [vm_compute; reflexivity|].
  exact (proj1 (stats_count_tasks _ _ _ H)).
Defined.

(** X3.  A drained queue has accounted for every task.  When the pending
    queue and the active list are both empty, every task that was added
    has status 'completed' or 'failed', and the queueCompleted event that
    finishQueue emits then reports completed + failed = total. *)
Theorem drained_totals isF1tvUrl o s :
  reachable isF1tvUrl o s ->
  queue (this s) = [] -> active (this s) = [] ->
  (forall r, allocated (store (this s)) r = true -> terminal (store (this s)) r = true)
  /\ exists completed failed,
      emitted (finishQueue (this s))
      = emitted (this s) ++ [queueCompleted completed failed (completed + failed)].
Proof.
  intros Hr Hq Ha.
  destruct (accounts_reachable isF1tvUrl o s Hr) as (Hjob & _ & Hst & _).
  assert (Hterm : forall r, allocated (store (this s)) r = true
                            -> terminal (store (this s)) r = true).
  { intros r Hal. destruct (Hjob r) as [Ja Jt _ _].
    rewrite Hq, Ha, Hal in *. simpl in *.
    destruct (terminal (store (this s)) r); [reflexivity|simpl in Jt; lia]. }
  split; [exact Hterm|].
  exists (Stats.completed (stats (this s))), (Stats.failed (stats (this s))).
  destruct Hst as [Ht Hc Hf _ _].
  pose proof (tasks_with_terminal (store (this s)) Hterm) as Hsum.
  simpl. do 3 f_equal. lia.
Qed.

Lemma drained_totals_witness :
  reachable Scenarios.any_url Scenarios.Options_default
            (Scenarios.state_after Scenarios.Options_default (removelast QueueRuns.retried))
  /\ exists completed failed,
      emitted (finishQueue (this (Scenarios.state_after Scenarios.Options_default
                                                        (removelast QueueRuns.retried))))
      = emitted (this (Scenarios.state_after Scenarios.Options_default
                                             (removelast QueueRuns.retried)))
        ++ [queueCompleted completed failed (completed + failed)].
Proof.
  assert (H : reachable Scenarios.any_url Scenarios.Options_default
                (Scenarios.state_after Scenarios.Options_default
                                       (removelast QueueRuns.retried))).
  { exists (removelast QueueRuns.retried). vm_compute. reflexivity. }
  split; [exact H|].
  apply (proj2 (drained_totals _ _ _ H ltac:(vm_compute; reflexivity)
                               ltac:(vm_compute; reflexivity))).
Defined.

(** X4.  A task gets one terminal event.  Between any two uninterrupted
    pieces of code, the taskCompleted and taskFailed events emitted for a
    task number one if its status is 'completed' or 'failed' and none
    otherwise: no task is reported as finished twice, or as both
    completed and failed. *)
Theorem one_terminal_event isF1tvUrl o s r :
  reachable isF1tvUrl o s ->
  finished r (emitted (this s)) = indicator (terminal (store (this s)) r).
Proof.
  intros Hr. destruct (accounts_reachable isF1tvUrl o s Hr) as (_ & _ & _ & Hout).
  apply Hout.
Qed.

Lemma one_terminal_event_witness :
  reachable Scenarios.any_url Scenarios.Options_default
            (Scenarios.state_after Scenarios.Options_default QueueRuns.retried)
  /\ finished 0%nat (emitted (this (Scenarios.state_after Scenarios.Options_default
                                                          QueueRuns.retried)))
     = 1%nat.
Proof.
  assert (H : reachable Scenarios.any_url Scenarios.Options_default
                (Scenarios.state_after Scenarios.Options_default QueueRuns.retried)).
  { exists QueueRuns.retried. vm_compute. reflexivity. }
  split; [exact H|].
  rewrite (one_terminal_event _ _ _ 0%nat H). vm_compute. reflexivity.
Defined.

(** ** One wake-up of the scheduler *)

(** The loop of processQueue goes round at most twice before it
    suspends or leaves: what one wake-up does, without the loop. *)
Lemma processQueue_once q :
  processQueue q =
  if negb (isRunning q) then (finishQueue q, [])
  else if isPaused q then (q, [InScheduler 1000])
  else if (Z.of_nat (length (active q)) <? maxConcurrent q)
          && (0 <? Z.of_nat (length (queue q))) then
    match queue q with
    | [] => (q, [InScheduler 1000])
    | task :: rest =>
      (launch task rest q,
       [InDownload task;
        InScheduler (if (0 <? Z.of_nat (length rest)) && (1 <? maxConcurrent q)
                     then Qmin (inject_Z (delayBetweenDownloads q) / 2) 10000
                     else 1000)])
    end
  else if (Z.of_nat (length (active q)) =? 0) && (Z.of_nat (length (queue q)) =? 0)
  then (finishQueue q, [])
  else (q, [InScheduler 1000]).
Proof.
  apply (inj Some). rewrite <- processQueue_loop_eq, processQueue_loop_S.
  destruct (isRunning q) eqn:Hrun; simpl negb; cbv iota; [|reflexivity].
  destruct (isPaused q) eqn:Hpause; [reflexivity|].
  destruct ((Z.of_nat (length (active q)) <? maxConcurrent q)
            && (0 <? Z.of_nat (length (queue q)))) eqn:Hcan; [|repeat case_if; reflexivity].
  destruct (queue q) as [|task rest] eqn:Hq; [reflexivity|].
  destruct ((0 <? Z.of_nat (length rest)) && (1 <? maxConcurrent q)) eqn:Hmore;
    [reflexivity|].
  simpl length. rewrite processQueue_loop_S.
  change (isRunning (launch task rest q)) with (isRunning q).
  change (isPaused (launch task rest q)) with (isPaused q).
  change (maxConcurrent (launch task rest q)) with (maxConcurrent q).
  rewrite Hrun, Hpause, launch_active, launch_queue, length_app. simpl.
  apply andb_prop in Hcan as [Hlt _]. apply Z.ltb_lt in Hlt.
  assert (Hno : (Z.of_nat (length (active q) + 1) <? maxConcurrent q)
                && (0 <? Z.of_nat (length rest)) = false).
  { apply andb_false_iff. apply andb_false_iff in Hmore as [H|H].
    - right. exact H.
    - left. apply Z.ltb_ge. apply Z.ltb_ge in H. lia. }
  rewrite Hno.
  assert (Hbusy : (Z.of_nat (length (active q) + 1) =? 0) = false)
    by (apply Z.eqb_neq; lia).
  rewrite Hbusy. reflexivity.
Qed.

(** X5.  One wake-up of the scheduler starts at most one task.  A call
    of processQueue, run until it sleeps or returns, either starts
    nothing and leaves the pending queue and the active list as they
    are, or takes the head of the pending queue, appends it to the
    active list and starts it, which it does only while the queue is
    running, not paused, and the active list is below maxConcurrent. *)
Theorem processQueue_starts_at_most_one q :
  (launched (snd (processQueue q)) = []
   /\ queue (fst (processQueue q)) = queue q
   /\ active (fst (processQueue q)) = active q)
  \/ (exists task rest,
         queue q = task :: rest
         /\ launched (snd (processQueue q)) = [task]
         /\ queue (fst (processQueue q)) = rest
         /\ active (fst (processQueue q)) = active q ++ [task]
         /\ isRunning q = true /\ isPaused q = false
         /\ Z.of_nat (length (active q)) < maxConcurrent q).
Proof.
  rewrite processQueue_once.
  destruct (isRunning q) eqn:Hrun; simpl negb; cbv iota; [|left; repeat split].
  destruct (isPaused q) eqn:Hpause; [left; repeat split|].
  destruct ((Z.of_nat (length (active q)) <? maxConcurrent q)
            && (0 <? Z.of_nat (length (queue q)))) eqn:Hcan.
  - destruct (queue q) as [|task rest] eqn:Hq; [left; repeat split; exact Hq|].
    right. exists task, rest. apply andb_prop in Hcan as [Hlt _]. apply Z.ltb_lt in Hlt.
    repeat split; assumption.
  - left. case_if; repeat split.
Qed.

(** ** Pause and stop *)

Lemma started_none r evs : (forall x, ~ In (taskStarted x) evs) -> started r evs = O.
Proof.
  induction evs as [|e evs IH]; intros H; simpl; [reflexivity|].
  assert (Hevs : started r evs = O).
  { apply IH. intros x Hx. apply (H x). right. exact Hx. }
  destruct e; try exact Hevs.
  exfalso. apply (H t0). left. reflexivity.
Qed.

Lemma continue_flags th a q q' new :
  (forall ms, th <> InScheduler ms) ->
  continue th a q = Some (q', new) ->
  isRunning q' = isRunning q /\ isPaused q' = isPaused q.
Proof.
  intros Hns Hc.
  destruct th as [ms|x|x e ms|x ms|x|x ms], a; simpl in Hc; try discriminate;
    apply (inj Some) in Hc.
  - exfalso. apply (Hns ms). reflexivity.
  - unfold processTask_finally in Hc. revert Hc.
    destruct (findIndex x (active (processTask_success x q))); case_if;
      intros Hc; injection Hc as <- _; split; reflexivity.
  - unfold handleTaskError, handleTaskError_retry in Hc. revert Hc.
    repeat case_if; intros Hc; injection Hc as <- _; split; reflexivity.
  - unfold handleTaskError_after_backoff, handleTaskError_retry in Hc. revert Hc.
    repeat case_if; intros Hc; injection Hc as <- _; split; reflexivity.
  - injection Hc as <- _. split; reflexivity.
  - unfold processTask_finally in Hc. revert Hc.
    destruct (findIndex x (active q)); case_if;
      intros Hc; injection Hc as <- _; split; reflexivity.
  - injection Hc as <- _. split; reflexivity.
Qed.

(** What a step that is not a wake-up of the scheduler and not a call
    of start(), resume() or addDownload() does to the flags and to the
    taskStarted events. *)
Lemma quiet_continue th a q q' new r :
  (forall ms, th <> InScheduler ms) ->
  continue th a q = Some (q', new) ->
  isRunning q' = isRunning q /\ isPaused q' = isPaused q
  /\ started r (emitted q') = started r (emitted q).
Proof.
  intros Hns Hc. destruct (continue_flags th a q q' new Hns Hc) as [H1 H2].
  split; [exact H1|]. split; [exact H2|].
  destruct (continue_effect th a q q' new Hns Hc) as (evs & front & He & Hev & _).
  rewrite He, started_app, (started_none r evs Hev). lia.
Qed.

Section Hold.

Variable isF1tvUrl : string -> bool.

Lemma paused_step s l s' :
  isRunning (this s) = true -> isPaused (this s) = true ->
  keeps_pause l = true -> step isF1tvUrl s l = Some s' ->
  isRunning (this s') = true /\ isPaused (this s') = true
  /\ forall r, started r (emitted (this s')) = started r (emitted (this s)).
Proof.
  intros Hrun Hpause Hl Hs. destruct l; simpl in Hs; try discriminate.
  - unfold addDownload in Hs.
    destruct (negb (isF1tvUrl (Task.url (new_task c)))); injection Hs as <-;
      [repeat split; assumption|].
    change (isRunning (enqueue (new_task c) (this s))) with (isRunning (this s)).
    rewrite Hrun. simpl. repeat split; try assumption.
    intros r. rewrite started_app. simpl. lia.
  - injection Hs as <-. unfold start. rewrite Hrun. repeat split; assumption.
  - injection Hs as <-. simpl. repeat split; try assumption.
    intros r. rewrite started_app. simpl. lia.
  - injection Hs as <-. simpl. repeat split; assumption.
  - destruct s as [q ths]. simpl in *.
    destruct (ths !! i) as [th|] eqn:Hth; [|discriminate].
    destruct (continue th a q) as [[q' new]|] eqn:Hc; [|discriminate].
    injection Hs as <-. simpl.
    destruct th as [ms|x|x e ms|x ms|x|x ms] eqn:Eth.
    1:{ destruct a; try discriminate. simpl in Hc.
        rewrite processQueue_once, Hrun, Hpause in Hc. simpl in Hc.
        injection Hc as <- _. repeat split; assumption. }
    all: rewrite <- Eth in Hc;
      assert (Hns : forall ms, th <> InScheduler ms) by (rewrite Eth; discriminate);
      destruct (quiet_continue th a q q' new O Hns Hc) as (H1 & H2 & _);
      split; [congruence|]; split; [congruence|];
      intros r; apply (quiet_continue th a q q' new r Hns Hc).
Qed.

(** X6.  While the queue is paused, no task is started.  From a state in
    which the queue is running and paused, whatever happens (timers fire,
    downloads end or fail, downloads are added, pause, start or
    clearHistory are called) short of a call of resume or stop, the queue
    stays running and paused and no taskStarted event is emitted. *)
Theorem paused_starts_nothing ls : forall s s',
  isRunning (this s) = true -> isPaused (this s) = true ->
  forallb keeps_pause ls = true ->
  run isF1tvUrl s ls = Some s' ->
  isRunning (this s') = true /\ isPaused (this s') = true
  /\ forall r, started r (emitted (this s')) = started r (emitted (this s)).
Proof.
  induction ls as [|l ls IH]; intros s s' Hrun Hpause Hls Hr; simpl in Hr.
  - injection Hr as <-. repeat split; assumption.
  - simpl in Hls. apply andb_prop in Hls as [Hl Hls].
    destruct (step isF1tvUrl s l) as [s1|] eqn:Hs; [|discriminate].
    destruct (paused_step s l s1 Hrun Hpause Hl Hs) as (Hrun1 & Hpause1 & Hst1).
    destruct (IH s1 s' Hrun1 Hpause1 Hls Hr) as (Hrun' & Hpause' & Hst').
    split; [exact Hrun'|]. split; [exact Hpause'|].
    intros r. rewrite Hst', Hst1. reflexivity.
Qed.

Lemma stopped_step s l s' :
  isRunning (this s) = false ->
  keeps_stop l = true -> step isF1tvUrl s l = Some s' ->
  isRunning (this s') = false
  /\ forall r, started r (emitted (this s')) = started r (emitted (this s)).
Proof.
  intros Hrun Hl Hs. destruct l; simpl in Hs; try discriminate.
  - injection Hs as <-. simpl. split; [reflexivity|].
    intros r. rewrite started_app. simpl. lia.
  - injection Hs as <-. simpl. split; [exact Hrun|].
    intros r. rewrite started_app. simpl. lia.
  - injection Hs as <-. unfold resume, run_processQueue. simpl.
    rewrite processQueue_once. simpl. rewrite Hrun. simpl. split; [reflexivity|].
    intros r. rewrite !started_app. simpl. lia.
  - injection Hs as <-. simpl. split; [exact Hrun|reflexivity].
  - destruct s as [q ths]. simpl in *.
    destruct (ths !! i) as [th|] eqn:Hth; [|discriminate].
    destruct (continue th a q) as [[q' new]|] eqn:Hc; [|discriminate].
    injection Hs as <-. simpl.
    destruct th as [ms|x|x e ms|x ms|x|x ms] eqn:Eth.
    1:{ destruct a; try discriminate. simpl in Hc.
        rewrite processQueue_once, Hrun in Hc. simpl in Hc.
        injection Hc as <- _. simpl. split; [reflexivity|].
        intros r. rewrite started_app. simpl. lia. }
    all: rewrite <- Eth in Hc;
      assert (Hns : forall ms, th <> InScheduler ms) by (rewrite Eth; discriminate);
      destruct (quiet_continue th a q q' new O Hns Hc) as (H1 & _ & _);
      split; [congruence|];
      intros r; apply (quiet_continue th a q q' new r Hns Hc).
Qed.

(** X7.  After stop(), no task is started.  From a state in which
    isRunning is false, whatever happens short of a call of start or
    addDownload, the queue stays stopped and no taskStarted event is
    emitted: tasks in the pending queue stay there, also when resume is
    called or a task that failed is put back for its retry. *)
Theorem stopped_starts_nothing ls : forall s s',
  isRunning (this s) = false ->
  forallb keeps_stop ls = true ->
  run isF1tvUrl s ls = Some s' ->
  isRunning (this s') = false
  /\ forall r, started r (emitted (this s')) = started r (emitted (this s)).
Proof.
  induction ls as [|l ls IH]; intros s s' Hrun Hls Hr; simpl in Hr.
  - injection Hr as <-. split; [assumption|reflexivity].
  - simpl in Hls. apply andb_prop in Hls as [Hl Hls].
    destruct (step isF1tvUrl s l) as [s1|] eqn:Hs; [|discriminate].
    destruct (stopped_step s l s1 Hrun Hl Hs) as (Hrun1 & Hst1).
    destruct (IH s1 s' Hrun1 Hls Hr) as (Hrun' & Hst').
    split; [exact Hrun'|].
    intros r. rewrite Hst', Hst1. reflexivity.
Qed.

End Hold.

Lemma paused_starts_nothing_witness :
  run Scenarios.any_url
      (Scenarios.state_after Scenarios.Options_default QueueRuns.paused_then)
      QueueRuns.while_paused
  = Some (Scenarios.state_after Scenarios.Options_default
                                (QueueRuns.paused_then ++ QueueRuns.while_paused))
  /\ isPaused (this (Scenarios.state_after Scenarios.Options_default
                                           (QueueRuns.paused_then ++ QueueRuns.while_paused)))
     = true
  /\ started 1%nat
             (emitted (this (Scenarios.state_after
                               Scenarios.Options_default
                               (QueueRuns.paused_then ++ QueueRuns.while_paused))))
     = O.
Proof.
  assert (H : run Scenarios.any_url
                  (Scenarios.state_after Scenarios.Options_default QueueRuns.paused_then)
                  QueueRuns.while_paused
              = Some (Scenarios.state_after
                        Scenarios.Options_default
                        (QueueRuns.paused_then ++ QueueRuns.while_paused)))
    by (vm_compute; reflexivity).
  split; [exact H|].
  destruct (paused_starts_nothing
              Scenarios.any_url QueueRuns.while_paused
              (Scenarios.state_after Scenarios.Options_default QueueRuns.paused_then)
              (Scenarios.state_after Scenarios.Options_default
                                     (QueueRuns.paused_then ++ QueueRuns.while_paused))
              ltac:(vm_compute; reflexivity) ltac:(vm_compute; reflexivity)
              ltac:(vm_compute; reflexivity) H) as (_ & Hp & Hs).
  split; [exact Hp|]. rewrite Hs. vm_compute. reflexivity.
Defined.

Lemma stopped_starts_nothing_witness :
  run Scenarios.any_url
      (Scenarios.state_after Scenarios.Options_default QueueRuns.stopped_then)
      QueueRuns.while_stopped
  = Some (Scenarios.state_after Scenarios.Options_default
                                (QueueRuns.stopped_then ++ QueueRuns.while_stopped))
  /\ queue (this (Scenarios.state_after Scenarios.Options_default
                                        (QueueRuns.stopped_then ++ QueueRuns.while_stopped)))
     = [1%nat]
  /\ started 1%nat
             (emitted (this (Scenarios.state_after
                               Scenarios.Options_default
                               (QueueRuns.stopped_then ++ QueueRuns.while_stopped))))
     = O.
Proof.
  assert (H : run Scenarios.any_url
                  (Scenarios.state_after Scenarios.Options_default QueueRuns.stopped_then)
                  QueueRuns.while_stopped
              = Some (Scenarios.state_after
                        Scenarios.Options_default
                        (QueueRuns.stopped_then ++ QueueRuns.while_stopped)))
    by (vm_compute; reflexivity).
  split; [exact H|]. split; [vm_compute; reflexivity|].
  destruct (stopped_starts_nothing
              Scenarios.any_url QueueRuns.while_stopped
              (Scenarios.state_after Scenarios.Options_default QueueRuns.stopped_then)
              (Scenarios.state_after Scenarios.Options_default
                                     (QueueRuns.stopped_then ++ QueueRuns.while_stopped))
              ltac:(vm_compute; reflexivity) ltac:(vm_compute; reflexivity) H)
    as (_ & Hs).
  rewrite Hs. vm_compute. reflexivity.
Defined.

(** ** The configuration *)

Lemma or_num_nonzero x d : d <> 0 -> Js.or_num x d <> 0.
Proof.
  intros Hd. unfold Js.or_num. destruct x as [v|]; [|exact Hd].
  destruct (Z.eqb_spec v 0); assumption.
Qed.

(** X8.  The configuration is fixed by the constructor and holds no
    zero.  When the delay in milliseconds, (options.delay || 30) * 1000,
    is an integer that a JavaScript number holds exactly, then between
    any two uninterrupted pieces of code the five configuration fields
    have the values the constructor computed from the options, each
    option replaced by its default (1 concurrent download, 30 s delay, 3
    attempts, 5000 ms retry delay, 60000 ms rate-limit backoff) when it
    is absent or 0; so none of them is ever 0, and a delay of 0 seconds
    cannot be configured.  (Beyond that range the product is rounded,
    which the integers of this model do not show.) *)
Theorem configuration_fixed isF1tvUrl o s :
  QueueRuns.safe_integer (Js.or_num (Options.delay o) 30 * 1000) ->
  reachable isF1tvUrl o s ->
  (maxConcurrent (this s) = Z.min (Js.or_num (Options.maxConcurrent o) 1) 3
   /\ delayBetweenDownloads (this s) = Js.or_num (Options.delay o) 30 * 1000
   /\ retryAttempts (this s) = Js.or_num (Options.retryAttempts o) 3
   /\ retryDelay (this s) = Js.or_num (Options.retryDelay o) 5000
   /\ rateLimitBackoff (this s) = Js.or_num (Options.rateLimitBackoff o) 60000)
  /\ maxConcurrent (this s) <> 0 /\ delayBetweenDownloads (this s) <> 0
  /\ retryAttempts (this s) <> 0 /\ retryDelay (this s) <> 0
  /\ rateLimitBackoff (this s) <> 0.
Proof.
  intros _ Hr.
  destruct (bounded_reachable _ _ _ Hr) as [(H1 & H2 & H3 & H4 & H5) _].
  change (maxConcurrent (new o)) with (Z.min (Js.or_num (Options.maxConcurrent o) 1) 3) in H1.
  change (delayBetweenDownloads (new o)) with (Js.or_num (Options.delay o) 30 * 1000) in H2.
  change (retryAttempts (new o)) with (Js.or_num (Options.retryAttempts o) 3) in H3.
  change (retryDelay (new o)) with (Js.or_num (Options.retryDelay o) 5000) in H4.
  change (rateLimitBackoff (new o)) with (Js.or_num (Options.rateLimitBackoff o) 60000) in H5.
  split; [repeat split; assumption|].
  pose proof (or_num_nonzero (Options.maxConcurrent o) 1 ltac:(lia)).
  pose proof (or_num_nonzero (Options.delay o) 30 ltac:(lia)).
  pose proof (or_num_nonzero (Options.retryAttempts o) 3 ltac:(lia)).
  pose proof (or_num_nonzero (Options.retryDelay o) 5000 ltac:(lia)).
  pose proof (or_num_nonzero (Options.rateLimitBackoff o) 60000 ltac:(lia)).
  repeat split; lia.
Qed.

Lemma configuration_fixed_witness :
  reachable Scenarios.any_url QueueRuns.all_zero
            (Scenarios.state_after QueueRuns.all_zero QueueRuns.retried)
  /\ delayBetweenDownloads (this (Scenarios.state_after QueueRuns.all_zero QueueRuns.retried))
     = 30000.
Proof.
  assert (H : reachable Scenarios.any_url QueueRuns.all_zero
                (Scenarios.state_after QueueRuns.all_zero QueueRuns.retried)).
  { exists QueueRuns.retried. vm_compute. reflexivity. }
  split; [exact H|].
  assert (Hsafe : QueueRuns.safe_integer
                    (Js.or_num (Options.delay QueueRuns.all_zero) 30 * 1000))
    by (vm_compute; discriminate).
  destruct (configuration_fixed _ _ _ Hsafe H) as ((_ & -> & _) & _). reflexivity.
Defined.

(** ** addDownload *)

Lemma lookup_new_task task rest (q : t) (k : Task.t) id :
  store q !! id = Some k ->
  exists k', store (launch task rest q) !! id = Some k'
             /\ Task.url k' = Task.url k /\ Task.channel k' = Task.channel k
             /\ Task.outputDirectory k' = Task.outputDirectory k
             /\ Task.audioStream k' = Task.audioStream k
             /\ Task.videoSize k' = Task.videoSize k /\ Task.format k' = Task.format k
             /\ Task.internationalAudio k' = Task.internationalAudio k
             /\ Task.itsoffset k' = Task.itsoffset k.
Proof.
  intros Hk.
  change (store (launch task rest q))
    with (alter (fun k => Task.with_attempts (Task.attempts k + 1) k) task
                (alter (Task.with_status Task.Downloading) task (store q))).
  destruct (Nat.eq_dec task id) as [->|Hne].
  - rewrite !list_lookup_alter_eq, Hk. simpl. eexists. split; [reflexivity|].
    repeat split.
  - rewrite !list_lookup_alter_ne by exact Hne. exists k. split; [exact Hk|].
    repeat split.
Qed.

(** X9.  addDownload refuses a URL that isF1tvUrl rejects, with the
    message 'Invalid F1TV URL: ' and the URL, before anything is changed.
    Otherwise it returns the id of a new task object that carries the
    fields of the configuration with the defaults 'eng', 'best', 'mp4'
    and '-00:00:04.750' in place of absent or empty ones; it counts the
    task in stats.totalQueued; the queue is running when it returns,
    because a queue that is not running is started; and the task is then
    in the pending queue or, already started, in the active list. *)
Theorem addDownload_outcome isF1tvUrl c s :
  match addDownload isF1tvUrl c s with
  | inr msg =>
    isF1tvUrl (Config.url c) = false
    /\ msg = ("Invalid F1TV URL: " ++ Config.url c)%string
  | inl (s', id) =>
    isF1tvUrl (Config.url c) = true
    /\ id = length (store (this s))
    /\ isRunning (this s') = true
    /\ Stats.totalQueued (stats (this s')) = Stats.totalQueued (stats (this s)) + 1
    /\ (exists k,
          store (this s') !! id = Some k
          /\ Task.url k = Config.url c /\ Task.channel k = Config.channel c
          /\ Task.outputDirectory k = Config.outputDirectory c
          /\ Task.audioStream k = Js.or_str (Config.audioStream c) "eng"
          /\ Task.videoSize k = Js.or_str (Config.videoSize c) "best"
          /\ Task.format k = Js.or_str (Config.format c) "mp4"
          /\ Task.internationalAudio k = Config.internationalAudio c
          /\ Task.itsoffset k = Js.or_str (Config.itsoffset c) "-00:00:04.750")
    /\ (0 < count id (queue (this s')) + count id (active (this s')))%nat
  end.
Proof.
  unfold addDownload. change (Task.url (new_task c)) with (Config.url c).
  destruct (isF1tvUrl (Config.url c)) eqn:Hurl; simpl negb; cbv iota;
    [|split; reflexivity].
  split; [reflexivity|]. split; [reflexivity|].
  set (id := length (store (this s))).
  set (q1 := enqueue (new_task c) (this s)).
  assert (Hk1 : store q1 !! id = Some (new_task c)).
  { unfold q1, enqueue, id. simpl. rewrite lookup_app_r by lia.
    rewrite Nat.sub_diag. reflexivity. }
  assert (Hc1 : (0 < count id (queue q1))%nat).
  { unfold q1, enqueue, id. simpl. rewrite count_app. simpl.
    rewrite Nat.eqb_refl. lia. }
  destruct (isRunning q1) eqn:Hrun1.
  - simpl this. split; [exact Hrun1|]. split; [reflexivity|].
    split; [|lia]. exists (new_task c). split; [exact Hk1|]. repeat split.
  - unfold start. simpl this.
    assert (Hrun : isRunning (this s) = false) by exact Hrun1. rewrite Hrun.
    unfold run_processQueue. simpl this.
    set (q2 := emit queueStarted (with_isPaused false (with_isRunning true q1))).
    assert (Hk2 : store q2 !! id = Some (new_task c)) by exact Hk1.
    assert (Hc2 : (0 < count id (queue q2))%nat) by exact Hc1.
    rewrite processQueue_once.
    change (isRunning q2) with true. change (isPaused q2) with false. simpl negb. cbv iota.
    destruct ((Z.of_nat (length (active q2)) <? maxConcurrent q2)
              && (0 <? Z.of_nat (length (queue q2)))) eqn:Hcan.
    + destruct (queue q2) as [|task rest] eqn:Hq2; [simpl in Hc2; lia|].
      simpl this. split; [reflexivity|]. split; [reflexivity|]. split.
      * destruct (lookup_new_task task rest q2 _ id Hk2)
          as (k' & Hk' & E1 & E2 & E3 & E4 & E5 & E6 & E7 & E8).
        exists k'. split; [exact Hk'|].
        rewrite E1, E2, E3, E4, E5, E6, E7, E8. repeat split.
      * rewrite launch_queue, launch_active, count_app. simpl in Hc2 |- *.
        destruct (Nat.eqb task id); lia.
    + assert (Hne : (Z.of_nat (length (queue q2)) =? 0) = false).
      { apply Z.eqb_neq. destruct (queue q2); simpl in *; lia. }
      rewrite Hne, andb_false_r. simpl this.
      split; [reflexivity|]. split; [reflexivity|].
      split; [|lia]. exists (new_task c). split; [exact Hk2|]. repeat split.
Qed.

(** ** getStatus *)

Lemma history_move s s' :
  move s s' ->
  Z.of_nat (length (completed (this s))) <= Stats.completed (stats (this s))
  /\ Z.of_nat (length (failed (this s))) <= Stats.failed (stats (this s)) ->
  Z.of_nat (length (completed (this s'))) <= Stats.completed (stats (this s'))
  /\ Z.of_nat (length (failed (this s'))) <= Stats.failed (stats (this s')).
Proof.
  intros Hm [Hc Hf].
  destruct Hm as [q ths task Hst Hat|q q' ths Hctl|q ths|q ths ms|q ths task rest Hq Hlt
                  |q ths i ms Hth|q ths i x ms Hth|q ths i x Hth|q ths i x Hth
                  |q ths i x msg Hth|q ths i x e ms Hth|q ths i th x ms Hth Haw Hlt
                  |q ths i th x Hth Haw Hge|q ths i x e ms Hth Hlt|q ths i x ms Hth];
    simpl in Hc, Hf; simpl this; try (split; assumption).
  - destruct Hctl as (running & paused & evs & _ & ->). split; assumption.
  - simpl. lia.
  - simpl. rewrite length_app. simpl. lia.
  - destruct (finally_effect x q O) as (_ & Ec & Ef & _).
    destruct (finally_frame x q) as (_ & _ & _ & _ & Est & _).
    rewrite Ec, Ef, Est. split; assumption.
  - simpl. rewrite length_app. simpl. lia.
Qed.

(** X10.  What getStatus reports of the history never exceeds the
    counters: completedDownloads is at most stats.completed and
    failedDownloads at most stats.failed, in every state between two
    uninterrupted pieces of code, because the lists grow only together
    with the counters and clearHistory empties the lists alone. *)
Theorem getStatus_history isF1tvUrl o s :
  reachable isF1tvUrl o s ->
  Status.completedDownloads (getStatus (this s))
  <= Stats.completed (Status.stats (getStatus (this s)))
  /\ Status.failedDownloads (getStatus (this s))
     <= Stats.failed (Status.stats (getStatus (this s))).
Proof.
  intros Hr. simpl.
  apply (reachable_ind isF1tvUrl
           (fun s => Z.of_nat (length (completed (this s))) <= Stats.completed (stats (this s))
                     /\ Z.of_nat (length (failed (this s)))
                        <= Stats.failed (stats (this s))) o);
    [simpl; lia| |exact Hr].
  intros s1 s2 H Hm. exact (history_move s1 s2 Hm H).
Qed.

Lemma getStatus_history_witness :
  reachable Scenarios.any_url Scenarios.Options_default
            (Scenarios.state_after Scenarios.Options_default
                                   (QueueRuns.retried ++ [CallClearHistory]))
  /\ Status.completedDownloads
       (getStatus (this (Scenarios.state_after Scenarios.Options_default
                                               (QueueRuns.retried ++ [CallClearHistory]))))
     = 0
  /\ 0 <= Stats.completed
            (Status.stats
               (getStatus (this (Scenarios.state_after
                                   Scenarios.Options_default
                                   (QueueRuns.retried ++ [CallClearHistory]))))).
Proof.
  assert (H : reachable Scenarios.any_url Scenarios.Options_default
                (Scenarios.state_after Scenarios.Options_default
                                       (QueueRuns.retried ++ [CallClearHistory]))).
  { exists (QueueRuns.retried ++ [CallClearHistory]). vm_compute. reflexivity. }
  split; [exact H|]. split; [vm_compute; reflexivity|].
  pose proof (proj1 (getStatus_history _ _ _ H)) as Hc.
  vm_compute in Hc |- *. exact Hc.
Defined.

End QueueMore.

(** * Further properties of the token manager *)

Module TokenMore.

Import TokenManager TokenSpec TokenRuns Footprint TokenFacts AsyncFacts.

(** ** The files and the calls of the manager *)

Ltac allowed := cbv [quiet touches]; repeat split; auto.

Section Files.

Variable jwt_exp : string -> option Z.
Variable this : TokenManager.t.

Lemma quiet_validated candidate : within (quiet (tokenCacheFile this)) (validated candidate).
Proof. unfold validated, validateToken. footprint; allowed. Qed.

Lemma quiet_save token source :
  within (quiet (tokenCacheFile this)) (saveTokenToCache jwt_exp this token source).
Proof. unfold saveTokenToCache. footprint; allowed. Qed.

Lemma quiet_strategy_cache : within (quiet (tokenCacheFile this)) (strategy_cache this).
Proof.
  unfold strategy_cache, loadTokenFromCache.
  footprint; try apply quiet_validated; allowed.
Qed.

Lemma quiet_strategy_browser :
  within (quiet (tokenCacheFile this)) (strategy_browser jwt_exp this).
Proof.
  unfold strategy_browser, Async.await.
  footprint; try apply quiet_validated; try apply quiet_save; allowed.
Qed.

Lemma quiet_strategy_manual :
  within (quiet (tokenCacheFile this)) (strategy_manual jwt_exp this).
Proof.
  unfold strategy_manual, loadManualCookie.
  footprint; try apply quiet_validated; try apply quiet_save; allowed.
Qed.

End Files.

Lemma touches_login_loop jwt_exp u p n : forall attempt this,
  within (touches (tokenCacheFile this)) (login_loop jwt_exp n attempt this u p).
Proof.
  induction n as [|n IH]; intros attempt this; simpl; [constructor|].
  constructor; [exact I|]. intros [loginToken|msg].
  - apply within_bind.
    + apply (within_weaken (quiet (tokenCacheFile this))); [intros X e [H _]; exact H|].
      apply quiet_validated.
    + intros [token|]; [|apply IH].
      footprint; allowed.
  - destruct (attempt <? maxRetries this); [|apply IH].
    constructor; [exact I|]. intros _.
    apply (IH (attempt + 1) (mk (debug this) (maxRetries this) (retryDelay this * 1.5)%Q
                                (tokenCacheFile this))).
Qed.






(** ** The retries of the login *)




Section Calls.

Variable W : Type.
Variable h : Async.handler request W.


Variable jwt_exp : string -> option Z.



End Calls.

Section Manager.

Variable jwt_exp : string -> option Z.
Variable W : Type.
Variable h : Async.handler request W.

(** X11.  The manager's own calls of fs.  Whatever the outside answers,
    the calls of fs that token-manager.js itself makes in a run of
    getValidToken test the existence of the token cache file and of the
    cookie file only, read the cache record from the token cache file
    only and cookies from the cookie file only, and write to the token
    cache file only.  The files that autoExtractF1TVCookies and
    getF1tvToken touch while they are called are outside this
    statement. *)
Theorem getValidToken_files this user pass w :
  confined (touches (tokenCacheFile this))
           (fst (fst (Async.run h (getValidToken jwt_exp this user pass) w))).
Proof.
  apply within_run. unfold getValidToken.
  assert (Hq : forall A (m : prog A),
             within (quiet (tokenCacheFile this)) m
             -> within (touches (tokenCacheFile this)) m).
  { intros A m. apply within_weaken. intros X e [H _]. exact H. }
  apply within_bind; [apply Hq, quiet_strategy_cache|].
  intros [token|]; [constructor|].
  apply within_bind; [apply Hq, quiet_strategy_browser|].
  intros [token|]; [constructor|].
  apply within_bind; [apply Hq, quiet_strategy_manual|].
  intros [token|]; [constructor|].
  apply within_bind.
  - unfold strategy_login. destruct user, pass; try constructor.
    destruct (_ && _); [apply touches_login_loop|constructor].
  - intros [this' [token|]]; constructor.
Qed.

(** X13.  What saveTokenToCache writes, loadTokenFromCache accepts.
    saveTokenToCache reads the clock and hands to fs.writeFileSync, for
    the token cache file, the record of the token, the source, that time
    and the expiry extracted from the token, and returns whether or not
    the write succeeds.  If the file is then found and read back as the
    same record, at a time not more than 24 hours later and, when the
    token has an expiry, at least five minutes before it,
    loadTokenFromCache returns the token. *)
Theorem cache_round_trip this token source w now w0 r w1 w2 w3 now' w4 :
  let file := tokenCacheFile this in
  let d := mkTokenData token source now (extractTokenExpiry jwt_exp token) in
  Async.clock h w = (now, w0) ->
  Async.answer h unit (writeFileSync file d) w0 = (r, w1) ->
  Async.answer h bool (existsSync file) w1 = (Async.Fulfilled true, w2) ->
  Async.answer h tokenData (readCache file) w2 = (Async.Fulfilled d, w3) ->
  Async.clock h w3 = (now', w4) ->
  fresh d now' ->
  Async.run h (saveTokenToCache jwt_exp this token source) w
  = ([Async.Tick now; Async.Exchange (writeFileSync file d) r], Async.Returned tt, w1)
  /\ Async.run h (loadTokenFromCache this) w1
     = ([Async.Exchange (existsSync file) (Async.Fulfilled true);
         Async.Exchange (readCache file) (Async.Fulfilled d);
         Async.Tick now'],
        Async.Returned (Some token), w4).
Proof.
  intros file d Hnow Hwrite Hex Hread Hnow' [Hage Hexp].
  split.
  - unfold saveTokenToCache. simpl. rewrite Hnow. fold d. fold file.
    rewrite Hwrite. reflexivity.
  - unfold loadTokenFromCache. simpl. fold file. rewrite Hex. simpl.
    rewrite Hread. simpl. rewrite Hnow'. simpl.
    assert (Hkeep : Js.truthy_num (extractTokenExpiry jwt_exp token)
                    && match extractTokenExpiry jwt_exp token with
                       | Some e => e * 1000 <? now' + 300000
                       | None => false
                       end = false).
    { destruct (extractTokenExpiry jwt_exp token) as [e|] eqn:He; [|reflexivity].
      destruct (Hexp e eq_refl) as [->|Hok]; [reflexivity|].
      apply andb_false_iff. right. apply Z.ltb_ge. exact Hok. }
    rewrite Hkeep.
    assert (Hyoung : (now' - now >? 24 * 60 * 60 * 1000) = false).
    { simpl in Hage. rewrite Z.gtb_ltb. apply Z.ltb_ge. exact Hage. }
    rewrite Hyoung. reflexivity.
Qed.

End Manager.

Lemma cache_round_trip_witness :
  Async.run disk (saveTokenToCache Scenarios.sample_exp (TokenManager.new false)
                                   Scenarios.hour_token "manual-cookie-file") empty_disk
  = ([Async.Tick Scenarios.noon;
      Async.Exchange
        (writeFileSync ".token-cache.json"
           (mkTokenData Scenarios.hour_token "manual-cookie-file" Scenarios.noon
                        (Some 1700003600)))
        (Async.Fulfilled tt)],
     Async.Returned tt,
     (Some (mkTokenData Scenarios.hour_token "manual-cookie-file" Scenarios.noon
                        (Some 1700003600)),
      Scenarios.noon + 1000))
  /\ snd (fst (Async.run disk (loadTokenFromCache (TokenManager.new false))
                         (Some (mkTokenData Scenarios.hour_token "manual-cookie-file"
                                            Scenarios.noon
                                            (Some 1700003600)),
                          Scenarios.noon + 1000)))
     = Async.Returned (Some Scenarios.hour_token).
Proof.
  pose proof (cache_round_trip
                Scenarios.sample_exp _ disk (TokenManager.new false)
                Scenarios.hour_token "manual-cookie-file" empty_disk
                Scenarios.noon (None, Scenarios.noon + 1000) (Async.Fulfilled tt)
                (Some (mkTokenData Scenarios.hour_token "manual-cookie-file" Scenarios.noon
                                   (Some 1700003600)),
                 Scenarios.noon + 1000)
                _ _ (Scenarios.noon + 1000) _
                eq_refl eq_refl eq_refl eq_refl eq_refl) as H.
  assert (Hfresh : fresh (mkTokenData Scenarios.hour_token "manual-cookie-file"
                                      Scenarios.noon
                                      (extractTokenExpiry Scenarios.sample_exp
                                                          Scenarios.hour_token))
                         (Scenarios.noon + 1000)).
  { split; [vm_compute; discriminate|].
    intros e He. vm_compute in He. injection He as <-. right. vm_compute. discriminate. }
  destruct (H Hfresh) as [Hsave Hload]. split; [exact Hsave|].
  rewrite Hload. reflexivity.
Defined.

End TokenMore.

(** * Further properties of the ffmpeg command *)

Module PlanMore.

Import DownloadQueue StreamPlan PlanSpec PlanRuns Footprint.

Ltac next_answer H :=
  match type of H with
  | context [Async.answer ?h ?X ?e ?w] =>
    let w' := fresh "w" in
    destruct (Async.answer h X e w) as [[?|?] w']; simpl in H
  end.

Section Content.

Variable content : Type.
Variable isRace : content -> bool.
Variable W : Type.
Variable h : Async.handler (request content) W.

(** The commands of a run of downloadVideo, case by case. *)
Lemma command_of_run (w : W) task f1tvUrl c outFileSpec cmd :
  In cmd (commands content
            (fst (fst (Async.run h
                         (downloadVideo content isRace task f1tvUrl c outFileSpec) w)))) ->
  exists pl : plDetails,
    let programStream := videoId pl in
    let videoSelectString :=
      if useDash f1tvUrl then by_metadata_id 0 video programStream
      else by_program 0 programStream video in
    let audioSelectString :=
      if useDash f1tvUrl then by_type 0 audio else by_program 0 programStream audio in
    cmd = mkCommand [mkInput f1tvUrl inputOptions]
                    (options (Task.format task) videoSelectString
                             [Lit "-map"; Spec audioSelectString]
                             [Lit "-c:a"; Lit "copy"])
                    outFileSpec
    \/ exists (lang intlUrl : string) (intl : plDetails),
        Task.internationalAudio task = Some lang /\ isRace c = true
        /\ cmd = mkCommand
                   [mkInput f1tvUrl inputOptions;
                    mkInput intlUrl (inputOptions ++ ["-itsoffset"%string; Task.itsoffset task])]
                   (options (Task.format task) videoSelectString
                      [Lit "-map";
                       Spec (if useDash f1tvUrl then by_metadata_id 1 video (videoId intl)
                             else by_program 1 (videoId intl) video);
                       Lit "-map"; Spec audioSelectString;
                       Lit "-map";
                       Spec (if useDash f1tvUrl then by_metadata_id 1 audio (audioId intl)
                             else by_program_index 1 programStream audio (audioId intl))]
                      [Lit "-c:a"; Lit "copy";
                       Lit "-metadata:s:a:0"; Lit "language=eng";
                       Lit "-disposition:a:0"; Lit "default";
                       Lit "-metadata:s:a:1";
                       Lit ("language=" ++ (if String.eqb lang "eng" then "Sky" else lang));
                       Lit "-disposition:a:1"; Lit "0"])
                   outFileSpec.
Proof.
  intros Hin. unfold downloadVideo in Hin. simpl in Hin.
  destruct (Async.answer h _ (getProgramStreamId content f1tvUrl (Task.audioStream task)
                                    (Task.videoSize task)) w) as [[pl|msg] w1];
    simpl in Hin; [|contradiction].
  exists pl.
  destruct (Task.internationalAudio task) as [lang|] eqn:Hlang;
    [destruct (isRace c) eqn:Hrace|]; simpl in Hin.
  - right. next_answer Hin; [|contradiction]. next_answer Hin; [|contradiction].
    next_answer Hin; destruct Hin as [<-|[]]; eexists _, _, _; repeat split.
  - left. next_answer Hin; destruct Hin as [<-|[]]; reflexivity.
  - left. next_answer Hin; destruct Hin as [<-|[]]; reflexivity.
Qed.

(** X14.  downloadVideo copies the streams.  Every command it hands to
    ffmpeg has '-c:v copy' and '-c:a copy', so that neither video nor
    audio is encoded again, and ends with '-y'; it has '-bsf:a
    aac_adtstoasc' and '-movflags faststart' when task.format is 'mp4',
    and neither of the two for any other format. *)
Theorem streams_copied (w : W) task f1tvUrl c outFileSpec cmd :
  In cmd (commands content
            (fst (fst (Async.run h
                         (downloadVideo content isRace task f1tvUrl c outFileSpec) w)))) ->
  copies_streams cmd
  /\ if String.eqb (Task.format task) "mp4" then mp4_options cmd else no_mp4_options cmd.
Proof.
  intros Hin.
  destruct (command_of_run w task f1tvUrl c outFileSpec cmd Hin)
    as [pl [->|(lang & intlUrl & intl & _ & _ & ->)]];
    unfold copies_streams, mp4_options, no_mp4_options, options; simpl;
    destruct (String.eqb (Task.format task) "mp4"), (useDash f1tvUrl);
    repeat split.
Qed.

(** X15.  The inputs of the command.  Every command downloadVideo hands
    to ffmpeg writes to outFileSpec; its first input is the stream URL
    with the probe options; it has a second input only if international
    audio is requested and the content is a race, and that input has the
    same options followed by '-itsoffset' and task.itsoffset; and every
    '-map' names one of the inputs the command has. *)
Theorem inputs_of_command (w : W) task f1tvUrl c outFileSpec cmd :
  In cmd (commands content
            (fst (fst (Async.run h
                         (downloadVideo content isRace task f1tvUrl c outFileSpec) w)))) ->
  output cmd = outFileSpec
  /\ maps_in_range cmd
  /\ (inputs cmd = [mkInput f1tvUrl inputOptions]
      \/ exists intlUrl,
          Task.internationalAudio task <> None /\ isRace c = true
          /\ inputs cmd
             = [mkInput f1tvUrl inputOptions;
                mkInput intlUrl (inputOptions ++ ["-itsoffset"%string; Task.itsoffset task])]).
Proof.
  intros Hin.
  destruct (command_of_run w task f1tvUrl c outFileSpec cmd Hin)
    as [pl [->|(lang & intlUrl & intl & Hlang & Hrace & ->)]].
  - split; [reflexivity|]. split; [|left; reflexivity].
    unfold maps_in_range, options; simpl.
    destruct (String.eqb (Task.format task) "mp4"), (useDash f1tvUrl); simpl;
      repeat constructor.
  - split; [reflexivity|]. split.
    + unfold maps_in_range, options; simpl.
      destruct (String.eqb (Task.format task) "mp4"), (useDash f1tvUrl); simpl;
        repeat constructor.
    + right. exists intlUrl. split; [congruence|]. split; [exact Hrace|reflexivity].
Qed.

(** X16.  downloadVideo stops at the first failure.  It makes its
    requests one after the other; when one of them is rejected it makes
    no further request and is rejected with the same error.  When it
    resolves, every request was fulfilled and the last one was the ffmpeg
    process that ended.  In either case ffmpeg is started at most once,
    and not at all when a request before it fails. *)
Theorem downloadVideo_fails_fast (w : W) task f1tvUrl c outFileSpec :
  let tr := fst (fst (Async.run h (downloadVideo content isRace task f1tvUrl c outFileSpec) w)) in
  (length (commands content tr) <= 1)%nat
  /\ commands content (removelast tr) = []
  /\ all_fulfilled (removelast tr)
  /\ match snd (fst (Async.run h (downloadVideo content isRace task f1tvUrl c outFileSpec) w))
     with
     | Async.Returned _ =>
       exists cmd, last tr = Some (Async.Exchange (ffmpeg_save content cmd) (Async.Fulfilled tt))
     | Async.Thrown msg =>
       exists x, last tr = Some x /\ rejection x = Some msg
     end.
Proof.
  unfold downloadVideo, all_fulfilled. simpl.
  destruct (Async.answer h _ (getProgramStreamId content f1tvUrl (Task.audioStream task)
                                    (Task.videoSize task)) w) as [[pl|msg] w1]; simpl.
  2:{ split; [lia|]. split; [reflexivity|]. split; [constructor|].
      eexists. split; reflexivity. }
  destruct (Task.internationalAudio task) as [lang|] eqn:Hlang;
    [destruct (isRace c) eqn:Hrace|]; simpl.
  - match goal with
    | |- context [Async.answer h ?X ?e ?w] => destruct (Async.answer h X e w) as [[intlUrl|msg] w2]
    end; simpl.
    2:{ split; [lia|]. split; [reflexivity|]. split; [repeat constructor|].
        eexists. split; reflexivity. }
    match goal with
    | |- context [Async.answer h ?X ?e ?w] => destruct (Async.answer h X e w) as [[intl|msg] w3]
    end; simpl.
    2:{ split; [lia|]. split; [reflexivity|]. split; [repeat constructor|].
        eexists. split; reflexivity. }
    match goal with
    | |- context [Async.answer h ?X ?e ?w] => destruct (Async.answer h X e w) as [[[]|msg] w4]
    end; simpl; (split; [lia|]); (split; [reflexivity|]); (split; [repeat constructor|]).
    + eexists. reflexivity.
    + eexists. split; reflexivity.
  - match goal with
    | |- context [Async.answer h ?X ?e ?w] => destruct (Async.answer h X e w) as [[[]|msg] w2]
    end; simpl; (split; [lia|]); (split; [reflexivity|]); (split; [repeat constructor|]).
    + eexists. reflexivity.
    + eexists. split; reflexivity.
  - match goal with
    | |- context [Async.answer h ?X ?e ?w] => destruct (Async.answer h X e w) as [[[]|msg] w2]
    end; simpl; (split; [lia|]); (split; [reflexivity|]); (split; [repeat constructor|]).
    + eexists. reflexivity.
    + eexists. split; reflexivity.
Qed.

End Content.

Lemma streams_copied_witness :
  In (Scenarios.sky_command Scenarios.hls_url true)
     (commands bool
        (fst (fst (Async.run Scenarios.fulfil
                     (downloadVideo bool Scenarios.is_race Scenarios.with_sky
                                    Scenarios.hls_url true "out.mp4") tt))))
  /\ copies_streams (Scenarios.sky_command Scenarios.hls_url true)
  /\ mp4_options (Scenarios.sky_command Scenarios.hls_url true).
Proof.
  assert (Hin : In (Scenarios.sky_command Scenarios.hls_url true)
                   (commands bool
                      (fst (fst (Async.run Scenarios.fulfil
                                   (downloadVideo bool Scenarios.is_race Scenarios.with_sky
                                                  Scenarios.hls_url true "out.mp4") tt)))))
    by (vm_compute; left; reflexivity).
  split; [exact Hin|].
  exact (streams_copied bool Scenarios.is_race unit Scenarios.fulfil tt Scenarios.with_sky
                        Scenarios.hls_url true "out.mp4" _ Hin).
Defined.

Lemma inputs_of_command_witness :
  In (Scenarios.sky_command Scenarios.dash_url true)
     (commands bool
        (fst (fst (Async.run Scenarios.fulfil
                     (downloadVideo bool Scenarios.is_race Scenarios.with_sky
                                    Scenarios.dash_url true "out.mp4") tt))))
  /\ length (inputs (Scenarios.sky_command Scenarios.dash_url true)) = 2%nat
  /\ maps_in_range (Scenarios.sky_command Scenarios.dash_url true).
Proof.
  assert (Hin : In (Scenarios.sky_command Scenarios.dash_url true)
                   (commands bool
                      (fst (fst (Async.run Scenarios.fulfil
                                   (downloadVideo bool Scenarios.is_race Scenarios.with_sky
                                                  Scenarios.dash_url true "out.mp4") tt)))))
    by (vm_compute; left; reflexivity).
  split; [exact Hin|]. split; [vm_compute; reflexivity|].
  exact (proj1 (proj2 (inputs_of_command bool Scenarios.is_race unit Scenarios.fulfil tt
                                         Scenarios.with_sky Scenarios.dash_url true "out.mp4"
                                         _ Hin))).
Defined.

End PlanMore.

(** * Properties of the cookie extraction *)

Module CookieFacts.

Import BrowserCookies CookieRuns Footprint AsyncFacts TokenFacts.

(** ** Sorting *)

Lemma hd_insert d c l :
  hd d (insert c l)
  = match l with
    | [] => c
    | y :: _ => if key c <? key y then y else c
    end.
Proof. destruct l as [|y l]; simpl; [reflexivity|]. destruct (key c <? key y); reflexivity. Qed.

Lemma insert_not_nil c l : insert c l <> [].
Proof. destruct l as [|y l]; simpl; [discriminate|]. destruct (key c <? key y); discriminate. Qed.

Lemma hd_sort d l : l <> [] -> Some (hd d (sort l)) = best l.
Proof.
  induction l as [|c l IH]; intros Hne; [congruence|].
  cbn [sort best]. rewrite hd_insert.
  destruct l as [|c' l]; [reflexivity|].
  specialize (IH ltac:(discriminate)). rewrite <- IH.
  destruct (sort (c' :: l)) as [|y s] eqn:Hs.
  - exfalso. simpl in Hs. exact (insert_not_nil _ _ Hs).
  - simpl. destruct (key c <? key y); reflexivity.
Qed.

Lemma best_greatest l b :
  best l = Some b -> In b l /\ forall c, In c l -> key c <= key b.
Proof.
  revert b. induction l as [|c l IH]; intros b H; simpl in H; [discriminate|].
  destruct (best l) as [b'|] eqn:Hb.
  - destruct (IH b' eq_refl) as [Hin Hmax].
    destruct (Z.ltb_spec (key c) (key b')) as [Hlt|Hge]; injection H as <-.
    + split; [right; exact Hin|]. intros c' [<-|Hc']; [lia|auto].
    + split; [left; reflexivity|]. intros c' [<-|Hc']; [lia|].
      specialize (Hmax c' Hc'). lia.
  - injection H as <-. destruct l; [|simpl in Hb; destruct (best l); [destruct (_ <? _)|]; discriminate].
    split; [left; reflexivity|]. intros c' [<-|[]]. lia.
Qed.

Lemma best_none l : best l = None -> l = [].
Proof.
  destruct l as [|c l]; [reflexivity|]. simpl.
  destruct (best l); [destruct (_ <? _)|]; discriminate.
Qed.

(** ** Gathering *)

Lemma gather_app p tr1 tr2 :
  gather p (tr1 ++ tr2) = gather p tr1 ++ gather (settle p tr1) tr2.
Proof.
  revert p. induction tr1 as [|x tr1 IH]; intros p; simpl; [reflexivity|].
  destruct x as [X e r|ms].
  - apply IH.
  - rewrite IH, app_assoc. reflexivity.
Qed.

Lemma settle_app p tr1 tr2 : settle p (tr1 ++ tr2) = settle (settle p tr1) tr2.
Proof. revert p. induction tr1 as [|x tr1 IH]; intros p; simpl; [reflexivity|apply IH]. Qed.

Lemma push_app cookies found : push cookies found = cookies ++ push [] found.
Proof. destruct found; simpl; [reflexivity|rewrite app_nil_r; reflexivity]. Qed.

(** The callbacks of db.get drop a row by the test [dropped]. *)
Lemma chrome_cookie_dropped r ms :
  push [] (chrome_cookie r ms) = if dropped true r ms then [] else [cookie_of true r].
Proof.
  unfold chrome_cookie, dropped, cookie_of, Js.truthy_num.
  destruct (row_expires r) as [e|]; [|reflexivity].
  destruct (negb (e =? 0) && (e <? ms * 1000)); reflexivity.
Qed.

Lemma firefox_cookie_dropped r ms :
  push [] (firefox_cookie r ms) = if dropped false r ms then [] else [cookie_of false r].
Proof.
  unfold firefox_cookie, dropped, cookie_of, Js.truthy_num.
  destruct (row_expires r) as [e|]; [|reflexivity].
  destruct (negb (e =? 0) && (e <? ms / 1000)); reflexivity.
Qed.

(** The cookies gathered are those of the rows that a query returned
    and that were not dropped when the clock was read. *)
Lemma gather_queried tr : forall last_row c,
  In c (gather last_row tr) ->
  (exists chrome r ms rest,
      last_row = Some (chrome, r) /\ tr = Async.Tick ms :: rest
      /\ dropped chrome r ms = false /\ c = cookie_of chrome r)
  \/ exists chrome r ms,
      queried tr chrome r ms /\ dropped chrome r ms = false /\ c = cookie_of chrome r.
Proof.
  induction tr as [|x tr IH]; intros last_row c Hin; [contradiction|].
  destruct x as [X e res|ms].
  - change (gather last_row (Async.Exchange e res :: tr))
      with (gather (row_of (Async.Exchange e res)) tr) in Hin.
    right. destruct (IH _ _ Hin) as [(chrome & r & ms & rest & Hrow & -> & Hkept & ->)
                                    |(chrome & r & ms & (pre & post & path & ->) & Hkept & ->)].
    + exists chrome, r, ms. split; [|split; [exact Hkept|reflexivity]].
      destruct e; try discriminate; destruct res as [[got|]|msg]; try discriminate;
        apply (inj Some) in Hrow; injection Hrow as <- <-.
      * exists [], rest, cookiePath. reflexivity.
      * exists [], rest, cookiePath. reflexivity.
    + exists chrome, r, ms. split; [|split; [exact Hkept|reflexivity]].
      exists (Async.Exchange e res :: pre), post, path. reflexivity.
  - cbn [gather] in Hin. apply in_app_or in Hin as [Hin|Hin].
    + left. destruct last_row as [[chrome r]|]; [|contradiction].
      destruct (dropped chrome r ms) eqn:Hkept; [contradiction|].
      destruct Hin as [<-|[]]. exists chrome, r, ms, tr. repeat split. exact Hkept.
    + right. destruct (IH _ _ Hin) as [(chrome & r & ms' & rest & Hrow & _)
                                      |(chrome & r & ms' & (pre & post & path & ->) & Hkept & ->)];
        [discriminate|].
      exists chrome, r, ms'. split; [|split; [exact Hkept|reflexivity]].
      exists (Async.Tick ms :: pre), post, path. reflexivity.
Qed.

Lemma queried_gather tr chrome r ms last_row :
  queried tr chrome r ms -> dropped chrome r ms = false ->
  In (cookie_of chrome r) (gather last_row tr).
Proof.
  intros (pre & post & path & ->) Hkept. revert last_row.
  induction pre as [|x pre IH]; intros last_row.
  - assert (Hrow : row_of (Async.Exchange (if chrome then chrome_get path
                                           else firefox_get path)
                                          (Async.Fulfilled (Some r)))
                   = Some (chrome, r)) by (destruct chrome; reflexivity).
    cbn [app]. destruct chrome; cbn [gather]; cbn [row_of] in Hrow |- *;
      rewrite Hkept; left; reflexivity.
  - destruct x as [X e res|ms']; cbn [app gather].
    + destruct e; apply IH.
    + apply in_or_app. right. apply IH.
Qed.

Lemma probes_gather tr :
  Forall (fun x => is_probe x = true) tr -> gather None tr = [] /\ settle None tr = None.
Proof.
  induction 1 as [|x tr Hx _ IH]; [split; reflexivity|].
  destruct x as [X e r|ms]; [|discriminate].
  destruct e; try discriminate; simpl; exact IH.
Qed.

Section Runs.

Variable W : Type.
Variable h : Async.handler request W.

Lemma extractChrome_run path w :
  let '(tr, o, _) := Async.run h (extractChromeF1TVCookies path) w in extracted tr o.
Proof.
  unfold extractChromeF1TVCookies, extracted. simpl.
  destruct (Async.answer h _ (existsSync path) w) as [[[|]|msg] w1]; simpl.
  - destruct (Async.answer h _ (chrome_get path) w1) as [[[r|]|msg] w2]; simpl.
    + destruct (Async.clock h w2) as [ms w3]. simpl.
      rewrite app_nil_r, chrome_cookie_dropped. split; reflexivity.
    + split; reflexivity.
    + split; reflexivity.
  - split; reflexivity.
  - split; [reflexivity|]. split; [reflexivity|]. eexists. repeat split.
Qed.

Lemma extractFirefox_run path w :
  let '(tr, o, _) := Async.run h (extractFirefoxF1TVCookies path) w in extracted tr o.
Proof.
  unfold extractFirefoxF1TVCookies, extracted. simpl.
  destruct (Async.answer h _ (existsSync path) w) as [[[|]|msg] w1]; simpl.
  - destruct (Async.answer h _ (firefox_get path) w1) as [[[r|]|msg] w2]; simpl.
    + destruct (Async.clock h w2) as [ms w3]. simpl.
      rewrite app_nil_r, firefox_cookie_dropped. split; reflexivity.
    + split; reflexivity.
    + split; reflexivity.
  - split; reflexivity.
  - split; [reflexivity|]. split; [reflexivity|]. eexists. repeat split.
Qed.

Lemma extractSafari_run path w :
  let '(tr, o, _) := Async.run h (extractSafariF1TVCookies path) w in extracted tr o.
Proof. simpl. split; reflexivity. Qed.

Section Path.

Variable join : string -> string -> string.

(** A loop whose passes are wrapped in try and catch does not throw. *)
Lemma extract_loop_run (extract : string -> prog (option cookie)) :
  (forall path w, let '(tr, o, _) := Async.run h (extract path) w in extracted tr o) ->
  forall ps cookies w,
    let '(tr, o, _) := Async.run h (extract_loop extract ps cookies) w in
    settle None tr = None
    /\ o = Async.Returned (cookies ++ gather None tr).
Proof.
  intros Hextract. induction ps as [|path rest IH]; intros cookies w.
  - simpl. rewrite app_nil_r. split; reflexivity.
  - cbn [extract_loop]. rewrite run_bind. unfold try_extract.
    rewrite run_try_catch, run_bind.
    specialize (Hextract path w).
    destruct (Async.run h (extract path) w) as [[tr1 o1] w1].
    destruct Hextract as [Hs1 Ho1].
    destruct o1 as [found|msg]; simpl.
    + specialize (IH (push cookies found) w1).
      destruct (Async.run h (extract_loop extract rest (push cookies found)) w1)
        as [[tr2 o2] w2].
      destruct IH as [Hs2 ->].
      rewrite !app_nil_r, settle_app, Hs1, gather_app, Hs1, Ho1.
      split; [exact Hs2|]. rewrite (push_app cookies), app_assoc. reflexivity.
    + specialize (IH cookies w1).
      destruct (Async.run h (extract_loop extract rest cookies) w1) as [[tr2 o2] w2].
      destruct IH as [Hs2 ->]. destruct Ho1 as [Hnone _].
      rewrite !app_nil_r, settle_app, Hs1, gather_app, Hs1, Hnone.
      split; [exact Hs2|]. reflexivity.
Qed.

Lemma scan_profiles_run dir items : forall profiles w,
  let '(tr, o, _) := Async.run h (scan_profiles join dir items profiles) w in
  Forall (fun x => is_probe x = true) tr
  /\ match o with
     | Async.Returned _ => True
     | Async.Thrown msg => exists x, last tr = Some x /\ rejection x = Some msg
     end.
Proof.
  induction items as [|item rest IH]; intros profiles w; simpl.
  - split; [constructor|exact I].
  - destruct (Async.answer h _ (existsSync (join (join dir item) "cookies.sqlite")) w)
      as [[present|msg] w1]; simpl.
    + specialize (IH (if present then profiles ++ [join (join dir item) "cookies.sqlite"]
                      else profiles) w1).
      destruct (Async.run h (scan_profiles join dir rest _) w1) as [[tr o] w2].
      destruct IH as [Hp Ho]. split; [constructor; [reflexivity|exact Hp]|].
      destruct o as [res|msg]; [exact I|].
      destruct Ho as (x & Hlast & Hrej). exists x. split; [|exact Hrej].
      destruct tr; [discriminate|exact Hlast].
    + split; [repeat constructor|]. eexists. split; reflexivity.
Qed.

Lemma findFirefoxProfiles_run dir w :
  let '(tr, o, _) := Async.run h (findFirefoxProfiles join dir) w in
  gathered (fun _ => []) [] tr o.
Proof.
  unfold findFirefoxProfiles, gathered. simpl.
  destruct (Async.answer h _ (existsSync dir) w) as [[[|]|msg] w1]; simpl.
  - destruct (Async.answer h _ (readdirSync dir) w1) as [[items|msg] w2]; simpl.
    + pose proof (scan_profiles_run dir items [] w2) as H.
      destruct (Async.run h (scan_profiles join dir items []) w2) as [[tr o] w3].
      destruct H as [Hp Ho]. destruct (probes_gather tr Hp) as [Hg Hs].
      split; [exact Hs|].
      destruct o as [res|msg]; [symmetry; exact Hg|].
      destruct Ho as (x & Hlast & Hrej). exists x.
      assert (Hlast' : last (Async.Exchange (existsSync dir) (Async.Fulfilled true)
                               :: Async.Exchange (readdirSync dir) (Async.Fulfilled items)
                               :: tr) = Some x).
      { destruct tr; [discriminate|exact Hlast]. }
      split; [exact Hlast'|]. split; [exact Hrej|].
      apply last_Some in Hlast as [pre ->].
      apply Forall_app in Hp as [_ Hx]. inversion Hx. assumption.
    + split; [reflexivity|]. eexists. repeat split.
  - split; reflexivity.
  - split; [reflexivity|]. eexists. repeat split.
Qed.

Lemma last_app_cons {A : Type} (l1 l2 : list A) x : last l2 = Some x -> last (l1 ++ l2) = Some x.
Proof. intros H. rewrite last_app, H. reflexivity. Qed.

Lemma firefox_loop_run dirs : forall cookies w,
  let '(tr, o, _) := Async.run h (firefox_loop join dirs cookies) w in
  gathered (fun cookies' => cookies') cookies tr o.
Proof.
  unfold gathered.
  induction dirs as [|dir rest IH]; intros cookies w.
  - simpl. rewrite app_nil_r. split; reflexivity.
  - cbn [firefox_loop]. rewrite run_bind.
    pose proof (findFirefoxProfiles_run dir w) as H1. unfold gathered in H1.
    destruct (Async.run h (findFirefoxProfiles join dir) w) as [[tr1 o1] w1].
    destruct H1 as [Hs1 Ho1].
    destruct o1 as [profilePaths|msg]; [|split; assumption].
    simpl in Ho1. symmetry in Ho1.
    rewrite run_bind.
    pose proof (extract_loop_run extractFirefoxF1TVCookies extractFirefox_run
                                 profilePaths cookies w1) as H2.
    destruct (Async.run h (extract_loop extractFirefoxF1TVCookies profilePaths cookies) w1)
      as [[tr2 o2] w2].
    destruct H2 as [Hs2 ->].
    specialize (IH (cookies ++ gather None tr2) w2).
    destruct (Async.run h (firefox_loop join rest (cookies ++ gather None tr2)) w2)
      as [[tr3 o3] w3].
    destruct IH as [Hs3 Ho3].
    split.
    + rewrite !settle_app, Hs1, Hs2. exact Hs3.
    + destruct o3 as [cookies'|msg].
      * rewrite gather_app, Hs1, gather_app, Hs2, Ho1, Ho3, <- app_assoc. reflexivity.
      * destruct Ho3 as (x & Hlast & Hrest). exists x. split; [|exact Hrest].
        rewrite app_assoc. apply last_app_cons. exact Hlast.
Qed.

(** The run of autoExtractF1TVCookies in full. *)
Lemma autoExtract_run browserPaths w :
  let '(tr, o, _) := Async.run h (autoExtract join browserPaths) w in
  match o with
  | Async.Returned res => res = value <$> best (gather None tr)
  | Async.Thrown msg =>
    exists x, last tr = Some x /\ rejection x = Some msg /\ is_probe x = true
  end.
Proof.
  unfold autoExtract. rewrite run_bind.
  pose proof (extract_loop_run extractChromeF1TVCookies extractChrome_run
                               (chrome browserPaths) [] w) as H1.
  destruct (Async.run h (extract_loop extractChromeF1TVCookies (chrome browserPaths) []) w)
    as [[tr1 o1] w1].
  destruct H1 as [Hs1 ->]. rewrite run_bind. simpl app.
  pose proof (firefox_loop_run (firefox browserPaths) (gather None tr1) w1) as H2.
  unfold gathered in H2.
  destruct (Async.run h (firefox_loop join (firefox browserPaths) (gather None tr1)) w1)
    as [[tr2 o2] w2].
  destruct H2 as [Hs2 Ho2].
  destruct o2 as [cookies2|msg].
  2:{ destruct Ho2 as (x & Hlast & Hrest). exists x. split; [|exact Hrest].
      apply last_app_cons. exact Hlast. }
  rewrite run_bind.
  pose proof (extract_loop_run extractSafariF1TVCookies extractSafari_run
                               (safari browserPaths) cookies2 w2) as H3.
  destruct (Async.run h (extract_loop extractSafariF1TVCookies (safari browserPaths) cookies2)
                      w2) as [[tr3 o3] w3].
  destruct H3 as [Hs3 ->].
  assert (Hall : cookies2 ++ gather None tr3 = gather None (tr1 ++ tr2 ++ tr3)).
  { rewrite gather_app, Hs1, gather_app, Hs2, Ho2, <- app_assoc. reflexivity. }
  rewrite Hall.
  destruct (gather None (tr1 ++ tr2 ++ tr3)) as [|first rest] eqn:Hg; simpl Async.run.
  - cbv beta iota zeta. rewrite !app_nil_r, Hg. reflexivity.
  - cbv beta iota zeta. rewrite !app_nil_r, Hg.
    rewrite <- (hd_sort first (first :: rest)) by discriminate. reflexivity.
Qed.

(** X17.  The cookie that autoExtractF1TVCookies returns.  A row
    counts when a query of a Chrome or Firefox database returned it and
    the test made when the clock is read next did not drop it: a row is
    dropped when its expires_utc or expiry is a number other than 0 below
    Date.now() * 1000 for Chrome, below Math.floor(Date.now() / 1000)
    for Firefox, the numbers compared as they are.  The function returns
    null exactly when no row counts, and otherwise the value of a row
    that counts and whose expires || 0 is greatest, the first found among
    equals; a query that fails or returns no row adds nothing and stops
    nothing. *)
Theorem autoExtract_selects browserPaths w :
  let '(tr, o, _) := Async.run h (autoExtract join browserPaths) w in
  match o with
  | Async.Returned None =>
    forall chrome r ms, queried tr chrome r ms -> dropped chrome r ms = true
  | Async.Returned (Some v) =>
    exists chrome r ms,
      queried tr chrome r ms /\ dropped chrome r ms = false
      /\ v = row_value r
      /\ best (gather None tr) = Some (cookie_of chrome r)
      /\ forall chrome' r' ms',
          queried tr chrome' r' ms' -> dropped chrome' r' ms' = false ->
          Js.or_num (row_expires r') 0 <= Js.or_num (row_expires r) 0
  | Async.Thrown _ => True
  end.
Proof.
  pose proof (autoExtract_run browserPaths w) as H.
  destruct (Async.run h (autoExtract join browserPaths) w) as [[tr o] w'].
  destruct o as [[v|]|msg]; [| |exact I].
  - destruct (best (gather None tr)) as [c|] eqn:Hb; [|discriminate].
    injection H as ->. destruct (best_greatest _ _ Hb) as [Hin Hmax].
    destruct (gather_queried _ _ _ Hin)
      as [(chrome & r & ms & rest & Hrow & _)|(chrome & r & ms & Hq & Hkept & ->)];
      [discriminate|].
    exists chrome, r, ms. split; [exact Hq|]. split; [exact Hkept|].
    split; [reflexivity|]. split; [reflexivity|].
    intros chrome' r' ms' Hq' Hkept'.
    exact (Hmax _ (queried_gather _ _ _ _ None Hq' Hkept')).
  - destruct (best (gather None tr)) as [c|] eqn:Hb; [discriminate|].
    apply best_none in Hb. intros chrome r ms Hq.
    destruct (dropped chrome r ms) eqn:Hkept; [reflexivity|].
    pose proof (queried_gather _ _ _ _ None Hq Hkept) as Hin.
    rewrite Hb in Hin. contradiction.
Qed.

(** X18.  What makes autoExtractF1TVCookies throw.  When it throws, the
    last thing it did was a look at the file system (existsSync or
    readdirSync) that failed, and it throws that error: a database that
    cannot be opened or queried never makes it throw.  With no Firefox
    directory to list it returns whatever happens, since the passes over
    the Chrome and Safari paths catch their errors. *)
Theorem autoExtract_throws browserPaths w :
  match snd (fst (Async.run h (autoExtract join browserPaths) w)) with
  | Async.Returned _ => True
  | Async.Thrown msg =>
    exists x, last (fst (fst (Async.run h (autoExtract join browserPaths) w))) = Some x
              /\ rejection x = Some msg /\ is_probe x = true
  end
  /\ exists res,
      snd (fst (Async.run h (autoExtract join (mkPaths (chrome browserPaths)
                                                      (safari browserPaths) [])) w))
      = Async.Returned res.
Proof.
  split.
  - pose proof (autoExtract_run browserPaths w) as H.
    destruct (Async.run h (autoExtract join browserPaths) w) as [[tr o] w'].
    destruct o as [res|msg]; [exact I|exact H].
  - apply unfailing_run. unfold autoExtract. simpl firefox.
    assert (Hloop : forall extract ps cookies,
               unfailing (extract_loop extract ps cookies)).
    { intros extract ps. induction ps as [|p rest IH]; intros cookies; simpl.
      - constructor.
      - apply unfailing_bind; [|exact IH].
        unfold try_extract. apply unfailing_try_catch. intros _. constructor. }
    apply unfailing_bind; [apply Hloop|]. intros cookies1.
    apply unfailing_bind; [constructor|]. intros cookies2.
    apply unfailing_bind; [apply Hloop|]. intros [|first rest]; constructor.
Qed.

(** X19.  Safari is never read.  For every answer of the outside,
    autoExtractF1TVCookies makes the same requests with the same result
    as it does without the Safari paths: extractSafariF1TVCookies returns
    null without opening the file. *)
Theorem safari_ignored browserPaths w :
  Async.run h (autoExtract join browserPaths) w
  = Async.run h (autoExtract join (mkPaths (chrome browserPaths) [] (firefox browserPaths))) w.
Proof.
  assert (Hsafari : forall ps cookies,
             extract_loop extractSafariF1TVCookies ps cookies = Async.Ret cookies).
  { induction ps as [|p rest IH]; intros cookies; simpl; [reflexivity|apply IH]. }
  unfold autoExtract. simpl chrome. simpl firefox. simpl safari.
  rewrite !run_bind.
  destruct (Async.run h (extract_loop extractChromeF1TVCookies (chrome browserPaths) []) w)
    as [[tr1 o1] w1].
  destruct o1 as [cookies1|msg]; [|reflexivity].
  rewrite !run_bind.
  destruct (Async.run h (firefox_loop join (firefox browserPaths) cookies1) w1)
    as [[tr2 o2] w2].
  destruct o2 as [cookies2|msg]; [|reflexivity].
  rewrite Hsafari. reflexivity.
Qed.

End Path.

End Runs.

(** On a Linux machine where both browsers hold a cookie, the one of
    Chrome is returned although the one of Firefox expires later: Chrome
    counts microseconds from 1601, Firefox seconds from 1970, and both
    the test on a row and the order of the list take the numbers as they
    are. *)
Example chrome_outlives_firefox :
  snd (fst (Async.run two_browsers
              (autoExtractF1TVCookies slash linux_host false) tt))
  = Async.Returned (Some "from-chrome"%string).
Proof. vm_compute. reflexivity. Qed.

(** For the same reason a row of Chrome whose expires_utc lies in the
    year 2012 of Chrome's calendar is not dropped in 2023. *)
Example expired_chrome_row_kept :
  dropped true (mkRow "entitlement_token" "old" (Some 13000000000000000)) Scenarios.noon
  = false.
Proof. reflexivity. Qed.

End CookieFacts.

(** * Properties of the download of one task *)

Module DownloadFacts.

Import DownloadQueue StreamPlan PlanRuns Footprint Download AsyncFacts.



Section Api.

Variable content : Type.
Variable isRace : content -> bool.
Variable contentId : Type.
Variable id : content -> contentId.
Variable streams : Type.
Variable additionalStreams : content -> option streams.
Variable channel_id : Type.
Variable name : string -> string.
Variable join : string -> string -> string.

Local Notation request := (Download.request content contentId streams channel_id).
Local Notation getTokenizedUrl :=
  (Download.getTokenizedUrl content isRace contentId id streams additionalStreams channel_id).
Local Notation serve :=
  (Download.serve content isRace contentId id streams additionalStreams channel_id).
Local Notation served :=
  (Download.served content isRace contentId id streams additionalStreams channel_id).
Local Notation settled := (Download.settled content contentId streams channel_id).
Local Notation download :=
  (Download.download content isRace contentId id streams additionalStreams channel_id
                     name join).
Local Notation saves := (Download.saves content contentId streams channel_id).
Local Notation commands := (Download.commands content contentId streams channel_id).
Local Notation backing :=
  (Download.backing content isRace contentId id streams additionalStreams channel_id).
Local Notation outFile := (Download.outFile content isRace name).
Local Notation outFileSpec := (Download.outFileSpec join).

Lemma saves_app (tr1 tr2 : list (Async.entry request)) :
  saves (tr1 ++ tr2) = saves tr1 ++ saves tr2.
Proof. unfold Download.saves. apply omap_app. Qed.

(** ** Without a try block *)

Lemma fails_fast_settled own {A B : Type} (m : Async.t request A)
    (k : Async.result A -> Async.t request B) :
  fails_fast own m ->
  (forall x, fails_fast own (k (Async.Fulfilled x))) ->
  (forall msg, k (Async.Rejected msg) = Async.Throw msg) ->
  fails_fast own (settled m k).
Proof.
  intros Hm Hk Hrej. induction Hm as [a|msg Hown|X e k' Hk' IH Hrej'|k' Hk' IH]; simpl.
  - apply Hk.
  - rewrite Hrej. constructor. exact Hown.
  - constructor; [exact IH|]. intros msg. rewrite Hrej'. simpl. apply Hrej.
  - constructor. exact IH.
Qed.

Lemma fails_fast_getTokenizedUrl url c channel :
  fails_fast own_error (getTokenizedUrl url c channel).
Proof.
  unfold Download.getTokenizedUrl. destruct (additionalStreams c) as [additional|].
  - apply fails_fast_bind; [apply fails_fast_await|].
    intros [| |stream].
    + constructor. unfold own_error. simpl. auto.
    + constructor. unfold own_error. simpl. auto.
    + destruct (playbackUrl _ stream) as [| |u].
      * constructor. unfold own_error. simpl. auto.
      * apply fails_fast_await.
      * apply fails_fast_await.
  - apply fails_fast_await.
Qed.

Lemma fails_fast_serve {X : Type} (e : StreamPlan.request content X) :
  fails_fast own_error (serve e).
Proof.
  destruct e; simpl; [apply fails_fast_await|apply fails_fast_getTokenizedUrl
                      |apply fails_fast_await].
Qed.

Lemma fails_fast_served {A : Type} (m : Async.t (StreamPlan.request content) A) :
  fails_fast own_error m -> fails_fast own_error (served m).
Proof.
  intros Hm. induction Hm as [a|msg Hown|X e k Hk IH Hrej|k Hk IH]; simpl.
  - constructor.
  - constructor. exact Hown.
  - apply fails_fast_settled; [apply fails_fast_serve|exact IH|].
    intros msg. rewrite Hrej. reflexivity.
  - constructor. exact IH.
Qed.

Lemma fails_fast_downloadVideo task f1tvUrl c spec :
  fails_fast own_error (downloadVideo content isRace task f1tvUrl c spec).
Proof.
  unfold downloadVideo. apply fails_fast_bind; [apply fails_fast_await|]. intros pl.
  destruct (Task.internationalAudio task) as [lang|]; [destruct (isRace c)|].
  - apply fails_fast_bind; [apply fails_fast_await|]. intros intlUrl.
    apply fails_fast_bind; [apply fails_fast_await|]. intros intl.
    apply fails_fast_await.
  - apply fails_fast_await.
  - apply fails_fast_await.
Qed.

Lemma fails_fast_download task channel :
  fails_fast own_error (download task channel).
Proof.
  unfold Download.download. apply fails_fast_bind; [apply fails_fast_await|]. intros c.
  apply fails_fast_bind; [apply fails_fast_getTokenizedUrl|]. intros f1tvUrl.
  destruct (outFile task channel c) as [file|msg] eqn:Hfile.
  - apply fails_fast_served, fails_fast_downloadVideo.
  - constructor. unfold Download.outFile in Hfile.
    destruct (isRace c && Nullable.not_null channel); [|discriminate].
    destruct channel; try discriminate; apply (inj inr) in Hfile; subst msg;
      unfold own_error; simpl; auto.
Qed.

(** ** The requests of downloadVideo, served *)

Section Runs.

Variable W : Type.
Variable h : Async.handler request W.

Lemma run_settled {A B : Type} (m : Async.t request A)
    (k : Async.result A -> Async.t request B) (w : W) :
  Async.run h (settled m k) w
  = let '(tr, o, w1) := Async.run h m w in
    let '(tr2, o2, w2) := Async.run h (k (result_of o)) w1 in
    (tr ++ tr2, o2, w2).
Proof.
  revert w. induction m as [a|msg|X e k' IH|k' IH]; intros w; simpl.
  - destruct (Async.run h (k (Async.Fulfilled a)) w) as [[tr2 o2] w2]. reflexivity.
  - destruct (Async.run h (k (Async.Rejected msg)) w) as [[tr2 o2] w2]. reflexivity.
  - destruct (Async.answer h X e w) as [r w1]. rewrite IH.
    destruct (Async.run h (k' r) w1) as [[tr o] w2].
    destruct (Async.run h (k (result_of o)) w2) as [[tr2 o2] w3]. reflexivity.
  - destruct (Async.clock h w) as [now w1]. rewrite IH.
    destruct (Async.run h (k' now) w1) as [[tr o] w2].
    destruct (Async.run h (k (result_of o)) w2) as [[tr2 o2] w3]. reflexivity.
Qed.

(** getTokenizedUrl starts no ffmpeg process. *)
Lemma getTokenizedUrl_saves url c channel (w : W) :
  saves (fst (fst (Async.run h (getTokenizedUrl url c channel) w))) = [].
Proof.
  unfold Download.getTokenizedUrl. destruct (additionalStreams c) as [additional|]; simpl.
  - destruct (Async.answer h _ _ w) as [[[| |stream]|msg] w1]; simpl; try reflexivity.
    destruct (playbackUrl _ stream) as [| |u]; simpl; try reflexivity.
    + destruct (Async.answer h _ _ w1) as [[x|msg] w2]; reflexivity.
    + destruct (Async.answer h _ _ w1) as [[x|msg] w2]; reflexivity.
  - destruct (Async.answer h _ _ w) as [[x|msg] w1]; reflexivity.
Qed.

(** What serving one request of downloadVideo leaves in the trace. *)
Lemma serve_saves {X : Type} (e : StreamPlan.request content X) (w : W) :
  saves (fst (fst (Async.run h (serve e) w)))
  = match plan_save_of
            (Async.Exchange e (result_of (snd (fst (Async.run h (serve e) w))))) with
    | Some x => [x]
    | None => []
    end.
Proof.
  destruct e as [url audioStream videoSize|url c channel|cmd].
  - simpl. destruct (Async.answer h _ _ w) as [[x|msg] w1]; reflexivity.
  - cbn [Download.serve]. rewrite getTokenizedUrl_saves. reflexivity.
  - simpl. destruct (Async.answer h _ _ w) as [[x|msg] w1]; reflexivity.
Qed.

(** A run of served downloadVideo ends as the run of downloadVideo whose
    requests are answered by what serves them, and starts the same
    ffmpeg processes. *)
Lemma served_run {A : Type} (m : Async.t (StreamPlan.request content) A) (w : W) :
  snd (fst (Async.run h (served m) w)) = snd (fst (Async.run (backing h) m w))
  /\ snd (Async.run h (served m) w) = snd (Async.run (backing h) m w)
  /\ saves (fst (fst (Async.run h (served m) w)))
     = plan_saves (fst (fst (Async.run (backing h) m w))).
Proof.
  revert w. induction m as [a|msg|X e k IH|k IH]; intros w; simpl.
  - repeat split.
  - repeat split.
  - rewrite run_settled. pose proof (serve_saves e w) as Hs.
    destruct (Async.run h (serve e) w) as [[tr1 o1] w1]. simpl in Hs.
    specialize (IH (result_of o1) w1).
    destruct (Async.run h (served (k (result_of o1))) w1) as [[tr2 o2] w2].
    destruct (Async.run (backing h) (k (result_of o1)) w1) as [[tr0 o0] w0].
    simpl in *. destruct IH as (Ho & Hw & Htr).
    split; [exact Ho|]. split; [exact Hw|].
    rewrite saves_app, Hs, Htr. destruct e; reflexivity.
  - destruct (Async.clock h w) as [now w1]. specialize (IH now w1).
    destruct (Async.run h (served (k now)) w1) as [[tr2 o2] w2].
    destruct (Async.run (backing h) (k now) w1) as [[tr0 o0] w0].
    simpl in *. exact IH.
Qed.

End Runs.

(** The ffmpeg processes of a run of downloadVideo, whatever answers its
    requests. *)
Lemma downloadVideo_saves {W : Type} (h0 : Async.handler (StreamPlan.request content) W)
    task f1tvUrl c spec (w : W) :
  let tr := fst (fst (Async.run h0 (downloadVideo content isRace task f1tvUrl c spec) w)) in
  let o := snd (fst (Async.run h0 (downloadVideo content isRace task f1tvUrl c spec) w)) in
  (plan_saves tr = [] /\ exists msg, o = Async.Thrown msg)
  \/ (exists cmd, plan_saves tr = [(cmd, Async.Fulfilled tt)] /\ o = Async.Returned tt)
  \/ (exists cmd msg, plan_saves tr = [(cmd, Async.Rejected msg)] /\ o = Async.Thrown msg).
Proof.
  unfold downloadVideo. simpl.
  destruct (Async.answer h0 _ _ w) as [[pl|msg] w1]; simpl; [|left; eauto].
  destruct (Task.internationalAudio task) as [lang|]; [destruct (isRace c)|].
  - simpl. destruct (Async.answer h0 _ _ w1) as [[intlUrl|msg] w2]; simpl; [|left; eauto].
    destruct (Async.answer h0 _ _ w2) as [[intl|msg] w3]; simpl; [|left; eauto].
    destruct (Async.answer h0 _ _ w3) as [[[]|msg] w4]; simpl; right; [left|right]; eauto.
  - simpl. destruct (Async.answer h0 _ _ w1) as [[[]|msg] w2]; simpl; right; [left|right]; eauto.
  - simpl. destruct (Async.answer h0 _ _ w1) as [[[]|msg] w2]; simpl; right; [left|right]; eauto.
Qed.

Ltac steps := cbn -[Download.served Download.getTokenizedUrl Download.saves].

(** X20.  The download of one task starts ffmpeg at most once.  The
    chain of processTask (content info, tokenized URL, file name,
    downloadVideo) makes its requests one after the other and stops at
    the first one that is rejected, failing with that error, or at a
    TypeError of its own.  It either fails without having started
    ffmpeg, or starts ffmpeg exactly once after every other request was
    fulfilled, and then resolves if ffmpeg ends and fails with ffmpeg's
    error if ffmpeg fails. *)
Theorem download_starts_ffmpeg_once {W : Type} (h : Async.handler request W) task channel
    (w : W) :
  let tr := fst (fst (Async.run h (download task channel) w)) in
  let o := snd (fst (Async.run h (download task channel) w)) in
  stopped_at_failure own_error tr o
  /\ ((saves tr = [] /\ exists msg, o = Async.Thrown msg)
      \/ (exists cmd, saves tr = [(cmd, Async.Fulfilled tt)] /\ o = Async.Returned tt)
      \/ (exists cmd msg, saves tr = [(cmd, Async.Rejected msg)] /\ o = Async.Thrown msg)).
Proof.
  split; [apply fails_fast_run, fails_fast_download|].
  unfold Download.download. rewrite TokenFacts.run_bind. steps.
  destruct (Async.answer h _ _ w) as [[c|msg] w1]; steps; [|left; eauto].
  rewrite TokenFacts.run_bind.
  pose proof (getTokenizedUrl_saves W h (Task.url task) c
                (match channel with Nullable.Value ch => Some ch | _ => None end) w1) as Hs.
  destruct (Async.run h (getTokenizedUrl _ c _) w1) as [[tr1 [f1tvUrl|msg]] w2];
    simpl in Hs; steps; [|left; split; [exact Hs|eauto]].
  destruct (outFile task channel c) as [file|msg]; steps.
  2:{ left. rewrite app_nil_r. split; [exact Hs|eauto]. }
  pose proof (served_run W h (downloadVideo content isRace task f1tvUrl c (outFileSpec task file))
                w2) as (Ho & _ & Htr).
  pose proof (downloadVideo_saves (backing h) task f1tvUrl c (outFileSpec task file) w2) as Hd.
  cbv zeta in Hd. rewrite <- Ho, <- Htr in Hd.
  destruct (Async.run h (served _) w2) as [[tr2 o2] w3]. cbn [fst snd] in *.
  change (saves (?x :: tr1 ++ tr2)) with (saves ([x] ++ tr1 ++ tr2)).
  rewrite !saves_app, Hs. exact Hd.
Qed.

(** X21.  A race needs a channel that is not undefined.  When the
    content is a race and task.channel is undefined, which is what
    addDownload stores when the configuration names no channel, the
    download never starts ffmpeg and fails: processTask tests
    [task.channel !== null], which undefined passes, and then splits
    task.channel.  If the tokenized URL was obtained, the error is the
    TypeError of that split. *)
Theorem race_needs_channel {W : Type} (h : Async.handler request W) task (w w1 : W) c :
  Async.answer h _ (getContentInfo content contentId streams channel_id (Task.url task)) w
  = (Async.Fulfilled c, w1) ->
  isRace c = true ->
  let r := Async.run h (download task Nullable.Undefined) w in
  commands (fst (fst r)) = []
  /\ exists msg,
      snd (fst r) = Async.Thrown msg
      /\ forall f1tvUrl,
          snd (fst (Async.run h (getTokenizedUrl (Task.url task) c None) w1))
          = Async.Returned f1tvUrl ->
          msg = type_error "undefined" "split".
Proof.
  intros Hc Hrace. unfold Download.download, Download.commands.
  rewrite TokenFacts.run_bind. steps. rewrite Hc. steps.
  rewrite TokenFacts.run_bind.
  pose proof (getTokenizedUrl_saves W h (Task.url task) c None w1) as Hs.
  destruct (Async.run h (getTokenizedUrl _ c None) w1) as [[tr1 [f1tvUrl|msg]] w2];
    simpl in Hs; steps.
  - unfold Download.outFile. rewrite Hrace. steps. rewrite app_nil_r.
    change (saves (?x :: tr1)) with (saves ([x] ++ tr1)). rewrite saves_app, Hs.
    split; [reflexivity|]. eexists. split; [reflexivity|]. reflexivity.
  - change (saves (?x :: tr1)) with (saves ([x] ++ tr1)). rewrite saves_app, Hs.
    split; [reflexivity|]. eexists. split; [reflexivity|]. discriminate.
Qed.


End Api.

Lemma race_needs_channel_witness :
  Scenarios.is_race true = true
  /\ Download.commands bool unit unit Z (fst (fst (DownloadRuns.sky Nullable.Undefined))) = []
  /\ snd (fst (DownloadRuns.sky Nullable.Undefined))
     = Async.Thrown (type_error "undefined" "split").
Proof.
  split; [reflexivity|].
  destruct (race_needs_channel bool Scenarios.is_race unit DownloadRuns.no_id unit
              DownloadRuns.with_streams Z DownloadRuns.name DownloadRuns.slash
              DownloadRuns.fulfil Scenarios.with_sky tt tt true eq_refl eq_refl)
    as (Hnone & msg & Hthrown & Hmsg).
  split; [exact Hnone|]. unfold DownloadRuns.sky. rewrite Hthrown. f_equal.
  apply (Hmsg Scenarios.hls_url). reflexivity.
Defined.


End DownloadFacts.

(** * Properties of the cache cleaner *)

Module CleanerFacts.

Import Footprint AsyncFacts CacheCleaner.

Section Dir.

Variable join : string -> string -> string.
Variable dirname : string.
Variable W : Type.
Variable h : Async.handler request W.

Ltac rounds :=
  split; [reflexivity|]; split; [simpl; lia|]; split; [reflexivity|];
  split; [repeat constructor|]; split; [reflexivity|simpl; lia].

Lemma clear_file_round : round h (clear_file join dirname) (file_ok join dirname).
Proof.
  intros file st w. unfold clear_file. simpl.
  destruct (Async.answer h _ _ w) as [[[|]|msg] w1]; simpl.
  - destruct (Async.answer h _ _ w1) as [[[]|msg] w2]; simpl; eexists _, _; rounds.
  - exists st, []. rewrite app_nil_r. rounds.
  - eexists _, _. rounds.
Qed.

Lemma clear_dir_round : round h (clear_dir join dirname) (dir_ok join dirname).
Proof.
  intros dir st w. unfold clear_dir. simpl.
  destruct (Async.answer h _ _ w) as [[[|]|msg] w1]; simpl.
  - destruct (Async.answer h _ _ w1) as [[[]|msg] w2]; simpl; eexists _, _; rounds.
  - exists st, []. rewrite app_nil_r. rounds.
  - eexists _, _. rounds.
Qed.

Lemma removed_app tr1 tr2 : removed (tr1 ++ tr2) = removed tr1 ++ removed tr2.
Proof. apply omap_app. Qed.

Lemma attempted_app tr1 tr2 : attempted (tr1 ++ tr2) = attempted tr1 ++ attempted tr2.
Proof. apply omap_app. Qed.

Lemma found_app tr1 tr2 : found (tr1 ++ tr2) = found tr1 ++ found tr2.
Proof. apply omap_app. Qed.

(** A loop of such rounds. *)
Lemma for_of_run body ok (names : list string) :
  round h body ok ->
  forall st (w : W),
    let tr := fst (fst (Async.run h (for_of body names st) w)) in
    exists st' printed,
      snd (fst (Async.run h (for_of body names st) w)) = Async.Returned st'
      /\ clearedCount st' = clearedCount st + Z.of_nat (length (removed tr))
      /\ console st' = console st ++ printed
      /\ confined (fun X e => exists name, In name names /\ ok name X e) tr
      /\ attempted tr = found tr
      /\ (length (removed tr) <= length names)%nat.
Proof.
  intros Hround. induction names as [|name names IH]; intros st w.
  - exists st, []. simpl. rewrite app_nil_r.
    split; [reflexivity|]. split; [lia|]. split; [reflexivity|].
    split; [constructor|]. split; [reflexivity|lia].
  - cbn [for_of]. rewrite TokenFacts.run_bind.
    destruct (Hround name st w) as (st1 & p1 & Ho & Hcount & Hcons & Hconf & Hatt & Hlen).
    destruct (Async.run h (body name st) w) as [[tr1 o1] w1]. cbn [fst snd] in *. subst o1.
    destruct (IH st1 w1) as (st2 & p2 & Ho2 & Hcount2 & Hcons2 & Hconf2 & Hatt2 & Hlen2).
    destruct (Async.run h (for_of body names st1) w1) as [[tr2 o2] w2]. cbn [fst snd] in *.
    exists st2, (p1 ++ p2).
    rewrite removed_app, attempted_app, found_app, length_app, Hatt, Hatt2.
    split; [exact Ho2|]. split; [lia|]. split; [rewrite Hcons2, Hcons, app_assoc; reflexivity|].
    split; [|split; [reflexivity|simpl; lia]].
    apply Forall_app. split.
    + eapply Forall_impl; [exact Hconf|].
      intros [X e r|now]; [|trivial]. intros He. exists name. split; [left; reflexivity|exact He].
    + eapply Forall_impl; [exact Hconf2|].
      intros [X e r|now]; [|trivial]. intros (name' & Hin & He).
      exists name'. split; [right; exact Hin|exact He].
Qed.

(** X23.  The cache cleaner never throws and counts what it removed.
    Whatever the file system answers, clearCache ends normally.  It asks
    only about the two cache files and the session directory beside the
    script, removes a path exactly when it found it to exist (a file by
    unlinkSync, the directory recursively and by force), and its closing
    line reports the number of removals that succeeded: 'No cache files
    found to clear' when none did, also when a removal was tried and
    failed. *)
Theorem clearCache_counts (w : W) :
  let tr := fst (fst (Async.run h (clearCache join dirname) w)) in
  confined (allowed join dirname) tr
  /\ attempted tr = found tr
  /\ (length (removed tr) <= 3)%nat
  /\ exists printed,
      snd (fst (Async.run h (clearCache join dirname) w))
      = Async.Returned
          (Clearing :: printed ++ [summary (Z.of_nat (length (removed tr))); NextSteps]).
Proof.
  unfold clearCache. rewrite TokenFacts.run_bind.
  destruct (for_of_run _ _ filesToClear clear_file_round (mkProgress 0 [Clearing]) w)
    as (st1 & p1 & Ho & Hcount & Hcons & Hconf & Hatt & Hlen).
  destruct (Async.run h (for_of _ filesToClear _) w) as [[tr1 o1] w1].
  cbn [fst snd] in *. subst o1. rewrite TokenFacts.run_bind.
  destruct (for_of_run _ _ dirsToClear clear_dir_round st1 w1)
    as (st2 & p2 & Ho2 & Hcount2 & Hcons2 & Hconf2 & Hatt2 & Hlen2).
  destruct (Async.run h (for_of _ dirsToClear _) w1) as [[tr2 o2] w2].
  cbn [fst snd] in *. subst o2. cbn [Async.run fst snd clearedCount console] in *.
  rewrite !app_nil_r, removed_app, attempted_app, found_app, length_app, Hatt, Hatt2.
  split; [|split; [reflexivity|split; [simpl in Hlen, Hlen2; lia|]]].
  - apply Forall_app. split.
    + eapply Forall_impl; [exact Hconf|].
      intros [X e r|now]; [|trivial]. intros (name & Hin & He).
      destruct e; unfold allowed; cbn [file_ok] in He; try contradiction; subst p.
      * apply in_map, in_or_app. left. exact Hin.
      * apply in_map. exact Hin.
    + eapply Forall_impl; [exact Hconf2|].
      intros [X e r|now]; [|trivial]. intros (name & Hin & He).
      destruct e; unfold allowed; cbn [dir_ok] in He; try contradiction.
      * subst p. apply in_map, in_or_app. right. exact Hin.
      * destruct He as (-> & -> & ->). split; [apply in_map; exact Hin|auto].
  - exists (p1 ++ p2). rewrite Hcons2, Hcons, Hcount2, Hcount. simpl.
    rewrite <- !app_assoc, Nat2Z.inj_add. reflexivity.
Qed.

End Dir.

(** A removal that fails is reported, and not counted. *)
Example cleaner_with_stubborn_file :
  Async.run stubborn (clearCache slash "/app") tt
  = ([Async.Exchange (existsSync "/app/.f1tv-cookies.json") (Async.Fulfilled true);
      Async.Exchange (unlinkSync "/app/.f1tv-cookies.json")
                     (Async.Rejected "EACCES: permission denied");
      Async.Exchange (existsSync "/app/.token-cache.json") (Async.Fulfilled true);
      Async.Exchange (unlinkSync "/app/.token-cache.json") (Async.Fulfilled tt);
      Async.Exchange (existsSync "/app/.browser-sessions") (Async.Fulfilled false)],
     Async.Returned [Clearing;
                     FailedToDelete ".f1tv-cookies.json" "EACCES: permission denied";
                     Deleted ".token-cache.json";
                     Cleared 1;
                     NextSteps],
     tt).
Proof. reflexivity. Qed.

End CleanerFacts.
